(** * Sparse circuit analyzer: connection extraction and circuit tracing

    A shallow embedding of [apps/sparsity/server.py] and the proofs of its
    specified properties.

    Modelling choices.
    - Python integers are [Z].  Indexing a module list or a tensor with an
      integer follows the Python protocol: an index [i] with [-n <= i < n]
      addresses element [i] (or [i + n] when negative), any other index
      raises [IndexError].  A tensor index is first unpacked into a signed
      64-bit integer: an index that does not fit raises [ValueError].
    - A weight is a signed real number; it is modelled as an exact
      rational [Q].  [w != 0] is [negb (Qeq_bool w 0)], [abs] is [Qabs].
    - A 2-d weight tensor is its shape together with its entries; the
      sizes of its dimensions fit a signed 64-bit integer.
    - Exceptions are explicit: every function that can raise returns a
      [result].
    - [list.sort(key=..., reverse=True)] and [sorted(..., reverse=True)] are
      stable: elements with equal keys keep their original order.  They are
      modelled by a stable insertion sort.
    - The recursive helper [trace_from_neuron] is defined with an explicit
      recursion budget; the budget chosen by the entry points is proved to
      be sufficient. *)

From Stdlib Require Import QArith Qabs.
From stdpp Require Import gmap strings list pretty sorting.

Local Open Scope Z_scope.
Set Warnings "-register-all".

(** ** Exceptions *)

Inductive exn : Type :=
  | IndexError
  | ValueError
  | HTTPException (status_code : Z) (detail : string).

Inductive result (A : Type) : Type :=
  | Ok (a : A)
  | Raise (e : exn).
Arguments Ok {A} a.
Arguments Raise {A} e.

Definition bind {A B : Type} (m : result A) (k : A -> result B) : result B :=
  match m with
  | Ok a => k a
  | Raise e => Raise e
  end.

Notation "'let*' x ':=' m 'in' k" := (bind m (fun x => k))
  (at level 10, x name, m at level 100, k at level 200).

(** ** Python sequence operations *)

(** [normalize n i]: the position addressed by the Python index [i] in a
    sequence (or tensor dimension) of size [n]. *)
Definition normalize (n : nat) (i : Z) : result nat :=
  if (- Z.of_nat n <=? i) && (i <? Z.of_nat n)
  then Ok (Z.to_nat (if i <? 0 then i + Z.of_nat n else i))
  else Raise IndexError.

(** The indices Python accepts for a dimension of size [n], and the position
    such an index addresses. *)
Definition in_dim (n : nat) (i : Z) : Prop := - Z.of_nat n <= i < Z.of_nat n.

Definition position (n : nat) (i : Z) : nat :=
  Z.to_nat (if i <? 0 then i + Z.of_nat n else i).

(** [l[i]] *)
Definition getitem {A : Type} (l : list A) (i : Z) : result A :=
  let* p := normalize (length l) i in
  match l !! p with
  | Some a => Ok a
  | None => Raise IndexError
  end.

(** [l[:k]] *)
Definition slice_to {A : Type} (k : Z) (l : list A) : list A :=
  if 0 <=? k then take (Z.to_nat k) l
  else take (length l - Z.to_nat (- k))%nat l.

(** [enumerate(l, start)] and [enumerate(l)] *)
Fixpoint enumerate_from {A : Type} (start : Z) (l : list A) : list (Z * A) :=
  match l with
  | [] => []
  | a :: l' => (start, a) :: enumerate_from (start + 1) l'
  end.

Definition enumerate {A : Type} (l : list A) : list (Z * A) :=
  enumerate_from 0 l.

(** [range(a, b)] *)
Definition range (a b : Z) : list Z := seqZ a (b - a).

(** [range(a, -1, -1)]: [a, a-1, ..., 0] *)
Definition range_down (a : Z) : list Z := reverse (seqZ 0 (a + 1)).

(** Stable sort, descending by [key]: [sorted(l, key=key, reverse=True)]. *)
Section Sorting.
Context {A : Type} (key : A -> Q).

Fixpoint insert_desc (x : A) (l : list A) : list A :=
  match l with
  | [] => [x]
  | y :: l' =>
      if Qle_bool (key y) (key x) then x :: y :: l'
      else y :: insert_desc x l'
  end.

Definition sort_desc (l : list A) : list A := foldr insert_desc [] l.

(** [x] is ranked no later than [y]. *)
Definition key_ge (x y : A) : Prop := (key y <= key x)%Q.

(** Ranking relation of a stable sort: a larger key first, and for equal
    keys the order [T] of the input. *)
Definition ranks_before (T : A -> A -> Prop) (x y : A) : Prop :=
  (key y < key x)%Q \/ (key y == key x /\ T x y)%Q.
End Sorting.

(** ** The model: layers, MLPs and weight tensors *)

(** [2^63]: the signed 64-bit integers are [-2^63 <= i < 2^63]. *)
Definition int64_bound : Z := 9223372036854775808.

Definition fits_int64 (i : Z) : bool :=
  (- int64_bound <=? i) && (i <? int64_bound).

Definition fits_shape (r c : nat) : bool :=
  (Z.of_nat r <? int64_bound) && (Z.of_nat c <? int64_bound).

Record tensor : Type := {
  nrows : nat;                 (* shape[0] *)
  ncols : nat;                 (* shape[1] *)
  entry : nat -> nat -> Q;
  shape_fits : fits_shape nrows ncols = true;
}.

(** The position a tensor index addresses in a dimension of size [n]: the
    index is unpacked into a signed 64-bit integer, which raises
    [ValueError] when it does not fit, and then checked against the
    dimension. *)
Definition tensor_index (n : nat) (i : Z) : result nat :=
  if fits_int64 i then normalize n i else Raise ValueError.

(** [t[i, :].tolist()] *)
Definition row (t : tensor) (i : Z) : result (list Q) :=
  let* p := tensor_index (nrows t) i in
  Ok (map (fun j => entry t p j) (seq 0 (ncols t))).

(** [t[:, j].tolist()] *)
Definition column (t : tensor) (j : Z) : result (list Q) :=
  let* p := tensor_index (ncols t) j in
  Ok (map (fun i => entry t i p) (seq 0 (nrows t))).

Record linear : Type := { weight : tensor }.
Record mlp_block : Type := { c_fc : linear; c_proj : linear }.
Record block : Type := { mlp : mlp_block }.

(** The value of [get_layers()]: [model.circuit_model.transformer["h"]]. *)
Abbreviation layers_t := (list block).

Definition len {A : Type} (l : list A) : Z := Z.of_nat (length l).

(** ** Connection extractor *)

(** [{"channel_id": i, "weight": w}] *)
Record channel_conn : Type := { channel_id : Z; channel_weight : Q }.

(** [{"neuron_id": i, "weight": w}] *)
Record neuron_conn : Type := { neuron_id : Z; neuron_weight : Q }.

(** [{"in": [...], "out": [...]}] *)
Record connections_t : Type := {
  conn_in : list channel_conn;
  conn_out : list channel_conn;
}.

Definition nonzero (w : Q) : bool := negb (Qeq_bool w 0).

(** [for i, w in enumerate(ws) if w != 0] *)
Definition nonzero_entries (ws : list Q) : list (Z * Q) :=
  List.filter (fun iw => nonzero (snd iw)) (enumerate ws).

(** [[{"channel_id": i, "weight": w} for i, w in enumerate(ws) if w != 0]] *)
Definition channel_conns (ws : list Q) : list channel_conn :=
  map (fun iw => {| channel_id := fst iw; channel_weight := snd iw |})
      (nonzero_entries ws).

(** [[{"neuron_id": i, "weight": w} for i, w in enumerate(ws) if w != 0]] *)
Definition neuron_conns (ws : list Q) : list neuron_conn :=
  map (fun iw => {| neuron_id := fst iw; neuron_weight := snd iw |})
      (nonzero_entries ws).

Definition abs_channel_weight (x : channel_conn) : Q := Qabs (channel_weight x).
Definition abs_neuron_weight (x : neuron_conn) : Q := Qabs (neuron_weight x).

Definition neuron_get_connected_reschannels
    (layers : layers_t) (layer_idx neuron_idx : Z) : result connections_t :=
  let* l := getitem layers layer_idx in
  let* c_fc_weights := row (weight (c_fc (mlp l))) neuron_idx in
  let* l' := getitem layers layer_idx in
  let* c_proj_weights := column (weight (c_proj (mlp l'))) neuron_idx in
  Ok {| conn_in := channel_conns c_fc_weights;
        conn_out := channel_conns c_proj_weights |}.

Definition find_neurons_reading_channel
    (layers : layers_t) (layer_idx channel_id : Z) (top_k : Z)
    : result (list neuron_conn) :=
  let* l := getitem layers layer_idx in
  let* c_fc_weights := column (weight (c_fc (mlp l))) channel_id in
  let neurons := neuron_conns c_fc_weights in
  let neurons := sort_desc abs_neuron_weight neurons in
  Ok (slice_to top_k neurons).

Definition find_neurons_writing_channel
    (layers : layers_t) (layer_idx channel_id : Z) (top_k : Z)
    : result (list neuron_conn) :=
  let* l := getitem layers layer_idx in
  let* c_proj_weights := row (weight (c_proj (mlp l))) channel_id in
  let neurons := neuron_conns c_proj_weights in
  let neurons := sort_desc abs_neuron_weight neurons in
  Ok (slice_to top_k neurons).

(** ** Circuit tracer *)

(** Computations of the recursive tracer: [None] when the recursion budget
    is exhausted, otherwise the outcome of the Python call. *)
Definition M (A : Type) : Type := option (result A).

Definition ret {A : Type} (a : A) : M A := Some (Ok a).
Definition lift {A : Type} (r : result A) : M A := Some r.

Definition bindM {A B : Type} (m : M A) (k : A -> M B) : M B :=
  match m with
  | Some (Ok a) => k a
  | Some (Raise e) => Some (Raise e)
  | None => None
  end.

Notation "'let+' x ':=' m 'in' k" := (bindM m (fun x => k))
  (at level 10, x name, m at level 100, k at level 200).

(** [for x in l: s = body(s, x)], threading the loop state [s]. *)
Fixpoint for_each {A S : Type} (l : list A) (s : S) (body : S -> A -> M S)
    : M S :=
  match l with
  | [] => ret s
  | x :: l' => let+ s' := body s x in for_each l' s' body
  end.

(** [x or []] *)
Definition or_empty {A : Type} (x : option (list A)) : list A :=
  match x with
  | Some l => l
  | None => []
  end.

(** [l if l else None] followed by the cut [l[:k]] on the non-empty side *)
Definition cut_or_none {A : Type} (k : Z) (l : list A) : option (list A) :=
  match l with
  | [] => None
  | _ :: _ => Some (slice_to k l)
  end.

Module Fwd.

Inductive entry : Type := Entry {
  layer : Z;
  neuron : Z;
  read_weight : Q;
  via_channel : Z;
  write_weight : Q;
  children : option (list entry);
}.

Definition score (x : entry) : Q :=
  (Qabs (write_weight x) * Qabs (read_weight x))%Q.

Section Tracer.
Variable layers : layers_t.
Variable top_k : Z.

Let num_layers : Z := len layers.

(** The three nested loops that fill [result], with [self] standing for
    the recursive calls. *)
Definition candidates (self : Z -> Z -> Z -> M (option (list entry)))
    (layer neuron remaining_depth : Z) : M (list entry) :=
  let+ connections :=
    lift (neuron_get_connected_reschannels layers layer neuron) in
  let out_channels :=
    slice_to top_k (sort_desc abs_channel_weight (conn_out connections)) in
  for_each out_channels [] (fun result ch =>
    let channel_id := channel_id ch in
    let write_weight := channel_weight ch in
    for_each (range (layer + 1) num_layers) result (fun result next_layer =>
      let+ readers :=
        lift (find_neurons_reading_channel layers next_layer channel_id top_k) in
      for_each readers result (fun result reader =>
        let+ sub :=
          self next_layer (neuron_id reader) (remaining_depth - 1) in
        ret (result ++ [ {| layer := next_layer;
                            neuron := neuron_id reader;
                            read_weight := neuron_weight reader;
                            via_channel := channel_id;
                            write_weight := write_weight;
                            children := sub |} ])))).

Fixpoint trace_from_neuron (fuel : nat) (layer neuron remaining_depth : Z)
    : M (option (list entry)) :=
  if (remaining_depth =? 0) || (layer >=? num_layers - 1) then ret None
  else
    match fuel with
    | O => None
    | S fuel' =>
        let+ result :=
          candidates (trace_from_neuron fuel') layer neuron remaining_depth in
        let result := sort_desc score result in
        ret (cut_or_none (top_k * 2) result)
    end.

(** Recursion budget: the number of layers after [layer]. *)
Definition budget (layer : Z) : nat := Z.to_nat (num_layers - 1 - layer).
End Tracer.

Definition trace_circuit_forward (layers : layers_t)
    (start_layer start_neuron depth top_k : Z) : M (list entry) :=
  let+ r := trace_from_neuron layers top_k (budget layers start_layer)
              start_layer start_neuron depth in
  ret (or_empty r).

End Fwd.

Module Bwd.

Inductive entry : Type := Entry {
  layer : Z;
  neuron : Z;
  write_weight : Q;
  via_channel : Z;
  read_weight : Q;
  parents : option (list entry);
}.

Definition score (x : entry) : Q :=
  (Qabs (write_weight x) * Qabs (read_weight x))%Q.

Section Tracer.
Variable layers : layers_t.
Variable top_k : Z.

Definition candidates (self : Z -> Z -> Z -> M (option (list entry)))
    (layer neuron remaining_depth : Z) : M (list entry) :=
  let+ connections :=
    lift (neuron_get_connected_reschannels layers layer neuron) in
  let in_channels :=
    slice_to top_k (sort_desc abs_channel_weight (conn_in connections)) in
  for_each in_channels [] (fun result ch =>
    let channel_id := channel_id ch in
    let read_weight := channel_weight ch in
    for_each (range_down (layer - 1)) result (fun result prev_layer =>
      let+ writers :=
        lift (find_neurons_writing_channel layers prev_layer channel_id top_k) in
      for_each writers result (fun result writer =>
        let+ sub :=
          self prev_layer (neuron_id writer) (remaining_depth - 1) in
        ret (result ++ [ {| layer := prev_layer;
                            neuron := neuron_id writer;
                            write_weight := neuron_weight writer;
                            via_channel := channel_id;
                            read_weight := read_weight;
                            parents := sub |} ])))).

Fixpoint trace_from_neuron (fuel : nat) (layer neuron remaining_depth : Z)
    : M (option (list entry)) :=
  if (remaining_depth =? 0) || (layer <=? 0) then ret None
  else
    match fuel with
    | O => None
    | S fuel' =>
        let+ result :=
          candidates (trace_from_neuron fuel') layer neuron remaining_depth in
        let result := sort_desc score result in
        ret (cut_or_none (top_k * 2) result)
    end.

(** Recursion budget: the number of layers before [layer]. *)
Definition budget (layer : Z) : nat := Z.to_nat layer.
End Tracer.

Definition trace_circuit_backward (layers : layers_t)
    (start_layer start_neuron depth top_k : Z) : M (list entry) :=
  let+ r := trace_from_neuron layers top_k (budget start_layer)
              start_layer start_neuron depth in
  ret (or_empty r).

End Bwd.

(** ** Query service *)

(** [for x in l: s = body(s, x)] for bodies that need no recursion budget. *)
Fixpoint for_each_r {A S : Type} (l : list A) (s : S)
    (body : S -> A -> result S) : result S :=
  match l with
  | [] => Ok s
  | x :: l' => let* s' := body s x in for_each_r l' s' body
  end.

(** [{"layer", "neuron", "trace_forward", "trace_backward"}] *)
Record neuron_response : Type := {
  resp_layer : Z;
  resp_neuron : Z;
  trace_forward : list Fwd.entry;
  trace_backward : list Bwd.entry;
}.

(** [{"channel_id", "readers_by_layer", "writers_by_layer"}] *)
Record channel_response : Type := {
  resp_channel_id : Z;
  readers_by_layer : gmap Z (list neuron_conn);
  writers_by_layer : gmap Z (list neuron_conn);
}.

Definition layer_range_detail (num_layers : Z) : string :=
  "Layer must be between 0 and " +:+ pretty (num_layers - 1).
Definition neuron_range_detail (mlp_size : Z) : string :=
  "Neuron index must be between 0 and " +:+ pretty (mlp_size - 1).
Definition channel_range_detail (d_model : Z) : string :=
  "Channel must be between 0 and " +:+ pretty (d_model - 1).

(** The route handler, with the two tracers it calls as parameters. *)
Definition neuron_handler
    (forward : layers_t -> Z -> Z -> Z -> Z -> M (list Fwd.entry))
    (backward : layers_t -> Z -> Z -> Z -> Z -> M (list Bwd.entry))
    (layers : layers_t) (layer neuron trace_depth trace_k : Z)
    : M neuron_response :=
  let num_layers := len layers in
  if (layer <? 0) || (layer >=? num_layers) then
    lift (Raise (HTTPException 400 (layer_range_detail num_layers)))
  else
    let+ l := lift (getitem layers layer) in
    let mlp_size := Z.of_nat (nrows (weight (c_fc (mlp l)))) in
    if (neuron <? 0) || (neuron >=? mlp_size) then
      lift (Raise (HTTPException 400 (neuron_range_detail mlp_size)))
    else
      let+ fwd := forward layers layer neuron trace_depth trace_k in
      let+ bwd := backward layers layer neuron trace_depth trace_k in
      ret {| resp_layer := layer;
             resp_neuron := neuron;
             trace_forward := fwd;
             trace_backward := bwd |}.

Definition get_neuron_connections : layers_t -> Z -> Z -> Z -> Z -> M neuron_response :=
  neuron_handler Fwd.trace_circuit_forward Bwd.trace_circuit_backward.

Definition get_channel_connections
    (layers : layers_t) (channel_id top_k : Z) : result channel_response :=
  let num_layers := len layers in
  let* l0 := getitem layers 0 in
  let d_model := Z.of_nat (nrows (weight (c_proj (mlp l0)))) in
  if (channel_id <? 0) || (channel_id >=? d_model) then
    Raise (HTTPException 400 (channel_range_detail d_model))
  else
    let* by_layer :=
      for_each_r (range 0 num_layers) (∅, ∅) (fun st layer_idx =>
        let* readers :=
          find_neurons_reading_channel layers layer_idx channel_id top_k in
        let* writers :=
          find_neurons_writing_channel layers layer_idx channel_id top_k in
        let readers_by_layer :=
          match readers with
          | [] => fst st
          | _ :: _ => <[layer_idx := readers]> (fst st)
          end in
        let writers_by_layer :=
          match writers with
          | [] => snd st
          | _ :: _ => <[layer_idx := writers]> (snd st)
          end in
        Ok (readers_by_layer, writers_by_layer)) in
    Ok {| resp_channel_id := channel_id;
          readers_by_layer := fst by_layer;
          writers_by_layer := snd by_layer |}.

(** ** Statements about the connection extractor *)

Definition in_range (n : nat) (i : Z) : Prop := 0 <= i < Z.of_nat n.

(** A ranked, cut list of readers or writers: non-increasing absolute weight,
    at most [top_k] entries, no zero weight, and equal absolute weights in
    increasing index order. *)
Definition ranked_neurons (top_k : Z) (rs : list neuron_conn) : Prop :=
  StronglySorted
    (fun x y => (Qabs (neuron_weight y) <= Qabs (neuron_weight x))%Q) rs /\
  len rs <= top_k /\
  Forall (fun x => ~ (neuron_weight x == 0)%Q) rs /\
  StronglySorted
    (fun x y => (Qabs (neuron_weight x) == Qabs (neuron_weight y))%Q ->
                neuron_id x < neuron_id y) rs.

(** The layer a Python index addresses, if any. *)
Definition addressed_layer (layers : layers_t) (layer : Z) : option block :=
  if (- len layers <=? layer) && (layer <? len layers)
  then layers !! position (length layers) layer
  else None.

(** The exception of a tensor index that addresses nothing, and of an
    extractor whose arguments address nothing: the layer is looked up first,
    with the module list's [IndexError]. *)
Definition tensor_failure (i : Z) : exn :=
  if fits_int64 i then IndexError else ValueError.

Definition extractor_failure (layers : layers_t) (layer idx : Z) : exn :=
  match addressed_layer layers layer with
  | Some _ => tensor_failure idx
  | None => IndexError
  end.

(** Arguments for which the indexing of each extractor is defined. *)
Definition neuron_addressable (layers : layers_t) (layer neuron : Z) : Prop :=
  exists b, addressed_layer layers layer = Some b /\
    in_dim (nrows (weight (c_fc (mlp b)))) neuron /\
    in_dim (ncols (weight (c_proj (mlp b)))) neuron.

Definition reader_addressable (layers : layers_t) (layer channel : Z) : Prop :=
  exists b, addressed_layer layers layer = Some b /\
    in_dim (ncols (weight (c_fc (mlp b)))) channel.

Definition writer_addressable (layers : layers_t) (layer channel : Z) : Prop :=
  exists b, addressed_layer layers layer = Some b /\
    in_dim (nrows (weight (c_proj (mlp b)))) channel.

(** [l] without its last [n] elements. *)
Definition drop_last {A : Type} (n : nat) (l : list A) : list A :=
  take (length l - n) l.

(** ** Statements about the tracer *)

(** [[f(x) for x in l]] and [[y for x in l for y in f(x)]], left to right. *)
Fixpoint mapM {A B : Type} (f : A -> M B) (l : list A) : M (list B) :=
  match l with
  | [] => ret []
  | x :: l' => let+ y := f x in let+ ys := mapM f l' in ret (y :: ys)
  end.

Definition flat_mapM {A B : Type} (f : A -> M (list B)) (l : list A)
    : M (list B) :=
  let+ yss := mapM f l in ret (concat yss).

(** The candidate list of a forward expansion as the specification words
    it: for each of the top [top_k] out-connections by absolute weight, for
    each later layer in increasing order, one entry per reader of the
    channel, whose children come from the recursive call with [depth - 1]. *)
Definition fwd_candidates_spec (layers : layers_t) (top_k : Z)
    (self : Z -> Z -> Z -> M (option (list Fwd.entry)))
    (layer neuron depth : Z) : M (list Fwd.entry) :=
  let+ connections :=
    lift (neuron_get_connected_reschannels layers layer neuron) in
  flat_mapM (fun ch =>
    flat_mapM (fun next =>
      let+ readers :=
        lift (find_neurons_reading_channel layers next (channel_id ch) top_k) in
      mapM (fun reader =>
        let+ sub := self next (neuron_id reader) (depth - 1) in
        ret (Fwd.Entry next (neuron_id reader) (neuron_weight reader)
               (channel_id ch) (channel_weight ch) sub))
        readers)
      (range (layer + 1) (len layers)))
    (slice_to top_k (sort_desc abs_channel_weight (conn_out connections))).

(** The mirror for a backward expansion: in-connections, earlier layers in
    decreasing order, writers of the channel, field [parents]. *)
Definition bwd_candidates_spec (layers : layers_t) (top_k : Z)
    (self : Z -> Z -> Z -> M (option (list Bwd.entry)))
    (layer neuron depth : Z) : M (list Bwd.entry) :=
  let+ connections :=
    lift (neuron_get_connected_reschannels layers layer neuron) in
  flat_mapM (fun ch =>
    flat_mapM (fun prev =>
      let+ writers :=
        lift (find_neurons_writing_channel layers prev (channel_id ch) top_k) in
      mapM (fun writer =>
        let+ sub := self prev (neuron_id writer) (depth - 1) in
        ret (Bwd.Entry prev (neuron_id writer) (neuron_weight writer)
               (channel_id ch) (channel_weight ch) sub))
        writers)
      (range_down (layer - 1)))
    (slice_to top_k (sort_desc abs_channel_weight (conn_in connections))).

(** The call made for an expansion, with the budget of its layer. *)
Definition fwd_expand (layers : layers_t) (top_k : Z)
    (layer neuron depth : Z) : M (option (list Fwd.entry)) :=
  Fwd.trace_from_neuron layers top_k (Fwd.budget layers layer)
    layer neuron depth.

Definition bwd_expand (layers : layers_t) (top_k : Z)
    (layer neuron depth : Z) : M (option (list Bwd.entry)) :=
  Bwd.trace_from_neuron layers top_k (Bwd.budget layer) layer neuron depth.

(** [P] holds of every list stored below an entry, at any depth. *)
Fixpoint fwd_below (P : list Fwd.entry -> Prop) (e : Fwd.entry) : Prop :=
  match e with
  | Fwd.Entry _ _ _ _ _ None => True
  | Fwd.Entry _ _ _ _ _ (Some l) =>
      P l /\
      (fix all (l : list Fwd.entry) : Prop :=
         match l with
         | [] => True
         | x :: l' => fwd_below P x /\ all l'
         end) l
  end.

Fixpoint bwd_below (P : list Bwd.entry -> Prop) (e : Bwd.entry) : Prop :=
  match e with
  | Bwd.Entry _ _ _ _ _ None => True
  | Bwd.Entry _ _ _ _ _ (Some l) =>
      P l /\
      (fix all (l : list Bwd.entry) : Prop :=
         match l with
         | [] => True
         | x :: l' => bwd_below P x /\ all l'
         end) l
  end.

(** [P] holds of a result list and of every list nested in it. *)
Definition fwd_everywhere (P : list Fwd.entry -> Prop) (l : list Fwd.entry)
    : Prop :=
  P l /\ Forall (fwd_below P) l.

Definition bwd_everywhere (P : list Bwd.entry -> Prop) (l : list Bwd.entry)
    : Prop :=
  P l /\ Forall (bwd_below P) l.

(** A list in ranking order holding at most [2 * top_k] entries. *)
Definition ranked_list {A : Type} (score : A -> Q) (top_k : Z) (l : list A)
    : Prop :=
  StronglySorted (key_ge score) l /\ len l <= 2 * top_k.

(** [res] is the re-ranked cut of [cands]: in ranking order, at most
    [2 * top_k] entries, and every candidate left out scores no higher than
    any entry kept. *)
Definition reranked {A : Type} (score : A -> Q) (top_k : Z)
    (cands res : list A) : Prop :=
  ranked_list score top_k res /\
  exists dropped,
    res ++ dropped ≡ₚ cands /\
    forall x y, x ∈ res -> y ∈ dropped -> (score y <= score x)%Q.

(** ** Statements about the query service *)

(** The shapes the loader provides: in every layer [c_fc] is
    [mlp_size x d_model] and [c_proj] is [d_model x mlp_size], with the same
    [d_model] in all layers. *)
Definition wf_model (layers : layers_t) (d_model : nat) : Prop :=
  Forall (fun b =>
    ncols (weight (c_fc (mlp b))) = d_model /\
    nrows (weight (c_proj (mlp b))) = d_model /\
    nrows (weight (c_fc (mlp b))) = ncols (weight (c_proj (mlp b)))) layers.

(** [layer] is in [0, numLayers) and [neuron] in [0, mlpSize(layer)). *)
Definition valid_neuron (layers : layers_t) (layer neuron : Z) : Prop :=
  exists b, 0 <= layer /\ layers !! Z.to_nat layer = Some b /\
    in_range (nrows (weight (c_fc (mlp b)))) neuron.

(** The computation finished without raising, or has not finished. *)
Definition no_raise {A : Type} (m : M A) : Prop :=
  forall e, m <> Some (Raise e).

(** No layer reads from or writes to [channel]. *)
Definition channel_silent (layers : layers_t) (channel : Z) : Prop :=
  forall b, b ∈ layers ->
    (forall i, (entry (weight (c_fc (mlp b))) i (Z.to_nat channel) == 0)%Q) /\
    (forall j, (entry (weight (c_proj (mlp b))) (Z.to_nat channel) j == 0)%Q).

(** ** Statements about the contents of the extractor results *)

(** [x] is the non-zero entry of the weight list [ws] at its index. *)
Definition neuron_entry_of (ws : list Q) (x : neuron_conn) : Prop :=
  0 <= neuron_id x /\
  ws !! Z.to_nat (neuron_id x) = Some (neuron_weight x) /\
  ~ (neuron_weight x == 0)%Q.

(** Row [i] and column [j] of a tensor, for positions inside its shape. *)
Definition row_at (t : tensor) (i : nat) : list Q :=
  map (fun j => entry t i j) (seq 0 (ncols t)).

Definition column_at (t : tensor) (j : nat) : list Q :=
  map (fun i => entry t i j) (seq 0 (nrows t)).

(** The complete ranking of the non-zero entries of a weight list. *)
Definition ranking (ws : list Q) : list neuron_conn :=
  sort_desc abs_neuron_weight (neuron_conns ws).

(** ** Statements about failures *)

(** The only exception a computation can raise is [IndexError]. *)
Definition raises_only_IndexError {A : Type} (r : result A) : Prop :=
  forall e, r = Raise e -> e = IndexError.

Definition only_IndexError {A : Type} (m : M A) : Prop :=
  forall e, m = Some (Raise e) -> e = IndexError.

(** ** Statements about the entries of a trace *)

(** [e], produced by expanding [(layer, neuron)] forward, is an edge of the
    model: it lies in a later layer, its channel is an out-connection of
    the expanded neuron with weight [write_weight], and its neuron is among
    the readers of that channel in its layer with weight [read_weight]. *)
Definition fwd_edge (layers : layers_t) (top_k layer neuron : Z)
    (e : Fwd.entry) : Prop :=
  layer < Fwd.layer e < len layers /\
  (exists c,
     neuron_get_connected_reschannels layers layer neuron = Ok c /\
     {| channel_id := Fwd.via_channel e;
        channel_weight := Fwd.write_weight e |} ∈ conn_out c) /\
  (exists rs,
     find_neurons_reading_channel layers (Fwd.layer e) (Fwd.via_channel e) top_k
       = Ok rs /\
     {| neuron_id := Fwd.neuron e;
        neuron_weight := Fwd.read_weight e |} ∈ rs).

(** The mirror: [e] lies in an earlier layer, its channel is an
    in-connection of the expanded neuron, and its neuron is among the
    writers of that channel in its layer. *)
Definition bwd_edge (layers : layers_t) (top_k layer neuron : Z)
    (e : Bwd.entry) : Prop :=
  0 <= Bwd.layer e < layer /\
  (exists c,
     neuron_get_connected_reschannels layers layer neuron = Ok c /\
     {| channel_id := Bwd.via_channel e;
        channel_weight := Bwd.read_weight e |} ∈ conn_in c) /\
  (exists ws,
     find_neurons_writing_channel layers (Bwd.layer e) (Bwd.via_channel e) top_k
       = Ok ws /\
     {| neuron_id := Bwd.neuron e;
        neuron_weight := Bwd.write_weight e |} ∈ ws).

(** [e] and everything below it are edges, each from the entry above it. *)
Fixpoint fwd_edges (layers : layers_t) (top_k layer neuron : Z)
    (e : Fwd.entry) : Prop :=
  fwd_edge layers top_k layer neuron e /\
  match e with
  | Fwd.Entry _ _ _ _ _ None => True
  | Fwd.Entry la ne _ _ _ (Some l) =>
      (fix all (l : list Fwd.entry) : Prop :=
         match l with
         | [] => True
         | x :: l' => fwd_edges layers top_k la ne x /\ all l'
         end) l
  end.

Fixpoint bwd_edges (layers : layers_t) (top_k layer neuron : Z)
    (e : Bwd.entry) : Prop :=
  bwd_edge layers top_k layer neuron e /\
  match e with
  | Bwd.Entry _ _ _ _ _ None => True
  | Bwd.Entry la ne _ _ _ (Some l) =>
      (fix all (l : list Bwd.entry) : Prop :=
         match l with
         | [] => True
         | x :: l' => bwd_edges layers top_k la ne x /\ all l'
         end) l
  end.

(** The number of nested levels at and below an entry, and in a list. *)
Fixpoint fwd_height (e : Fwd.entry) : nat :=
  match e with
  | Fwd.Entry _ _ _ _ _ None => 1
  | Fwd.Entry _ _ _ _ _ (Some l) =>
      S ((fix mx (l : list Fwd.entry) : nat :=
            match l with
            | [] => O
            | x :: l' => Nat.max (fwd_height x) (mx l')
            end) l)
  end.

Fixpoint bwd_height (e : Bwd.entry) : nat :=
  match e with
  | Bwd.Entry _ _ _ _ _ None => 1
  | Bwd.Entry _ _ _ _ _ (Some l) =>
      S ((fix mx (l : list Bwd.entry) : nat :=
            match l with
            | [] => O
            | x :: l' => Nat.max (bwd_height x) (mx l')
            end) l)
  end.

Definition fwd_levels (l : list Fwd.entry) : nat :=
  max_list_with fwd_height l.

Definition bwd_levels (l : list Bwd.entry) : nat :=
  max_list_with bwd_height l.

(** ** The remaining routes *)

(** [verify_secret], with the configured [SECRET] as a parameter. *)
Definition verify_secret (SECRET x_secret_key : option string) : result unit :=
  match SECRET with
  | Some secret =>
      match x_secret_key with
      | None => Raise (HTTPException 401 "X-SECRET-KEY header required")
      | Some key =>
          if negb (String.eqb key secret)
          then Raise (HTTPException 403 "Invalid secret key")
          else Ok tt
      end
  | None => Ok tt
  end.

Definition MODEL_HF_ID : string := "openai/circuit-sparsity".

(** [{"status", "model", "num_layers", "mlp_size", "d_model"}] *)
Record root_response : Type := {
  status : string;
  model : string;
  num_layers : Z;
  mlp_size : Z;
  d_model : Z;
}.

Definition root (layers : layers_t) : result root_response :=
  let* l0 := getitem layers 0 in
  let* l0' := getitem layers 0 in
  Ok {| status := "ok";
        model := MODEL_HF_ID;
        num_layers := len layers;
        mlp_size := Z.of_nat (nrows (weight (c_fc (mlp l0))));
        d_model := Z.of_nat (nrows (weight (c_proj (mlp l0')))) |}.

(** Both weights of an entry are non-zero, so its score is positive. *)
Definition fwd_live (e : Fwd.entry) : Prop :=
  ~ (Fwd.write_weight e == 0)%Q /\ ~ (Fwd.read_weight e == 0)%Q /\
  (0 < Fwd.score e)%Q.

Definition bwd_live (e : Bwd.entry) : Prop :=
  ~ (Bwd.write_weight e == 0)%Q /\ ~ (Bwd.read_weight e == 0)%Q /\
  (0 < Bwd.score e)%Q.

(** An entry that can be queried again: its layer and neuron are in range
    and its channel is a channel of the model. *)
Definition fwd_closed (layers : layers_t) (d_model : nat) (e : Fwd.entry)
    : Prop :=
  valid_neuron layers (Fwd.layer e) (Fwd.neuron e) /\
  in_range d_model (Fwd.via_channel e).

Definition bwd_closed (layers : layers_t) (d_model : nat) (e : Bwd.entry)
    : Prop :=
  valid_neuron layers (Bwd.layer e) (Bwd.neuron e) /\
  in_range d_model (Bwd.via_channel e).

(** ** Example models *)

(** The tensor of shape [r x c] with the given rows (the empty tensor when
    the shape does not fit). *)
Definition tensor_of (r c : nat) (rows : list (list Q)) : tensor :=
  match fits_shape r c as f return fits_shape r c = f -> tensor with
  | true => fun H =>
      {| nrows := r; ncols := c;
         entry := fun i j => nth j (nth i rows []) 0%Q;
         shape_fits := H |}
  | false => fun _ =>
      {| nrows := 0; ncols := 0;
         entry := fun _ _ => 0%Q;
         shape_fits := eq_refl |}
  end eq_refl.

Definition mk_block (mlp_size d_model : nat) (fc proj : list (list Q)) : block :=
  {| mlp := {| c_fc := {| weight := tensor_of mlp_size d_model fc |};
               c_proj := {| weight := tensor_of d_model mlp_size proj |} |} |}.

Definition dense2 : block :=
  mk_block 2 2 [[1; 2]; [3; -4]]%Q [[1; 2]; [3; -4]]%Q.

Definition model3 : layers_t := [dense2; dense2; dense2].

Definition ones2 : block :=
  mk_block 2 2 [[1; 1]; [1; 1]]%Q [[1; 1]; [1; 1]]%Q.

Definition model4 : layers_t := [ones2; ones2; ones2; ones2].

(** Four layers whose weights differ from layer to layer.  From neuron 0 of
    layer 0 the strongest out-channel is channel 0 (weight 2), read with
    weights 2, -3 and 1 in layers 1, 2 and 3; into neuron 0 of layer 3 the
    only in-channel is channel 0 (weight 1), written with weights 1, -3
    and 2 in layers 2, 1 and 0.  Neuron 0 of layer 1 writes to no channel,
    neuron 1 of layer 2 writes to channel 1, and neuron 1 of layer 1 reads
    channel 1. *)
Definition graded4 : layers_t :=
  [ mk_block 2 2 [[1; 1]; [1; 1]]%Q [[2; 0]; [1; 0]]%Q;
    mk_block 2 2 [[2; 0]; [0; 7]]%Q [[0; -3]; [0; 0]]%Q;
    mk_block 2 2 [[1; 0]; [-3; 0]]%Q [[1; 0]; [0; 5]]%Q;
    mk_block 2 2 [[1; 0]; [0; 1]]%Q [[1; 1]; [1; 1]]%Q ].

(** The two-layer scenario of the specification: [mlp_size = 4],
    [d_model = 4]; in layer 0 the only non-zero entries are
    [c_fc[2, 1] = 0.5] and [c_proj[3, 2] = 0.8]; layer 1 is all zero. *)
Definition scenario : layers_t :=
  [ mk_block 4 4
      [[0; 0; 0; 0]; [0; 0; 0; 0]; [0; 1 # 2; 0; 0]; [0; 0; 0; 0]]%Q
      [[0; 0; 0; 0]; [0; 0; 0; 0]; [0; 0; 0; 0]; [0; 0; 4 # 5; 0]]%Q;
    mk_block 4 4 [] [] ].

(** * Properties *)

(** ** Exceptions and indexing *)

Lemma normalize_ok n i : in_dim n i -> normalize n i = Ok (position n i).
Proof.
  intros [H1 H2]. unfold normalize, position.
  destruct (Z.leb_spec (- Z.of_nat n) i); [|lia].
  destruct (Z.ltb_spec i (Z.of_nat n)); [|lia]. reflexivity.
Qed.

Lemma normalize_raise n i : ~ in_dim n i -> normalize n i = Raise IndexError.
Proof.
  intros H. unfold normalize, in_dim in *.
  destruct (Z.leb_spec (- Z.of_nat n) i); [|reflexivity].
  destruct (Z.ltb_spec i (Z.of_nat n)); [lia|reflexivity].
Qed.

Lemma in_dim_dec n i : {in_dim n i} + {~ in_dim n i}.
Proof.
  unfold in_dim.
  destruct (Z_le_dec (- Z.of_nat n) i); [|right; lia].
  destruct (Z_lt_dec i (Z.of_nat n)); [left; lia|right; lia].
Qed.

Lemma position_lt n i : in_dim n i -> (position n i < n)%nat.
Proof.
  intros [H1 H2]. unfold position. destruct (Z.ltb_spec i 0); lia.
Qed.

Lemma position_nonneg n i : 0 <= i -> position n i = Z.to_nat i.
Proof. intros H. unfold position. destruct (Z.ltb_spec i 0); [lia|done]. Qed.

Lemma getitem_ok {A} (l : list A) i :
  in_dim (length l) i ->
  exists a, l !! position (length l) i = Some a /\ getitem l i = Ok a.
Proof.
  intros H. unfold getitem. rewrite (normalize_ok _ _ H). simpl.
  destruct (lookup_lt_is_Some_2 l (position (length l) i)) as [a Ha].
  { by apply position_lt. }
  exists a. by rewrite Ha.
Qed.

Lemma getitem_raise {A} (l : list A) i :
  ~ in_dim (length l) i -> getitem l i = Raise IndexError.
Proof. intros H. unfold getitem. by rewrite (normalize_raise _ _ H). Qed.

Lemma getitem_nonneg {A} (l : list A) i a :
  0 <= i -> l !! Z.to_nat i = Some a -> getitem l i = Ok a.
Proof.
  intros Hi Hl. assert (Hd : in_dim (length l) i).
  { apply lookup_lt_Some in Hl. unfold in_dim. lia. }
  destruct (getitem_ok l i Hd) as (a' & Ha' & Hg).
  rewrite position_nonneg in Ha' by done. congruence.
Qed.

Lemma fits_int64_spec i :
  fits_int64 i = true <-> - int64_bound <= i < int64_bound.
Proof. unfold fits_int64. rewrite andb_true_iff. lia. Qed.

Lemma shape_fits_spec t :
  Z.of_nat (nrows t) < int64_bound /\ Z.of_nat (ncols t) < int64_bound.
Proof.
  pose proof (shape_fits t) as H. unfold fits_shape in H.
  apply andb_true_iff in H. lia.
Qed.

Lemma in_dim_rows_fits t i : in_dim (nrows t) i -> fits_int64 i = true.
Proof.
  intros [H1 H2]. apply fits_int64_spec.
  pose proof (shape_fits_spec t). lia.
Qed.

Lemma in_dim_cols_fits t j : in_dim (ncols t) j -> fits_int64 j = true.
Proof.
  intros [H1 H2]. apply fits_int64_spec.
  pose proof (shape_fits_spec t). lia.
Qed.

Lemma row_ok t i :
  in_dim (nrows t) i ->
  row t i = Ok (map (fun j => entry t (position (nrows t) i) j) (seq 0 (ncols t))).
Proof.
  intros H. unfold row, tensor_index.
  by rewrite (in_dim_rows_fits _ _ H), (normalize_ok _ _ H).
Qed.

Lemma row_raise t i :
  ~ in_dim (nrows t) i -> row t i = Raise (tensor_failure i).
Proof.
  intros H. unfold row, tensor_index, tensor_failure.
  destruct (fits_int64 i); [|done]. by rewrite (normalize_raise _ _ H).
Qed.

Lemma column_ok t j :
  in_dim (ncols t) j ->
  column t j = Ok (map (fun i => entry t i (position (ncols t) j)) (seq 0 (nrows t))).
Proof.
  intros H. unfold column, tensor_index.
  by rewrite (in_dim_cols_fits _ _ H), (normalize_ok _ _ H).
Qed.

Lemma column_raise t j :
  ~ in_dim (ncols t) j -> column t j = Raise (tensor_failure j).
Proof.
  intros H. unfold column, tensor_index, tensor_failure.
  destruct (fits_int64 j); [|done]. by rewrite (normalize_raise _ _ H).
Qed.

(** ** Slices *)

Lemma slice_to_prefix {A} k (l : list A) : exists rest, l = slice_to k l ++ rest.
Proof.
  unfold slice_to. destruct (0 <=? k); eexists; symmetry; apply take_drop.
Qed.

Lemma slice_to_length {A} k (l : list A) :
  0 <= k -> Z.of_nat (length (slice_to k l)) <= k.
Proof.
  intros Hk. unfold slice_to. destruct (Z.leb_spec 0 k); [|lia].
  rewrite length_take. lia.
Qed.

Lemma slice_to_0 {A} (l : list A) : slice_to 0 l = [].
Proof. reflexivity. Qed.

Lemma slice_to_neg {A} k (l : list A) :
  k < 0 -> slice_to k l = take (length l - Z.to_nat (- k)) l.
Proof. intros Hk. unfold slice_to. destruct (Z.leb_spec 0 k); [lia|done]. Qed.

Lemma slice_to_pos_nonempty {A} k (l : list A) :
  0 < k -> l <> [] -> slice_to k l <> [].
Proof.
  intros Hk Hl. unfold slice_to. destruct (Z.leb_spec 0 k); [|lia].
  destruct l as [|a l]; [done|]. destruct (Z.to_nat k) eqn:E; [lia|done].
Qed.

Lemma elem_of_slice_to {A} k (l : list A) x : x ∈ slice_to k l -> x ∈ l.
Proof.
  destruct (slice_to_prefix k l) as [rest H]. intros Hx.
  rewrite H. apply elem_of_app. by left.
Qed.

Lemma StronglySorted_slice_to {A} (R : A -> A -> Prop) k (l : list A) :
  StronglySorted R l -> StronglySorted R (slice_to k l).
Proof.
  destruct (slice_to_prefix k l) as [rest H]. intros Hs.
  rewrite H in Hs. by apply StronglySorted_app_1_l in Hs.
Qed.

Lemma StronglySorted_weaken {A} (R R' : A -> A -> Prop) (l : list A) :
  (forall x y, R x y -> R' x y) -> StronglySorted R l -> StronglySorted R' l.
Proof.
  intros HR. induction 1 as [|a l Hs IH Hf]; constructor; [done|].
  eapply Forall_impl; [exact Hf|]. intros; by apply HR.
Qed.

(** ** The stable descending sort *)

Section SortingFacts.
Context {A : Type} (key : A -> Q).

Lemma insert_desc_perm x l : insert_desc key x l ≡ₚ x :: l.
Proof.
  induction l as [|y l IH]; simpl; [done|].
  destruct (Qle_bool (key y) (key x)); [done|].
  rewrite IH. apply Permutation_swap.
Qed.

Lemma sort_desc_perm l : sort_desc key l ≡ₚ l.
Proof.
  induction l as [|x l IH]; simpl; [done|].
  rewrite insert_desc_perm. by constructor.
Qed.

Lemma elem_of_sort_desc l x : x ∈ sort_desc key l <-> x ∈ l.
Proof. by rewrite sort_desc_perm. Qed.

Lemma sort_desc_length l : length (sort_desc key l) = length l.
Proof. by rewrite sort_desc_perm. Qed.

Lemma sort_desc_nil_inv l : sort_desc key l = [] -> l = [].
Proof.
  intros H. apply length_zero_iff_nil.
  rewrite <- sort_desc_length, H. reflexivity.
Qed.

Section Stable.
Variable T : A -> A -> Prop.

Lemma ranks_before_key_ge x y : ranks_before key T x y -> key_ge key x y.
Proof.
  unfold key_ge. intros [H|[H _]]; [by apply Qlt_le_weak|].
  rewrite H. apply Qle_refl.
Qed.

Lemma insert_desc_stable x l :
  Forall (T x) l ->
  StronglySorted (ranks_before key T) l ->
  StronglySorted (ranks_before key T) (insert_desc key x l).
Proof.
  induction l as [|y l IH]; simpl; intros HT Hs.
  - repeat constructor.
  - inversion Hs as [|? ? Hs' Hf]; subst.
    destruct (Qle_bool (key y) (key x)) eqn:E.
    + apply Qle_bool_iff in E. constructor; [done|].
      rewrite Forall_forall in HT |- *. intros z Hz.
      assert (Hzy : (key z <= key y)%Q).
      { apply elem_of_cons in Hz as [->|Hz]; [apply Qle_refl|].
        rewrite Forall_forall in Hf. by apply ranks_before_key_ge, Hf. }
      assert (Hzx : (key z <= key x)%Q) by (eapply Qle_trans; eauto).
      apply Qle_lt_or_eq in Hzx as [Hlt|Heq]; [by left|].
      right. split; [done|]. by apply HT.
    + assert (Hxy : (key x < key y)%Q).
      { apply Qnot_le_lt. intros Hle. apply Qle_bool_iff in Hle. congruence. }
      constructor.
      * apply IH; [|done]. by inversion HT.
      * rewrite Forall_forall. intros z Hz.
        rewrite insert_desc_perm in Hz.
        apply elem_of_cons in Hz as [->|Hz]; [by left|].
        rewrite Forall_forall in Hf. by apply Hf.
Qed.

Lemma sort_desc_stable l :
  StronglySorted T l -> StronglySorted (ranks_before key T) (sort_desc key l).
Proof.
  induction 1 as [|x l Hs IH Hf]; simpl; [constructor|].
  apply insert_desc_stable; [|done].
  rewrite Forall_forall in Hf |- *. intros z Hz.
  apply Hf. by apply elem_of_sort_desc.
Qed.
End Stable.

Lemma sort_desc_sorted l : StronglySorted (key_ge key) (sort_desc key l).
Proof.
  assert (H : StronglySorted (fun _ _ => True) l).
  { induction l; constructor; [done|]. by apply Forall_forall. }
  apply (sort_desc_stable _ l) in H.
  eapply StronglySorted_weaken; [|exact H].
  apply ranks_before_key_ge.
Qed.
End SortingFacts.

(** ** Connection extractor *)

Lemma elem_of_enumerate_from {A} start (l : list A) i a :
  (i, a) ∈ enumerate_from start l <->
  start <= i /\ l !! Z.to_nat (i - start) = Some a.
Proof.
  revert start. induction l as [|x l IH]; intros start; simpl.
  - rewrite elem_of_nil. split; [done|]. by intros [_ ?].
  - rewrite elem_of_cons, IH. split.
    + intros [[= -> ->]|[Hle Hl]].
      * split; [lia|]. by replace (start - start) with 0 by lia.
      * split; [lia|].
        replace (Z.to_nat (i - start)) with (S (Z.to_nat (i - (start + 1)))) by lia.
        done.
    + intros [Hle Hl]. destruct (Z.to_nat (i - start)) as [|n] eqn:E.
      * left. simpl in Hl. f_equal; [lia|congruence].
      * right. split; [lia|].
        replace (Z.to_nat (i - (start + 1))) with n by lia. done.
Qed.

Lemma enumerate_from_sorted {A} start (l : list A) :
  StronglySorted (fun x y => fst x < fst y) (enumerate_from start l).
Proof.
  revert start. induction l as [|x l IH]; intros start; simpl; constructor.
  - apply IH.
  - rewrite Forall_forall. intros [i a] Hi.
    apply elem_of_enumerate_from in Hi. simpl. lia.
Qed.

Lemma StronglySorted_filter {A} (R : A -> A -> Prop) (f : A -> bool) l :
  StronglySorted R l -> StronglySorted R (List.filter f l).
Proof.
  induction 1 as [|x l Hs IH Hf]; simpl; [constructor|].
  destruct (f x); [|done]. constructor; [done|].
  rewrite Forall_forall in Hf |- *. intros y Hy.
  apply Hf. apply list_elem_of_In in Hy. apply filter_In in Hy as [Hy _].
  by apply list_elem_of_In.
Qed.

Lemma StronglySorted_map {A B} (R : B -> B -> Prop) (f : A -> B) l :
  StronglySorted (fun x y => R (f x) (f y)) l -> StronglySorted R (map f l).
Proof.
  induction 1 as [|x l Hs IH Hf]; simpl; constructor; [done|].
  apply Forall_fmap. eapply Forall_impl; [exact Hf|]. by intros y Hy.
Qed.

Lemma nonzero_true w : nonzero w = true <-> ~ (w == 0)%Q.
Proof.
  unfold nonzero. rewrite negb_true_iff. split.
  - intros H Heq. apply Qeq_bool_iff in Heq. congruence.
  - intros H. destruct (Qeq_bool w 0) eqn:E; [|done].
    apply Qeq_bool_iff in E. contradiction.
Qed.

Lemma elem_of_nonzero_entries ws i w :
  (i, w) ∈ nonzero_entries ws <->
  0 <= i /\ ws !! Z.to_nat i = Some w /\ ~ (w == 0)%Q.
Proof.
  unfold nonzero_entries, enumerate.
  rewrite list_elem_of_In, filter_In, <- list_elem_of_In, elem_of_enumerate_from.
  simpl. rewrite nonzero_true. replace (i - 0) with i by lia. tauto.
Qed.

Lemma nonzero_entries_sorted ws :
  StronglySorted (fun x y => fst x < fst y) (nonzero_entries ws).
Proof. apply StronglySorted_filter, enumerate_from_sorted. Qed.

Lemma elem_of_neuron_conns ws x :
  x ∈ neuron_conns ws <->
  0 <= neuron_id x /\ ws !! Z.to_nat (neuron_id x) = Some (neuron_weight x)
  /\ ~ (neuron_weight x == 0)%Q.
Proof.
  unfold neuron_conns. rewrite list_elem_of_fmap. split.
  - intros ([i w] & -> & H). by apply elem_of_nonzero_entries in H.
  - intros H. exists (neuron_id x, neuron_weight x). split; [by destruct x|].
    by apply elem_of_nonzero_entries.
Qed.

Lemma elem_of_channel_conns ws x :
  x ∈ channel_conns ws <->
  0 <= channel_id x /\ ws !! Z.to_nat (channel_id x) = Some (channel_weight x)
  /\ ~ (channel_weight x == 0)%Q.
Proof.
  unfold channel_conns. rewrite list_elem_of_fmap. split.
  - intros ([i w] & -> & H). by apply elem_of_nonzero_entries in H.
  - intros H. exists (channel_id x, channel_weight x). split; [by destruct x|].
    by apply elem_of_nonzero_entries.
Qed.

Lemma neuron_conns_sorted ws :
  StronglySorted (fun x y => neuron_id x < neuron_id y) (neuron_conns ws).
Proof. apply StronglySorted_map. simpl. apply nonzero_entries_sorted. Qed.

(** The ranking computed by both channel searches, before the cut. *)
Lemma ranking_sorted ws :
  StronglySorted
    (ranks_before abs_neuron_weight (fun x y => neuron_id x < neuron_id y))
    (sort_desc abs_neuron_weight (neuron_conns ws)).
Proof. apply sort_desc_stable, neuron_conns_sorted. Qed.

Lemma find_neurons_reading_channel_eq layers layer_idx ch top_k b :
  getitem layers layer_idx = Ok b ->
  in_dim (ncols (weight (c_fc (mlp b)))) ch ->
  exists ws,
    column (weight (c_fc (mlp b))) ch = Ok ws /\
    length ws = nrows (weight (c_fc (mlp b))) /\
    find_neurons_reading_channel layers layer_idx ch top_k =
      Ok (slice_to top_k (sort_desc abs_neuron_weight (neuron_conns ws))).
Proof.
  intros Hb Hc. unfold find_neurons_reading_channel. rewrite Hb. simpl.
  rewrite (column_ok _ _ Hc). simpl. eexists. split; [done|].
  split; [|done]. by rewrite length_map, length_seq.
Qed.

Lemma find_neurons_writing_channel_eq layers layer_idx ch top_k b :
  getitem layers layer_idx = Ok b ->
  in_dim (nrows (weight (c_proj (mlp b)))) ch ->
  exists ws,
    row (weight (c_proj (mlp b))) ch = Ok ws /\
    length ws = ncols (weight (c_proj (mlp b))) /\
    find_neurons_writing_channel layers layer_idx ch top_k =
      Ok (slice_to top_k (sort_desc abs_neuron_weight (neuron_conns ws))).
Proof.
  intros Hb Hc. unfold find_neurons_writing_channel. rewrite Hb. simpl.
  rewrite (row_ok _ _ Hc). simpl. eexists. split; [done|].
  split; [|done]. by rewrite length_map, length_seq.
Qed.

Lemma addressed_layer_getitem layers layer b :
  addressed_layer layers layer = Some b <-> getitem layers layer = Ok b.
Proof.
  unfold addressed_layer, len.
  destruct (in_dim_dec (length layers) layer) as [Hd|Hd].
  - destruct (getitem_ok layers layer Hd) as (a & Ha & Hg).
    destruct Hd as [H1 H2].
    destruct (Z.leb_spec (- Z.of_nat (length layers)) layer); [|lia].
    destruct (Z.ltb_spec layer (Z.of_nat (length layers))); [|lia].
    cbn [andb]. rewrite Ha, Hg. split; congruence.
  - rewrite (getitem_raise _ _ Hd). unfold in_dim in Hd.
    destruct (Z.leb_spec (- Z.of_nat (length layers)) layer); cbn [andb];
      [destruct (Z.ltb_spec layer (Z.of_nat (length layers))); [lia|]|];
      split; discriminate.
Qed.

Lemma addressed_layer_in_range layers layer b :
  0 <= layer -> layers !! Z.to_nat layer = Some b ->
  addressed_layer layers layer = Some b.
Proof. intros. by apply addressed_layer_getitem, getitem_nonneg. Qed.

Lemma in_range_in_dim n i : in_range n i -> in_dim n i.
Proof. unfold in_range, in_dim. lia. Qed.

Lemma getitem_cases {A} (l : list A) i :
  (exists a, getitem l i = Ok a) \/ getitem l i = Raise IndexError.
Proof.
  destruct (in_dim_dec (length l) i) as [Hd|Hd].
  - left. destruct (getitem_ok l i Hd) as (a & _ & Hg). eauto.
  - right. by apply getitem_raise.
Qed.

Lemma extractor_failure_addressed layers layer idx b :
  getitem layers layer = Ok b ->
  extractor_failure layers layer idx = tensor_failure idx.
Proof.
  intros H. apply addressed_layer_getitem in H.
  unfold extractor_failure. by rewrite H.
Qed.

Lemma extractor_failure_unaddressed layers layer idx e :
  getitem layers layer = Raise e ->
  extractor_failure layers layer idx = IndexError.
Proof.
  intros H. unfold extractor_failure.
  destruct (addressed_layer layers layer) as [b|] eqn:E; [|done].
  apply addressed_layer_getitem in E. congruence.
Qed.

Lemma neuron_get_connected_reschannels_cases layers layer neuron :
  (neuron_addressable layers layer neuron /\
     exists c, neuron_get_connected_reschannels layers layer neuron = Ok c) \/
  (~ neuron_addressable layers layer neuron /\
     neuron_get_connected_reschannels layers layer neuron =
       Raise (extractor_failure layers layer neuron)).
Proof.
  unfold neuron_get_connected_reschannels, neuron_addressable.
  destruct (getitem_cases layers layer) as [[b Hb]|Hb].
  - rewrite (extractor_failure_addressed _ _ _ _ Hb), Hb. simpl.
    destruct (in_dim_dec (nrows (weight (c_fc (mlp b)))) neuron) as [H1|H1].
    + rewrite (row_ok _ _ H1). simpl.
      destruct (in_dim_dec (ncols (weight (c_proj (mlp b)))) neuron) as [H2|H2].
      * rewrite (column_ok _ _ H2). simpl. left. split; [|eauto].
        exists b. by rewrite addressed_layer_getitem.
      * rewrite (column_raise _ _ H2). simpl. right. split; [|done].
        intros (b' & Hb' & _ & H). apply addressed_layer_getitem in Hb'.
        congruence.
    + rewrite (row_raise _ _ H1). simpl. right. split; [|done].
      intros (b' & Hb' & H & _). apply addressed_layer_getitem in Hb'.
      congruence.
  - rewrite (extractor_failure_unaddressed _ _ _ _ Hb), Hb. simpl.
    right. split; [|done].
    intros (b' & Hb' & _). apply addressed_layer_getitem in Hb'. congruence.
Qed.

Lemma find_neurons_reading_channel_cases layers layer ch top_k :
  (reader_addressable layers layer ch /\
     exists rs, find_neurons_reading_channel layers layer ch top_k = Ok rs) \/
  (~ reader_addressable layers layer ch /\
     find_neurons_reading_channel layers layer ch top_k =
       Raise (extractor_failure layers layer ch)).
Proof.
  unfold find_neurons_reading_channel, reader_addressable.
  destruct (getitem_cases layers layer) as [[b Hb]|Hb].
  - rewrite (extractor_failure_addressed _ _ _ _ Hb), Hb. simpl.
    destruct (in_dim_dec (ncols (weight (c_fc (mlp b)))) ch) as [H1|H1].
    + rewrite (column_ok _ _ H1). simpl. left. split; [|eauto].
      exists b. by rewrite addressed_layer_getitem.
    + rewrite (column_raise _ _ H1). simpl. right. split; [|done].
      intros (b' & Hb' & H). apply addressed_layer_getitem in Hb'. congruence.
  - rewrite (extractor_failure_unaddressed _ _ _ _ Hb), Hb. simpl.
    right. split; [|done].
    intros (b' & Hb' & _). apply addressed_layer_getitem in Hb'. congruence.
Qed.

Lemma find_neurons_writing_channel_cases layers layer ch top_k :
  (writer_addressable layers layer ch /\
     exists rs, find_neurons_writing_channel layers layer ch top_k = Ok rs) \/
  (~ writer_addressable layers layer ch /\
     find_neurons_writing_channel layers layer ch top_k =
       Raise (extractor_failure layers layer ch)).
Proof.
  unfold find_neurons_writing_channel, writer_addressable.
  destruct (getitem_cases layers layer) as [[b Hb]|Hb].
  - rewrite (extractor_failure_addressed _ _ _ _ Hb), Hb. simpl.
    destruct (in_dim_dec (nrows (weight (c_proj (mlp b)))) ch) as [H1|H1].
    + rewrite (row_ok _ _ H1). simpl. left. split; [|eauto].
      exists b. by rewrite addressed_layer_getitem.
    + rewrite (row_raise _ _ H1). simpl. right. split; [|done].
      intros (b' & Hb' & H). apply addressed_layer_getitem in Hb'. congruence.
  - rewrite (extractor_failure_unaddressed _ _ _ _ Hb), Hb. simpl.
    right. split; [|done].
    intros (b' & Hb' & _). apply addressed_layer_getitem in Hb'. congruence.
Qed.

Lemma extractor_failure_cases layers layer idx :
  (extractor_failure layers layer idx = ValueError <->
     (exists b, addressed_layer layers layer = Some b) /\
     ~ (- int64_bound <= idx < int64_bound)) /\
  (extractor_failure layers layer idx = IndexError <->
     addressed_layer layers layer = None \/
     - int64_bound <= idx < int64_bound).
Proof.
  unfold extractor_failure, tensor_failure.
  pose proof (fits_int64_spec idx) as Hf.
  destruct (addressed_layer layers layer) as [b|];
    destruct (fits_int64 idx); split; split; try done;
    try (intros [[b' Hb'] H]; try done; exfalso; apply H; by apply Hf);
    try (intros _; split; [by eexists|]; intros H; apply Hf in H; done);
    try (intros [H|H]; [done|]; apply Hf in H; done);
    try (intros _; right; by apply Hf);
    try (intros _; by left); eauto.
Qed.

Lemma ranking_cut_ranked top_k ws :
  0 < top_k ->
  ranked_neurons top_k
    (slice_to top_k (sort_desc abs_neuron_weight (neuron_conns ws))).
Proof.
  intros Hk. pose proof (ranking_sorted ws) as Hs.
  apply (StronglySorted_slice_to _ top_k) in Hs.
  repeat split.
  - eapply StronglySorted_weaken; [|exact Hs].
    intros x y H. by apply ranks_before_key_ge in H.
  - apply slice_to_length. lia.
  - rewrite Forall_forall. intros x Hx.
    apply elem_of_slice_to, elem_of_sort_desc, elem_of_neuron_conns in Hx.
    tauto.
  - eapply StronglySorted_weaken; [|exact Hs].
    intros x y [Hlt|[_ Hid]] Heq; [|done].
    unfold abs_neuron_weight in Hlt. rewrite Heq in Hlt.
    by apply Qlt_irrefl in Hlt.
Qed.

(** C4. For an in-range layer and channel and [top_k > 0], the readers and
    the writers of the channel are returned in non-increasing order of
    absolute weight, are at most [top_k], have non-zero weights, and keep
    entries of equal absolute weight in increasing index order. *)
Theorem channel_search_ranked (layers : layers_t) (layer ch top_k : Z) (b : block) :
  0 <= layer ->
  layers !! Z.to_nat layer = Some b ->
  in_range (ncols (weight (c_fc (mlp b)))) ch ->
  in_range (nrows (weight (c_proj (mlp b)))) ch ->
  0 < top_k ->
  (exists rs, find_neurons_reading_channel layers layer ch top_k = Ok rs /\
              ranked_neurons top_k rs) /\
  (exists rs, find_neurons_writing_channel layers layer ch top_k = Ok rs /\
              ranked_neurons top_k rs).
Proof.
  intros Hl Hb Hr Hw Hk.
  pose proof (getitem_nonneg _ _ _ Hl Hb) as Hg. split.
  - destruct (find_neurons_reading_channel_eq layers layer ch top_k b Hg)
      as (ws & _ & _ & ->); [by apply in_range_in_dim|].
    eexists. split; [done|]. by apply ranking_cut_ranked.
  - destruct (find_neurons_writing_channel_eq layers layer ch top_k b Hg)
      as (ws & _ & _ & ->); [by apply in_range_in_dim|].
    eexists. split; [done|]. by apply ranking_cut_ranked.
Qed.

Lemma channel_search_ranked_witness :
  (exists rs, find_neurons_reading_channel model3 1 0 1 = Ok rs /\
              ranked_neurons 1 rs) /\
  (exists rs, find_neurons_writing_channel model3 1 0 1 = Ok rs /\
              ranked_neurons 1 rs).
Proof.
  apply (channel_search_ranked model3 1 0 1 dense2);
    [lia | reflexivity | unfold in_range; simpl; lia
     | unfold in_range; simpl; lia | lia].
Defined.

(** C5 as stated fails: the negative layer and neuron index [-1] lie
    outside [0, n) and are accepted; they address the last layer and the
    last neuron. *)
Lemma negative_index_accepted :
  ~ in_range (length model3) (-1) /\
  neuron_get_connected_reschannels model3 (-1) (-1) =
    neuron_get_connected_reschannels model3 2 1 /\
  exists c, neuron_get_connected_reschannels model3 (-1) (-1) = Ok c.
Proof.
  split; [unfold in_range; lia|]. split; [reflexivity|].
  eexists. reflexivity.
Qed.

(** C5, amended. Each extractor fails exactly when its layer index is
    outside [-numLayers, numLayers) or its neuron or channel index is
    outside [-n, n) for the dimension it indexes, and returns a value
    otherwise, in particular on every in-range index.  The failure is an
    [IndexError], except that a neuron or channel index that does not fit
    a signed 64-bit integer, used on a layer that exists, raises
    [ValueError]. *)
Theorem extractors_raise_iff (layers : layers_t) (layer idx top_k : Z) :
  ((neuron_addressable layers layer idx /\
      exists c, neuron_get_connected_reschannels layers layer idx = Ok c) \/
   (~ neuron_addressable layers layer idx /\
      neuron_get_connected_reschannels layers layer idx =
        Raise (extractor_failure layers layer idx))) /\
  ((reader_addressable layers layer idx /\
      exists rs, find_neurons_reading_channel layers layer idx top_k = Ok rs) \/
   (~ reader_addressable layers layer idx /\
      find_neurons_reading_channel layers layer idx top_k =
        Raise (extractor_failure layers layer idx))) /\
  ((writer_addressable layers layer idx /\
      exists rs, find_neurons_writing_channel layers layer idx top_k = Ok rs) \/
   (~ writer_addressable layers layer idx /\
      find_neurons_writing_channel layers layer idx top_k =
        Raise (extractor_failure layers layer idx))) /\
  (extractor_failure layers layer idx = ValueError <->
     (exists b, addressed_layer layers layer = Some b) /\
     ~ (- 2 ^ 63 <= idx < 2 ^ 63)) /\
  (extractor_failure layers layer idx = IndexError <->
     addressed_layer layers layer = None \/ - 2 ^ 63 <= idx < 2 ^ 63) /\
  (forall b, 0 <= layer -> layers !! Z.to_nat layer = Some b ->
     (in_range (nrows (weight (c_fc (mlp b)))) idx ->
      in_range (ncols (weight (c_proj (mlp b)))) idx ->
      neuron_addressable layers layer idx) /\
     (in_range (ncols (weight (c_fc (mlp b)))) idx ->
      reader_addressable layers layer idx) /\
     (in_range (nrows (weight (c_proj (mlp b)))) idx ->
      writer_addressable layers layer idx)).
Proof.
  split; [apply neuron_get_connected_reschannels_cases|].
  split; [apply find_neurons_reading_channel_cases|].
  split; [apply find_neurons_writing_channel_cases|].
  split; [apply extractor_failure_cases|].
  split; [apply extractor_failure_cases|].
  intros b Hl Hb. pose proof (addressed_layer_in_range _ _ _ Hl Hb) as Ha.
  repeat split; intros; exists b; auto using in_range_in_dim.
Qed.

(** On [model3] (three layers, two neurons each): neuron 1 of layer 0 is
    read; neuron 2 is an [IndexError]; neuron [2 ^ 63] is a [ValueError] on
    layer 0 and an [IndexError] on the missing layer 3. *)
Lemma extractors_raise_iff_witness :
  (exists c, neuron_get_connected_reschannels model3 0 1 = Ok c) /\
  neuron_get_connected_reschannels model3 0 2 = Raise IndexError /\
  neuron_get_connected_reschannels model3 0 (2 ^ 63) = Raise ValueError /\
  neuron_get_connected_reschannels model3 3 (2 ^ 63) = Raise IndexError.
Proof.
  split; [|split; [|split]].
  - destruct (extractors_raise_iff model3 0 1 1)
      as ([[_ Hok]|[Hna _]] & _ & _ & _ & _ & Hin); [exact Hok|].
    exfalso. apply Hna.
    assert (H0 : 0 <= 0) by lia.
    apply (Hin dense2 H0 eq_refl); unfold in_range; vm_compute; easy.
  - destruct (extractors_raise_iff model3 0 2 1)
      as ([[_ [c Hok]]|[_ Hr]] & _);
      [vm_compute in Hok; discriminate Hok|exact Hr].
  - destruct (extractors_raise_iff model3 0 (2 ^ 63) 1)
      as ([[_ [c Hok]]|[_ Hr]] & _);
      [vm_compute in Hok; discriminate Hok|exact Hr].
  - destruct (extractors_raise_iff model3 3 (2 ^ 63) 1)
      as ([[_ [c Hok]]|[_ Hr]] & _);
      [vm_compute in Hok; discriminate Hok|exact Hr].
Defined.

Lemma neuron_conns_length ws : (length (neuron_conns ws) <= length ws)%nat.
Proof.
  unfold neuron_conns, nonzero_entries, enumerate.
  rewrite length_map. etransitivity; [apply filter_length_le|].
  generalize 0. induction ws as [|w ws IH]; intros z; simpl; [lia|].
  specialize (IH (z + 1)). lia.
Qed.

Lemma slice_to_all {A} k (l : list A) :
  Z.of_nat (length l) <= k -> slice_to k l = l.
Proof.
  intros H. unfold slice_to. destruct (Z.leb_spec 0 k); [|lia].
  apply take_ge. lia.
Qed.

(** The cut for [top_k <= 0], relative to the complete ranking. *)
Lemma ranking_cut_nonpos top_k n ws :
  top_k <= 0 -> length ws = n ->
  slice_to top_k (sort_desc abs_neuron_weight (neuron_conns ws)) =
    if top_k =? 0 then []
    else drop_last (Z.to_nat (- top_k))
           (slice_to (Z.of_nat n) (sort_desc abs_neuron_weight (neuron_conns ws))).
Proof.
  intros Hk Hn. rewrite (slice_to_all (Z.of_nat n)).
  - destruct (Z.eqb_spec top_k 0) as [->|Hne]; [done|].
    by rewrite slice_to_neg by lia.
  - rewrite sort_desc_length. pose proof (neuron_conns_length ws). lia.
Qed.

(** C6 as stated fails: with [top_k = -1] the slice [neurons[:-1]] drops
    only the last entry, so a channel with two non-zero readers (writers)
    yields one entry, not an empty list. *)
Lemma negative_top_k_nonempty :
  find_neurons_reading_channel model3 0 0 (-1) =
    Ok [ {| neuron_id := 1; neuron_weight := 3 |} ] /\
  find_neurons_writing_channel model3 0 0 (-1) =
    Ok [ {| neuron_id := 1; neuron_weight := 2 |} ].
Proof. split; reflexivity. Qed.

(** C6, amended. For an in-range layer and channel and [top_k <= 0] neither
    search raises; the result is empty for [top_k = 0], and for [top_k < 0]
    it is the complete ranking without its last [-top_k] entries. *)
Theorem channel_search_nonpositive_top_k
    (layers : layers_t) (layer ch top_k : Z) (b : block) :
  0 <= layer ->
  layers !! Z.to_nat layer = Some b ->
  in_range (ncols (weight (c_fc (mlp b)))) ch ->
  in_range (nrows (weight (c_proj (mlp b)))) ch ->
  top_k <= 0 ->
  (exists ranking,
     find_neurons_reading_channel layers layer ch
       (Z.of_nat (nrows (weight (c_fc (mlp b))))) = Ok ranking /\
     find_neurons_reading_channel layers layer ch top_k =
       Ok (if top_k =? 0 then []
           else drop_last (Z.to_nat (- top_k)) ranking)) /\
  (exists ranking,
     find_neurons_writing_channel layers layer ch
       (Z.of_nat (ncols (weight (c_proj (mlp b))))) = Ok ranking /\
     find_neurons_writing_channel layers layer ch top_k =
       Ok (if top_k =? 0 then []
           else drop_last (Z.to_nat (- top_k)) ranking)).
Proof.
  intros Hl Hb Hr Hw Hk.
  pose proof (getitem_nonneg _ _ _ Hl Hb) as Hg.
  apply in_range_in_dim in Hr, Hw. split.
  - destruct (find_neurons_reading_channel_eq layers layer ch top_k b Hg Hr)
      as (ws & Hws & Hlen & ->).
    destruct (find_neurons_reading_channel_eq layers layer ch
      (Z.of_nat (nrows (weight (c_fc (mlp b))))) b Hg Hr)
      as (ws' & Hws' & _ & ->).
    assert (ws' = ws) as -> by congruence.
    eexists. split; [done|]. f_equal. by apply ranking_cut_nonpos.
  - destruct (find_neurons_writing_channel_eq layers layer ch top_k b Hg Hw)
      as (ws & Hws & Hlen & ->).
    destruct (find_neurons_writing_channel_eq layers layer ch
      (Z.of_nat (ncols (weight (c_proj (mlp b))))) b Hg Hw)
      as (ws' & Hws' & _ & ->).
    assert (ws' = ws) as -> by congruence.
    eexists. split; [done|]. f_equal. by apply ranking_cut_nonpos.
Qed.

Lemma channel_search_nonpositive_top_k_witness :
  (exists ranking,
     find_neurons_reading_channel model3 0 0 2 = Ok ranking /\
     find_neurons_reading_channel model3 0 0 (-1) =
       Ok (drop_last 1 ranking)) /\
  (exists ranking,
     find_neurons_writing_channel model3 0 0 2 = Ok ranking /\
     find_neurons_writing_channel model3 0 0 (-1) =
       Ok (drop_last 1 ranking)).
Proof.
  apply (channel_search_nonpositive_top_k model3 0 0 (-1) dense2);
    [lia | reflexivity | unfold in_range; simpl; lia
     | unfold in_range; simpl; lia | lia].
Defined.

(** ** Tracer computations *)

Lemma for_each_ext {A S} (l : list A) (s : S) body1 body2 :
  (forall s x, x ∈ l -> body1 s x = body2 s x) ->
  for_each l s body1 = for_each l s body2.
Proof.
  revert s. induction l as [|x l IH]; intros s H; simpl; [done|].
  rewrite H by apply list_elem_of_here.
  destruct (body2 s x) as [[s'|e]|]; simpl; [|done|done].
  apply IH. intros s0 y Hy. apply H. by apply list_elem_of_further.
Qed.

(** Loop invariant rule for a loop that completes. *)
Lemma for_each_inv {A S} (P : S -> Prop) (l : list A) (s r : S) body :
  P s ->
  (forall s x s', x ∈ l -> P s -> body s x = Some (Ok s') -> P s') ->
  for_each l s body = Some (Ok r) -> P r.
Proof.
  revert s. induction l as [|x l IH]; intros s Hs Hbody; simpl.
  - unfold ret. congruence.
  - destruct (body s x) as [[s'|e]|] eqn:E; simpl; [|done|done].
    apply IH.
    + eapply Hbody; [apply list_elem_of_here|done|done].
    + intros s0 y s1 Hy. apply Hbody. by apply list_elem_of_further.
Qed.

(** A loop stays within the recursion budget when its body does. *)
Lemma for_each_is_Some {A S} (l : list A) (s : S) body :
  (forall s x, x ∈ l -> is_Some (body s x)) ->
  is_Some (for_each l s body).
Proof.
  revert s. induction l as [|x l IH]; intros s H; simpl; [by eexists|].
  destruct (H s x (list_elem_of_here _ _)) as [[s'|e] ->]; simpl; [|by eexists].
  apply IH. intros s0 y Hy. apply H. by apply list_elem_of_further.
Qed.

Lemma elem_of_range a b x : x ∈ range a b <-> a <= x < b.
Proof. unfold range. rewrite elem_of_seqZ. lia. Qed.

Lemma elem_of_range_down a x : x ∈ range_down a <-> 0 <= x <= a.
Proof. unfold range_down. rewrite elem_of_reverse, elem_of_seqZ. lia. Qed.

Lemma bindM_is_Some {A B} (m : M A) (k : A -> M B) :
  is_Some m -> (forall a, is_Some (k a)) -> is_Some (bindM m k).
Proof. intros [[a|e] ->] Hk; simpl; [apply Hk|by eexists]. Qed.

Lemma bindM_Ok_inv {A B} (m : M A) (k : A -> M B) b :
  bindM m k = Some (Ok b) -> exists a, m = Some (Ok a) /\ k a = Some (Ok b).
Proof. destruct m as [[a|e]|]; simpl; [eauto|done|done]. Qed.

(** ** Forward tracer: the recursion budget *)

Lemma fwd_trace_unfold layers top_k fuel layer neuron rd :
  Fwd.trace_from_neuron layers top_k fuel layer neuron rd =
    if (rd =? 0) || (layer >=? len layers - 1) then ret None
    else
      match fuel with
      | O => None
      | S fuel' =>
          let+ result :=
            Fwd.candidates layers top_k
              (Fwd.trace_from_neuron layers top_k fuel') layer neuron rd in
          ret (cut_or_none (top_k * 2) (sort_desc Fwd.score result))
      end.
Proof. destruct fuel; reflexivity. Qed.

Lemma fwd_candidates_ext layers top_k self1 self2 layer neuron rd :
  (forall l n d, layer < l < len layers -> self1 l n d = self2 l n d) ->
  Fwd.candidates layers top_k self1 layer neuron rd =
  Fwd.candidates layers top_k self2 layer neuron rd.
Proof.
  intros H. unfold Fwd.candidates.
  destruct (neuron_get_connected_reschannels layers layer neuron) as [c|e];
    simpl; [|done].
  apply for_each_ext. intros s ch _.
  apply for_each_ext. intros s' next Hnext. apply elem_of_range in Hnext.
  destruct (find_neurons_reading_channel layers next (channel_id ch) top_k)
    as [rs|e]; simpl; [|done].
  apply for_each_ext. intros s'' r _. rewrite H by lia. done.
Qed.

Lemma fwd_candidates_is_Some layers top_k self layer neuron rd :
  (forall l n d, layer < l < len layers -> is_Some (self l n d)) ->
  is_Some (Fwd.candidates layers top_k self layer neuron rd).
Proof.
  intros H. unfold Fwd.candidates.
  destruct (neuron_get_connected_reschannels layers layer neuron) as [c|e];
    simpl; [|by eexists].
  apply for_each_is_Some. intros s ch _.
  apply for_each_is_Some. intros s' next Hnext. apply elem_of_range in Hnext.
  destruct (find_neurons_reading_channel layers next (channel_id ch) top_k)
    as [rs|e]; simpl; [|by eexists].
  apply for_each_is_Some. intros s'' r _.
  apply bindM_is_Some; [apply H; lia|]. intros; by eexists.
Qed.

Lemma fwd_budget_enough layers top_k n :
  forall fuel layer neuron rd,
    (Fwd.budget layers layer <= n)%nat -> (n <= fuel)%nat ->
    Fwd.trace_from_neuron layers top_k fuel layer neuron rd =
      Fwd.trace_from_neuron layers top_k n layer neuron rd /\
    is_Some (Fwd.trace_from_neuron layers top_k n layer neuron rd).
Proof.
  induction n as [|n IH]; intros fuel layer neuron rd Hb Hf;
    rewrite !(fwd_trace_unfold layers top_k _ layer);
    destruct ((rd =? 0) || (layer >=? len layers - 1)) eqn:Hterm;
    try (split; [done|by eexists]).
  - apply orb_false_iff in Hterm as [_ Hlay].
    unfold Fwd.budget in Hb. fold (len layers) in Hb. lia.
  - apply orb_false_iff in Hterm as [_ Hlay].
    destruct fuel as [|fuel]; [lia|].
    assert (Hrec : forall l m d, layer < l < len layers ->
              Fwd.trace_from_neuron layers top_k fuel l m d =
                Fwd.trace_from_neuron layers top_k n l m d /\
              is_Some (Fwd.trace_from_neuron layers top_k n l m d)).
    { intros l m d Hl. apply IH; [|lia].
      unfold Fwd.budget in *. fold (len layers) in *. lia. }
    rewrite (fwd_candidates_ext layers top_k
               (Fwd.trace_from_neuron layers top_k fuel)
               (Fwd.trace_from_neuron layers top_k n))
      by (intros; by apply Hrec).
    split; [done|]. apply bindM_is_Some; [|intros; by eexists].
    apply fwd_candidates_is_Some. intros; by apply Hrec.
Qed.

(** ** Backward tracer: the recursion budget *)

Lemma bwd_trace_unfold layers top_k fuel layer neuron rd :
  Bwd.trace_from_neuron layers top_k fuel layer neuron rd =
    if (rd =? 0) || (layer <=? 0) then ret None
    else
      match fuel with
      | O => None
      | S fuel' =>
          let+ result :=
            Bwd.candidates layers top_k
              (Bwd.trace_from_neuron layers top_k fuel') layer neuron rd in
          ret (cut_or_none (top_k * 2) (sort_desc Bwd.score result))
      end.
Proof. destruct fuel; reflexivity. Qed.

Lemma bwd_candidates_ext layers top_k self1 self2 layer neuron rd :
  (forall l n d, 0 <= l < layer -> self1 l n d = self2 l n d) ->
  Bwd.candidates layers top_k self1 layer neuron rd =
  Bwd.candidates layers top_k self2 layer neuron rd.
Proof.
  intros H. unfold Bwd.candidates.
  destruct (neuron_get_connected_reschannels layers layer neuron) as [c|e];
    simpl; [|done].
  apply for_each_ext. intros s ch _.
  apply for_each_ext. intros s' prev Hprev. apply elem_of_range_down in Hprev.
  destruct (find_neurons_writing_channel layers prev (channel_id ch) top_k)
    as [ws|e]; simpl; [|done].
  apply for_each_ext. intros s'' w _. rewrite H by lia. done.
Qed.

Lemma bwd_candidates_is_Some layers top_k self layer neuron rd :
  (forall l n d, 0 <= l < layer -> is_Some (self l n d)) ->
  is_Some (Bwd.candidates layers top_k self layer neuron rd).
Proof.
  intros H. unfold Bwd.candidates.
  destruct (neuron_get_connected_reschannels layers layer neuron) as [c|e];
    simpl; [|by eexists].
  apply for_each_is_Some. intros s ch _.
  apply for_each_is_Some. intros s' prev Hprev. apply elem_of_range_down in Hprev.
  destruct (find_neurons_writing_channel layers prev (channel_id ch) top_k)
    as [ws|e]; simpl; [|by eexists].
  apply for_each_is_Some. intros s'' w _.
  apply bindM_is_Some; [apply H; lia|]. intros; by eexists.
Qed.

Lemma bwd_budget_enough layers top_k n :
  forall fuel layer neuron rd,
    (Bwd.budget layer <= n)%nat -> (n <= fuel)%nat ->
    Bwd.trace_from_neuron layers top_k fuel layer neuron rd =
      Bwd.trace_from_neuron layers top_k n layer neuron rd /\
    is_Some (Bwd.trace_from_neuron layers top_k n layer neuron rd).
Proof.
  induction n as [|n IH]; intros fuel layer neuron rd Hb Hf;
    rewrite !(bwd_trace_unfold layers top_k _ layer);
    destruct ((rd =? 0) || (layer <=? 0)) eqn:Hterm;
    try (split; [done|by eexists]).
  - apply orb_false_iff in Hterm as [_ Hlay]. unfold Bwd.budget in Hb. lia.
  - apply orb_false_iff in Hterm as [_ Hlay].
    destruct fuel as [|fuel]; [lia|].
    assert (Hrec : forall l m d, 0 <= l < layer ->
              Bwd.trace_from_neuron layers top_k fuel l m d =
                Bwd.trace_from_neuron layers top_k n l m d /\
              is_Some (Bwd.trace_from_neuron layers top_k n l m d)).
    { intros l m d Hl. apply IH; [|lia]. unfold Bwd.budget in *. lia. }
    rewrite (bwd_candidates_ext layers top_k
               (Bwd.trace_from_neuron layers top_k fuel)
               (Bwd.trace_from_neuron layers top_k n))
      by (intros; by apply Hrec).
    split; [done|]. apply bindM_is_Some; [|intros; by eexists].
    apply bwd_candidates_is_Some. intros; by apply Hrec.
Qed.

(** C3. With [depth = 0] both tracers return the empty list, and so does
    the forward tracer at the last layer and the backward tracer at layer
    0, whatever the other arguments. *)
Theorem trace_terminal_empty (layers : layers_t) (layer neuron depth top_k : Z) :
  Fwd.trace_circuit_forward layers layer neuron 0 top_k = Some (Ok []) /\
  Fwd.trace_circuit_forward layers (len layers - 1) neuron depth top_k
    = Some (Ok []) /\
  Bwd.trace_circuit_backward layers layer neuron 0 top_k = Some (Ok []) /\
  Bwd.trace_circuit_backward layers 0 neuron depth top_k = Some (Ok []).
Proof.
  unfold Fwd.trace_circuit_forward, Bwd.trace_circuit_backward.
  rewrite !fwd_trace_unfold, !bwd_trace_unfold.
  replace (len layers - 1 >=? len layers - 1) with true by lia.
  rewrite !orb_true_r. simpl. done.
Qed.

(** C9. Both tracers return for every integer depth.  A forward expansion
    calls itself only at later layers and a backward expansion only at
    earlier layers; the budget of a layer, which does not depend on the
    depth, is therefore never exhausted, and for an in-range start layer
    it is at most the number of layers. *)
Theorem tracers_terminate (layers : layers_t) (layer neuron depth top_k : Z) :
  (forall self1 self2,
     (forall l n d, layer < l < len layers -> self1 l n d = self2 l n d) ->
     Fwd.candidates layers top_k self1 layer neuron depth =
     Fwd.candidates layers top_k self2 layer neuron depth) /\
  (forall self1 self2,
     (forall l n d, 0 <= l < layer -> self1 l n d = self2 l n d) ->
     Bwd.candidates layers top_k self1 layer neuron depth =
     Bwd.candidates layers top_k self2 layer neuron depth) /\
  (forall fuel, (Fwd.budget layers layer <= fuel)%nat ->
     is_Some (Fwd.trace_from_neuron layers top_k fuel layer neuron depth)) /\
  (forall fuel, (Bwd.budget layer <= fuel)%nat ->
     is_Some (Bwd.trace_from_neuron layers top_k fuel layer neuron depth)) /\
  is_Some (Fwd.trace_circuit_forward layers layer neuron depth top_k) /\
  is_Some (Bwd.trace_circuit_backward layers layer neuron depth top_k) /\
  (0 <= layer -> Z.of_nat (Fwd.budget layers layer) <= len layers) /\
  (layer < len layers -> Z.of_nat (Bwd.budget layer) <= len layers).
Proof.
  split; [intros; by apply fwd_candidates_ext|].
  split; [intros; by apply bwd_candidates_ext|].
  split.
  { intros fuel Hf.
    destruct (fwd_budget_enough layers top_k (Fwd.budget layers layer) fuel
                layer neuron depth (Nat.le_refl _) Hf) as [-> H]. exact H. }
  split.
  { intros fuel Hf.
    destruct (bwd_budget_enough layers top_k (Bwd.budget layer) fuel
                layer neuron depth (Nat.le_refl _) Hf) as [-> H]. exact H. }
  split.
  { unfold Fwd.trace_circuit_forward. apply bindM_is_Some; [|intros; by eexists].
    by apply (fwd_budget_enough layers top_k (Fwd.budget layers layer)
                (Fwd.budget layers layer) layer neuron depth). }
  split.
  { unfold Bwd.trace_circuit_backward. apply bindM_is_Some; [|intros; by eexists].
    by apply (bwd_budget_enough layers top_k (Bwd.budget layer)
                (Bwd.budget layer) layer neuron depth). }
  unfold Fwd.budget, Bwd.budget, len. split; lia.
Qed.

(** ** Loops that collect results *)

Lemma bindM_ret_r {A} (m : M A) : bindM m ret = m.
Proof. by destruct m as [[a|e]|]. Qed.

Lemma for_each_append {A B} (f : A -> M B) (l : list A) (acc : list B) :
  for_each l acc (fun acc x => let+ y := f x in ret (acc ++ [y])) =
    let+ ys := mapM f l in ret (acc ++ ys).
Proof.
  revert acc. induction l as [|x l IH]; intros acc; simpl.
  - by rewrite app_nil_r.
  - destruct (f x) as [[y|e]|]; simpl; [|done|done].
    rewrite IH. destruct (mapM f l) as [[ys|e]|]; simpl; [|done|done].
    by rewrite <- app_assoc.
Qed.

Lemma for_each_collect {A B} (f : A -> M (list B)) (l : list A) (acc : list B) :
  for_each l acc (fun acc x => let+ ys := f x in ret (acc ++ ys)) =
    let+ ys := flat_mapM f l in ret (acc ++ ys).
Proof.
  unfold flat_mapM. revert acc. induction l as [|x l IH]; intros acc; simpl.
  - by rewrite app_nil_r.
  - destruct (f x) as [[y|e]|]; simpl; [|done|done].
    rewrite IH. destruct (mapM f l) as [[ys|e]|]; simpl; [|done|done].
    by rewrite <- app_assoc.
Qed.

Lemma fwd_candidates_refines layers top_k self layer neuron depth :
  Fwd.candidates layers top_k self layer neuron depth =
  fwd_candidates_spec layers top_k self layer neuron depth.
Proof.
  unfold Fwd.candidates, fwd_candidates_spec.
  destruct (neuron_get_connected_reschannels layers layer neuron) as [c|e];
    simpl; [|done].
  etransitivity.
  { apply for_each_ext. intros acc ch _.
    etransitivity.
    { apply for_each_ext. intros acc' next _.
      instantiate (1 := fun acc' next =>
        let+ ys :=
          (let+ readers := lift (find_neurons_reading_channel layers next
                                   (channel_id ch) top_k) in
           mapM (fun reader =>
             let+ sub := self next (neuron_id reader) (depth - 1) in
             ret (Fwd.Entry next (neuron_id reader) (neuron_weight reader)
                    (channel_id ch) (channel_weight ch) sub)) readers) in
        ret (acc' ++ ys)).
      simpl.
      destruct (find_neurons_reading_channel layers next (channel_id ch) top_k)
        as [rs|e]; simpl; [|done].
      rewrite <- for_each_append. apply for_each_ext. intros acc'' r _.
      by destruct (self next (neuron_id r) (depth - 1)) as [[sub|e]|]. }
    apply for_each_collect. }
  rewrite (for_each_collect
    (fun ch => flat_mapM (fun next =>
       let+ readers := lift (find_neurons_reading_channel layers next
                                (channel_id ch) top_k) in
       mapM (fun reader =>
         let+ sub := self next (neuron_id reader) (depth - 1) in
         ret (Fwd.Entry next (neuron_id reader) (neuron_weight reader)
                (channel_id ch) (channel_weight ch) sub)) readers)
       (range (layer + 1) (len layers)))).
  simpl. apply bindM_ret_r.
Qed.

Lemma bwd_candidates_refines layers top_k self layer neuron depth :
  Bwd.candidates layers top_k self layer neuron depth =
  bwd_candidates_spec layers top_k self layer neuron depth.
Proof.
  unfold Bwd.candidates, bwd_candidates_spec.
  destruct (neuron_get_connected_reschannels layers layer neuron) as [c|e];
    simpl; [|done].
  etransitivity.
  { apply for_each_ext. intros acc ch _.
    etransitivity.
    { apply for_each_ext. intros acc' prev _.
      instantiate (1 := fun acc' prev =>
        let+ ys :=
          (let+ writers := lift (find_neurons_writing_channel layers prev
                                   (channel_id ch) top_k) in
           mapM (fun writer =>
             let+ sub := self prev (neuron_id writer) (depth - 1) in
             ret (Bwd.Entry prev (neuron_id writer) (neuron_weight writer)
                    (channel_id ch) (channel_weight ch) sub)) writers) in
        ret (acc' ++ ys)).
      simpl.
      destruct (find_neurons_writing_channel layers prev (channel_id ch) top_k)
        as [ws|e]; simpl; [|done].
      rewrite <- for_each_append. apply for_each_ext. intros acc'' w _.
      by destruct (self prev (neuron_id w) (depth - 1)) as [[sub|e]|]. }
    apply for_each_collect. }
  rewrite (for_each_collect
    (fun ch => flat_mapM (fun prev =>
       let+ writers := lift (find_neurons_writing_channel layers prev
                                (channel_id ch) top_k) in
       mapM (fun writer =>
         let+ sub := self prev (neuron_id writer) (depth - 1) in
         ret (Bwd.Entry prev (neuron_id writer) (neuron_weight writer)
                (channel_id ch) (channel_weight ch) sub)) writers)
       (range_down (layer - 1)))).
  simpl. apply bindM_ret_r.
Qed.

(** ** Layer scans *)





(** ** Expansions *)

Lemma fwd_expand_eq layers top_k layer neuron depth :
  fwd_expand layers top_k layer neuron depth =
    if (depth =? 0) || (layer >=? len layers - 1) then ret None
    else
      let+ cands :=
        Fwd.candidates layers top_k (fwd_expand layers top_k)
          layer neuron depth in
      ret (cut_or_none (top_k * 2) (sort_desc Fwd.score cands)).
Proof.
  unfold fwd_expand at 1. rewrite fwd_trace_unfold.
  destruct ((depth =? 0) || (layer >=? len layers - 1)) eqn:Hterm; [done|].
  apply orb_false_iff in Hterm as [_ Hlay].
  destruct (Fwd.budget layers layer) as [|n] eqn:Hb.
  { unfold Fwd.budget in Hb. fold (len layers) in Hb. lia. }
  f_equal. apply fwd_candidates_ext. intros l m d Hl.
  apply fwd_budget_enough; [done|].
  unfold Fwd.budget in *. fold (len layers) in *. lia.
Qed.

Lemma bwd_expand_eq layers top_k layer neuron depth :
  bwd_expand layers top_k layer neuron depth =
    if (depth =? 0) || (layer <=? 0) then ret None
    else
      let+ cands :=
        Bwd.candidates layers top_k (bwd_expand layers top_k)
          layer neuron depth in
      ret (cut_or_none (top_k * 2) (sort_desc Bwd.score cands)).
Proof.
  unfold bwd_expand at 1. rewrite bwd_trace_unfold.
  destruct ((depth =? 0) || (layer <=? 0)) eqn:Hterm; [done|].
  apply orb_false_iff in Hterm as [_ Hlay].
  destruct (Bwd.budget layer) as [|n] eqn:Hb.
  { unfold Bwd.budget in Hb. lia. }
  f_equal. apply bwd_candidates_ext. intros l m d Hl.
  apply bwd_budget_enough; [done|].
  unfold Bwd.budget in *. lia.
Qed.



(** ** Properties of every list in a trace *)

Lemma fwd_below_Some P a b c d e l :
  fwd_below P (Fwd.Entry a b c d e (Some l)) <-> fwd_everywhere P l.
Proof.
  unfold fwd_everywhere. simpl.
  assert (H : forall l,
    (fix all (l : list Fwd.entry) : Prop :=
       match l with
       | [] => True
       | x :: l' => fwd_below P x /\ all l'
       end) l <-> Forall (fwd_below P) l).
  { clear. induction l as [|x l IH]; [by split; [constructor|]|].
    rewrite Forall_cons, <- IH. done. }
  by rewrite H.
Qed.

Lemma bwd_below_Some P a b c d e l :
  bwd_below P (Bwd.Entry a b c d e (Some l)) <-> bwd_everywhere P l.
Proof.
  unfold bwd_everywhere. simpl.
  assert (H : forall l,
    (fix all (l : list Bwd.entry) : Prop :=
       match l with
       | [] => True
       | x :: l' => bwd_below P x /\ all l'
       end) l <-> Forall (bwd_below P) l).
  { clear. induction l as [|x l IH]; [by split; [constructor|]|].
    rewrite Forall_cons, <- IH. done. }
  by rewrite H.
Qed.

(** Every candidate carries the value of a recursive call as its children
    (parents) field. *)
Lemma fwd_candidates_children layers top_k self layer neuron depth cands :
  Fwd.candidates layers top_k self layer neuron depth = Some (Ok cands) ->
  Forall (fun e => exists l n,
            layer < l < len layers /\
            self l n (depth - 1) = Some (Ok (Fwd.children e))) cands.
Proof.
  unfold Fwd.candidates. intros H.
  apply bindM_Ok_inv in H as (c & _ & H).
  revert H. apply for_each_inv; [constructor|]. intros s1 ch s1' _ Hs1.
  apply for_each_inv; [done|]. intros s2 next s2' Hnext Hs H.
  apply elem_of_range in Hnext.
  apply bindM_Ok_inv in H as (rs & _ & H).
  revert H. apply for_each_inv; [done|]. intros s3 r s3' _ Hs3 H.
  apply bindM_Ok_inv in H as (sub & Hsub & H).
  injection H as <-. apply Forall_app. split; [done|].
  repeat constructor. exists next, (neuron_id r). simpl. split; [lia|done].
Qed.

Lemma bwd_candidates_parents layers top_k self layer neuron depth cands :
  Bwd.candidates layers top_k self layer neuron depth = Some (Ok cands) ->
  Forall (fun e => exists l n,
            0 <= l < layer /\
            self l n (depth - 1) = Some (Ok (Bwd.parents e))) cands.
Proof.
  unfold Bwd.candidates. intros H.
  apply bindM_Ok_inv in H as (c & _ & H).
  revert H. apply for_each_inv; [constructor|]. intros s1 ch s1' _ Hs1.
  apply for_each_inv; [done|]. intros s2 prev s2' Hprev Hs H.
  apply elem_of_range_down in Hprev.
  apply bindM_Ok_inv in H as (ws & _ & H).
  revert H. apply for_each_inv; [done|]. intros s3 w s3' _ Hs3 H.
  apply bindM_Ok_inv in H as (sub & Hsub & H).
  injection H as <-. apply Forall_app. split; [done|].
  repeat constructor. exists prev, (neuron_id w). simpl. split; [lia|done].
Qed.

Lemma cut_or_none_Some_inv {A} k (l res : list A) :
  cut_or_none k l = Some res -> l <> [] /\ res = slice_to k l.
Proof. destruct l; simpl; [done|]. intros [= <-]. done. Qed.

(** A property of the cut of every non-empty candidate list holds of every
    list in the tree an expansion returns. *)
Lemma fwd_trace_everywhere layers top_k (P : list Fwd.entry -> Prop) :
  (forall fuel layer neuron depth cands,
     Fwd.candidates layers top_k (Fwd.trace_from_neuron layers top_k fuel)
       layer neuron depth = Some (Ok cands) ->
     cands <> [] ->
     P (slice_to (top_k * 2) (sort_desc Fwd.score cands))) ->
  forall fuel layer neuron depth res,
    Fwd.trace_from_neuron layers top_k fuel layer neuron depth
      = Some (Ok (Some res)) ->
    fwd_everywhere P res.
Proof.
  intros HP. induction fuel as [|fuel IH]; intros layer neuron depth res;
    rewrite fwd_trace_unfold;
    destruct ((depth =? 0) || (layer >=? len layers - 1)); try done.
  intros H. apply bindM_Ok_inv in H as (cands & Hc & H).
  injection H as H. apply cut_or_none_Some_inv in H as [Hne ->].
  assert (Hne' : cands <> []) by (intros ->; by apply Hne).
  split; [by eapply HP|].
  apply fwd_candidates_children in Hc.
  rewrite Forall_forall in Hc |- *. intros e He.
  apply elem_of_slice_to, elem_of_sort_desc in He.
  destruct (Hc e He) as (l & n & _ & Hsub).
  destruct e as [a b c d e' [sub|]]; [|done].
  apply fwd_below_Some. simpl in Hsub. by eapply IH.
Qed.

Lemma bwd_trace_everywhere layers top_k (P : list Bwd.entry -> Prop) :
  (forall fuel layer neuron depth cands,
     Bwd.candidates layers top_k (Bwd.trace_from_neuron layers top_k fuel)
       layer neuron depth = Some (Ok cands) ->
     cands <> [] ->
     P (slice_to (top_k * 2) (sort_desc Bwd.score cands))) ->
  forall fuel layer neuron depth res,
    Bwd.trace_from_neuron layers top_k fuel layer neuron depth
      = Some (Ok (Some res)) ->
    bwd_everywhere P res.
Proof.
  intros HP. induction fuel as [|fuel IH]; intros layer neuron depth res;
    rewrite bwd_trace_unfold;
    destruct ((depth =? 0) || (layer <=? 0)); try done.
  intros H. apply bindM_Ok_inv in H as (cands & Hc & H).
  injection H as H. apply cut_or_none_Some_inv in H as [Hne ->].
  assert (Hne' : cands <> []) by (intros ->; by apply Hne).
  split; [by eapply HP|].
  apply bwd_candidates_parents in Hc.
  rewrite Forall_forall in Hc |- *. intros e He.
  apply elem_of_slice_to, elem_of_sort_desc in He.
  destruct (Hc e He) as (l & n & _ & Hsub).
  destruct e as [a b c d e' [sub|]]; [|done].
  apply bwd_below_Some. simpl in Hsub. by eapply IH.
Qed.

(** ** The re-ranking cut *)

Lemma rerank_cut_reranked {A} (score : A -> Q) top_k (cands : list A) :
  0 <= top_k ->
  reranked score top_k cands (slice_to (top_k * 2) (sort_desc score cands)).
Proof.
  intros Hk. pose proof (sort_desc_sorted score cands) as Hs.
  destruct (slice_to_prefix (top_k * 2) (sort_desc score cands)) as [rest Hr].
  split; [split|].
  - by apply StronglySorted_slice_to.
  - pose proof (slice_to_length (top_k * 2) (sort_desc score cands)).
    unfold len. lia.
  - exists rest. split.
    + rewrite <- Hr. apply sort_desc_perm.
    + intros x y Hx Hy. rewrite Hr in Hs.
      apply (StronglySorted_app_1_elem_of _ _ _ _ _ Hs Hx Hy).
Qed.

Lemma ranked_list_nil {A} (score : A -> Q) top_k :
  0 <= top_k -> ranked_list score top_k [].
Proof. intros Hk. split; [constructor|]. unfold len. simpl. lia. Qed.

Lemma fwd_trace_ranked layers top_k layer neuron depth res :
  0 <= top_k ->
  Fwd.trace_circuit_forward layers layer neuron depth top_k = Some (Ok res) ->
  fwd_everywhere (ranked_list Fwd.score top_k) res.
Proof.
  intros Hk H. unfold Fwd.trace_circuit_forward in H.
  apply bindM_Ok_inv in H as ([l|] & Hl & H); injection H as <-; simpl.
  - revert Hl. apply fwd_trace_everywhere. intros.
    by apply rerank_cut_reranked.
  - split; [by apply ranked_list_nil|constructor].
Qed.

Lemma bwd_trace_ranked layers top_k layer neuron depth res :
  0 <= top_k ->
  Bwd.trace_circuit_backward layers layer neuron depth top_k = Some (Ok res) ->
  bwd_everywhere (ranked_list Bwd.score top_k) res.
Proof.
  intros Hk H. unfold Bwd.trace_circuit_backward in H.
  apply bindM_Ok_inv in H as ([l|] & Hl & H); injection H as <-; simpl.
  - revert Hl. apply bwd_trace_everywhere. intros.
    by apply rerank_cut_reranked.
  - split; [by apply ranked_list_nil|constructor].
Qed.

Lemma fwd_expand_reranked layers top_k layer neuron depth res :
  0 <= top_k ->
  fwd_expand layers top_k layer neuron depth = Some (Ok (Some res)) ->
  exists cands,
    Fwd.candidates layers top_k (fwd_expand layers top_k) layer neuron depth
      = Some (Ok cands) /\
    reranked Fwd.score top_k cands res.
Proof.
  intros Hk. rewrite fwd_expand_eq.
  destruct ((depth =? 0) || (layer >=? len layers - 1)); [done|].
  intros H. apply bindM_Ok_inv in H as (cands & Hc & H).
  injection H as H. apply cut_or_none_Some_inv in H as [_ ->].
  exists cands. split; [done|]. by apply rerank_cut_reranked.
Qed.

Lemma bwd_expand_reranked layers top_k layer neuron depth res :
  0 <= top_k ->
  bwd_expand layers top_k layer neuron depth = Some (Ok (Some res)) ->
  exists cands,
    Bwd.candidates layers top_k (bwd_expand layers top_k) layer neuron depth
      = Some (Ok cands) /\
    reranked Bwd.score top_k cands res.
Proof.
  intros Hk. rewrite bwd_expand_eq.
  destruct ((depth =? 0) || (layer <=? 0)); [done|].
  intros H. apply bindM_Ok_inv in H as (cands & Hc & H).
  injection H as H. apply cut_or_none_Some_inv in H as [_ ->].
  exists cands. split; [done|]. by apply rerank_cut_reranked.
Qed.

(** C1 as stated fails: with [top_k = -1] the cut [result[:-2]] of three
    candidates keeps one entry, which is more than [2 * top_k]. *)
Lemma negative_top_k_exceeds_cut :
  Fwd.trace_circuit_forward model4 0 0 1 (-1) =
    Some (Ok [Fwd.Entry 1 0 1 0 1 None]) /\
  ~ ranked_list Fwd.score (-1) [Fwd.Entry 1 0 1 0 1 None].
Proof.
  split; [reflexivity|].
  intros [_ H]. vm_compute in H. by apply H.
Qed.

(** C1, amended. For [top_k >= 0], the list returned by every expansion of
    either tracer is the re-ranked cut of its candidate list: in
    non-increasing order of |write_weight| * |read_weight|, at most
    [2 * top_k] entries, and no candidate left out scores higher than an
    entry kept; every list of a returned trace, at any depth, is in that
    order and within that size. *)
Theorem rerank_cut (layers : layers_t) (top_k layer neuron depth : Z) :
  0 <= top_k ->
  (forall res,
     fwd_expand layers top_k layer neuron depth = Some (Ok (Some res)) ->
     exists cands,
       Fwd.candidates layers top_k (fwd_expand layers top_k) layer neuron depth
         = Some (Ok cands) /\
       reranked Fwd.score top_k cands res) /\
  (forall res,
     Fwd.trace_circuit_forward layers layer neuron depth top_k = Some (Ok res) ->
     fwd_everywhere (ranked_list Fwd.score top_k) res) /\
  (forall res,
     bwd_expand layers top_k layer neuron depth = Some (Ok (Some res)) ->
     exists cands,
       Bwd.candidates layers top_k (bwd_expand layers top_k) layer neuron depth
         = Some (Ok cands) /\
       reranked Bwd.score top_k cands res) /\
  (forall res,
     Bwd.trace_circuit_backward layers layer neuron depth top_k = Some (Ok res) ->
     bwd_everywhere (ranked_list Bwd.score top_k) res).
Proof.
  intros Hk. split; [|split; [|split]]; intros res H.
  - by apply fwd_expand_reranked.
  - by eapply fwd_trace_ranked.
  - by apply bwd_expand_reranked.
  - by eapply bwd_trace_ranked.
Qed.

(** Forward from neuron 0 of layer 0 of [graded4] with [top_k = 1]: the
    three candidates, in scan order, score 4, 6 and 2; the expansion
    returns the two highest in ranking order and leaves the lowest out. *)
Lemma rerank_cut_witness :
  Fwd.candidates graded4 1 (fwd_expand graded4 1) 0 0 1 =
    Some (Ok [ Fwd.Entry 1 0 2 0 2 None; Fwd.Entry 2 1 (-3) 0 2 None;
               Fwd.Entry 3 0 1 0 2 None ]) /\
  fwd_expand graded4 1 0 0 1 =
    Some (Ok (Some [ Fwd.Entry 2 1 (-3) 0 2 None; Fwd.Entry 1 0 2 0 2 None ])) /\
  reranked Fwd.score 1
    [ Fwd.Entry 1 0 2 0 2 None; Fwd.Entry 2 1 (-3) 0 2 None;
      Fwd.Entry 3 0 1 0 2 None ]
    [ Fwd.Entry 2 1 (-3) 0 2 None; Fwd.Entry 1 0 2 0 2 None ] /\
  fwd_everywhere (ranked_list Fwd.score 1)
    [ Fwd.Entry 2 1 (-3) 0 2 None; Fwd.Entry 1 0 2 0 2 None ].
Proof.
  assert (Hk : 0 <= 1) by lia.
  assert (Hc : Fwd.candidates graded4 1 (fwd_expand graded4 1) 0 0 1 =
    Some (Ok [ Fwd.Entry 1 0 2 0 2 None; Fwd.Entry 2 1 (-3) 0 2 None;
               Fwd.Entry 3 0 1 0 2 None ])) by (vm_compute; reflexivity).
  assert (He : fwd_expand graded4 1 0 0 1 =
    Some (Ok (Some [ Fwd.Entry 2 1 (-3) 0 2 None; Fwd.Entry 1 0 2 0 2 None ])))
    by (vm_compute; reflexivity).
  assert (Ht : Fwd.trace_circuit_forward graded4 0 0 1 1 =
    Some (Ok [ Fwd.Entry 2 1 (-3) 0 2 None; Fwd.Entry 1 0 2 0 2 None ]))
    by (vm_compute; reflexivity).
  destruct (rerank_cut graded4 1 0 0 1 Hk) as (Hr & Hall & _).
  split; [exact Hc|]. split; [exact He|]. split.
  - destruct (Hr _ He) as (cands & Hc' & Hre).
    rewrite Hc in Hc'. injection Hc' as <-. exact Hre.
  - exact (Hall _ Ht).
Defined.

(** ** Null and empty lists in a trace *)

Lemma fwd_candidates_top_k_0 layers self layer neuron depth cands :
  Fwd.candidates layers 0 self layer neuron depth = Some (Ok cands) ->
  cands = [].
Proof.
  unfold Fwd.candidates. intros H.
  apply bindM_Ok_inv in H as (c & _ & H). rewrite slice_to_0 in H.
  simpl in H. unfold ret in H. congruence.
Qed.

Lemma bwd_candidates_top_k_0 layers self layer neuron depth cands :
  Bwd.candidates layers 0 self layer neuron depth = Some (Ok cands) ->
  cands = [].
Proof.
  unfold Bwd.candidates. intros H.
  apply bindM_Ok_inv in H as (c & _ & H). rewrite slice_to_0 in H.
  simpl in H. unfold ret in H. congruence.
Qed.

Lemma cut_nonempty {A} (score : A -> Q) top_k (cands : list A) :
  0 < top_k -> cands <> [] ->
  slice_to (top_k * 2) (sort_desc score cands) <> [].
Proof.
  intros Hk Hne. apply slice_to_pos_nonempty; [lia|].
  intros H. by apply sort_desc_nil_inv in H.
Qed.

Lemma fwd_trace_no_empty layers top_k layer neuron depth res :
  0 <= top_k ->
  Fwd.trace_circuit_forward layers layer neuron depth top_k = Some (Ok res) ->
  Forall (fwd_below (fun l => l <> [])) res.
Proof.
  intros Hk H. unfold Fwd.trace_circuit_forward in H.
  apply bindM_Ok_inv in H as ([l|] & Hl & H); injection H as <-; simpl;
    [|constructor].
  revert Hl. intros Hl.
  apply (fwd_trace_everywhere layers top_k (fun l => l <> [])) in Hl;
    [by destruct Hl|].
  intros fuel la ne de cands Hc Hne.
  destruct (Z.eq_dec top_k 0) as [->|Hz].
  - by apply fwd_candidates_top_k_0 in Hc.
  - apply cut_nonempty; [lia|done].
Qed.

Lemma bwd_trace_no_empty layers top_k layer neuron depth res :
  0 <= top_k ->
  Bwd.trace_circuit_backward layers layer neuron depth top_k = Some (Ok res) ->
  Forall (bwd_below (fun l => l <> [])) res.
Proof.
  intros Hk H. unfold Bwd.trace_circuit_backward in H.
  apply bindM_Ok_inv in H as ([l|] & Hl & H); injection H as <-; simpl;
    [|constructor].
  apply (bwd_trace_everywhere layers top_k (fun l => l <> [])) in Hl;
    [by destruct Hl|].
  intros fuel la ne de cands Hc Hne.
  destruct (Z.eq_dec top_k 0) as [->|Hz].
  - by apply bwd_candidates_top_k_0 in Hc.
  - apply cut_nonempty; [lia|done].
Qed.

Lemma fwd_candidates_own_children layers top_k self layer neuron depth cands :
  Fwd.candidates layers top_k self layer neuron depth = Some (Ok cands) ->
  Forall (fun e =>
            self (Fwd.layer e) (Fwd.neuron e) (depth - 1)
              = Some (Ok (Fwd.children e))) cands.
Proof.
  unfold Fwd.candidates. intros H.
  apply bindM_Ok_inv in H as (c & _ & H).
  revert H. apply for_each_inv; [constructor|]. intros s1 ch s1' _ Hs1.
  apply for_each_inv; [done|]. intros s2 next s2' _ Hs H.
  apply bindM_Ok_inv in H as (rs & _ & H).
  revert H. apply for_each_inv; [done|]. intros s3 r s3' _ Hs3 H.
  apply bindM_Ok_inv in H as (sub & Hsub & H).
  injection H as <-. apply Forall_app. split; [done|].
  repeat constructor. done.
Qed.

Lemma bwd_candidates_own_parents layers top_k self layer neuron depth cands :
  Bwd.candidates layers top_k self layer neuron depth = Some (Ok cands) ->
  Forall (fun e =>
            self (Bwd.layer e) (Bwd.neuron e) (depth - 1)
              = Some (Ok (Bwd.parents e))) cands.
Proof.
  unfold Bwd.candidates. intros H.
  apply bindM_Ok_inv in H as (c & _ & H).
  revert H. apply for_each_inv; [constructor|]. intros s1 ch s1' _ Hs1.
  apply for_each_inv; [done|]. intros s2 prev s2' _ Hs H.
  apply bindM_Ok_inv in H as (ws & _ & H).
  revert H. apply for_each_inv; [done|]. intros s3 w s3' _ Hs3 H.
  apply bindM_Ok_inv in H as (sub & Hsub & H).
  injection H as <-. apply Forall_app. split; [done|].
  repeat constructor. done.
Qed.

Lemma fwd_expand_null layers top_k layer neuron depth :
  depth = 0 \/ len layers - 1 <= layer \/
    Fwd.candidates layers top_k (fwd_expand layers top_k) layer neuron depth
      = Some (Ok []) ->
  fwd_expand layers top_k layer neuron depth = Some (Ok None).
Proof.
  rewrite fwd_expand_eq.
  destruct ((depth =? 0) || (layer >=? len layers - 1)) eqn:Hterm; [done|].
  apply orb_false_iff in Hterm as [Hd Hl].
  intros [H|[H|H]]; [lia|lia|]. by rewrite H.
Qed.

Lemma bwd_expand_null layers top_k layer neuron depth :
  depth = 0 \/ layer <= 0 \/
    Bwd.candidates layers top_k (bwd_expand layers top_k) layer neuron depth
      = Some (Ok []) ->
  bwd_expand layers top_k layer neuron depth = Some (Ok None).
Proof.
  rewrite bwd_expand_eq.
  destruct ((depth =? 0) || (layer <=? 0)) eqn:Hterm; [done|].
  apply orb_false_iff in Hterm as [Hd Hl].
  intros [H|[H|H]]; [lia|lia|]. by rewrite H.
Qed.

(** C10 as stated fails: with [top_k = -1] an expansion with two candidates
    returns the empty cut [result[:-2]], and the entry above it carries an
    empty list, not null, as its children (parents). *)
Lemma nested_empty_list :
  Fwd.trace_circuit_forward model4 0 0 2 (-1) =
    Some (Ok [Fwd.Entry 1 0 1 0 1 (Some [])]) /\
  Bwd.trace_circuit_backward model4 3 0 2 (-1) =
    Some (Ok [Bwd.Entry 2 0 1 0 1 (Some [])]).
Proof. split; reflexivity. Qed.

Lemma fwd_expand_own_children layers top_k layer neuron depth cands :
  Fwd.candidates layers top_k (fwd_expand layers top_k) layer neuron depth
    = Some (Ok cands) ->
  Forall (fun e =>
    fwd_expand layers top_k (Fwd.layer e) (Fwd.neuron e) (depth - 1)
      = Some (Ok (Fwd.children e)) /\
    (depth - 1 = 0 \/ len layers - 1 <= Fwd.layer e \/
       Fwd.candidates layers top_k (fwd_expand layers top_k)
         (Fwd.layer e) (Fwd.neuron e) (depth - 1) = Some (Ok []) ->
     Fwd.children e = None)) cands.
Proof.
  intros H. apply fwd_candidates_own_children in H.
  eapply Forall_impl; [exact H|]. intros e He. split; [done|].
  intros Hnull. apply fwd_expand_null in Hnull. congruence.
Qed.

Lemma bwd_expand_own_parents layers top_k layer neuron depth cands :
  Bwd.candidates layers top_k (bwd_expand layers top_k) layer neuron depth
    = Some (Ok cands) ->
  Forall (fun e =>
    bwd_expand layers top_k (Bwd.layer e) (Bwd.neuron e) (depth - 1)
      = Some (Ok (Bwd.parents e)) /\
    (depth - 1 = 0 \/ Bwd.layer e <= 0 \/
       Bwd.candidates layers top_k (bwd_expand layers top_k)
         (Bwd.layer e) (Bwd.neuron e) (depth - 1) = Some (Ok []) ->
     Bwd.parents e = None)) cands.
Proof.
  intros H. apply bwd_candidates_own_parents in H.
  eapply Forall_impl; [exact H|]. intros e He. split; [done|].
  intros Hnull. apply bwd_expand_null in Hnull. congruence.
Qed.

Lemma fwd_tracer_cut layers layer neuron depth top_k res :
  Fwd.trace_circuit_forward layers layer neuron depth top_k = Some (Ok res) ->
  res = [] \/
  exists cands,
    Fwd.candidates layers top_k (fwd_expand layers top_k) layer neuron depth
      = Some (Ok cands) /\
    res = slice_to (top_k * 2) (sort_desc Fwd.score cands).
Proof.
  unfold Fwd.trace_circuit_forward.
  fold (fwd_expand layers top_k layer neuron depth). intros H.
  apply bindM_Ok_inv in H as ([l|] & Hl & H); injection H as <-; simpl;
    [right|by left].
  rewrite fwd_expand_eq in Hl.
  destruct ((depth =? 0) || (layer >=? len layers - 1)); [done|].
  apply bindM_Ok_inv in Hl as (cands & Hc & Hl). injection Hl as Hl.
  apply cut_or_none_Some_inv in Hl as [_ ->]. eauto.
Qed.

Lemma bwd_tracer_cut layers layer neuron depth top_k res :
  Bwd.trace_circuit_backward layers layer neuron depth top_k = Some (Ok res) ->
  res = [] \/
  exists cands,
    Bwd.candidates layers top_k (bwd_expand layers top_k) layer neuron depth
      = Some (Ok cands) /\
    res = slice_to (top_k * 2) (sort_desc Bwd.score cands).
Proof.
  unfold Bwd.trace_circuit_backward.
  fold (bwd_expand layers top_k layer neuron depth). intros H.
  apply bindM_Ok_inv in H as ([l|] & Hl & H); injection H as <-; simpl;
    [right|by left].
  rewrite bwd_expand_eq in Hl.
  destruct ((depth =? 0) || (layer <=? 0)); [done|].
  apply bindM_Ok_inv in Hl as (cands & Hc & Hl). injection Hl as Hl.
  apply cut_or_none_Some_inv in Hl as [_ ->]. eauto.
Qed.

(** C10, amended. An expansion returns null when a terminal condition
    holds or its candidate list is empty, and only the entry point turns
    that null into an empty list.  The children (parents) field of every
    candidate, and of every entry of a returned trace, is the value of the
    expansion of the entry's own node with [depth - 1], as it is: null
    when a terminal condition holds at that node or its candidate list is
    empty.  All of this holds for every [top_k]; for [top_k >= 0] no
    children (parents) field anywhere in a returned trace is an empty
    list. *)
Theorem nested_null_not_empty (layers : layers_t) (top_k layer neuron depth : Z) :
  ((depth = 0 \/ len layers - 1 <= layer \/
      Fwd.candidates layers top_k (fwd_expand layers top_k) layer neuron depth
        = Some (Ok []) ->
    fwd_expand layers top_k layer neuron depth = Some (Ok None) /\
    Fwd.trace_circuit_forward layers layer neuron depth top_k = Some (Ok [])) /\
   (forall cands,
      Fwd.candidates layers top_k (fwd_expand layers top_k) layer neuron depth
        = Some (Ok cands) ->
      Forall (fun e =>
        fwd_expand layers top_k (Fwd.layer e) (Fwd.neuron e) (depth - 1)
          = Some (Ok (Fwd.children e)) /\
        (depth - 1 = 0 \/ len layers - 1 <= Fwd.layer e \/
           Fwd.candidates layers top_k (fwd_expand layers top_k)
             (Fwd.layer e) (Fwd.neuron e) (depth - 1) = Some (Ok []) ->
         Fwd.children e = None)) cands) /\
   (forall res,
      Fwd.trace_circuit_forward layers layer neuron depth top_k
        = Some (Ok res) ->
      Forall (fun e =>
        fwd_expand layers top_k (Fwd.layer e) (Fwd.neuron e) (depth - 1)
          = Some (Ok (Fwd.children e)) /\
        (depth - 1 = 0 \/ len layers - 1 <= Fwd.layer e \/
           Fwd.candidates layers top_k (fwd_expand layers top_k)
             (Fwd.layer e) (Fwd.neuron e) (depth - 1) = Some (Ok []) ->
         Fwd.children e = None)) res) /\
   (0 <= top_k ->
    forall res,
      Fwd.trace_circuit_forward layers layer neuron depth top_k
        = Some (Ok res) ->
      Forall (fwd_below (fun l => l <> [])) res)) /\
  ((depth = 0 \/ layer <= 0 \/
      Bwd.candidates layers top_k (bwd_expand layers top_k) layer neuron depth
        = Some (Ok []) ->
    bwd_expand layers top_k layer neuron depth = Some (Ok None) /\
    Bwd.trace_circuit_backward layers layer neuron depth top_k = Some (Ok [])) /\
   (forall cands,
      Bwd.candidates layers top_k (bwd_expand layers top_k) layer neuron depth
        = Some (Ok cands) ->
      Forall (fun e =>
        bwd_expand layers top_k (Bwd.layer e) (Bwd.neuron e) (depth - 1)
          = Some (Ok (Bwd.parents e)) /\
        (depth - 1 = 0 \/ Bwd.layer e <= 0 \/
           Bwd.candidates layers top_k (bwd_expand layers top_k)
             (Bwd.layer e) (Bwd.neuron e) (depth - 1) = Some (Ok []) ->
         Bwd.parents e = None)) cands) /\
   (forall res,
      Bwd.trace_circuit_backward layers layer neuron depth top_k
        = Some (Ok res) ->
      Forall (fun e =>
        bwd_expand layers top_k (Bwd.layer e) (Bwd.neuron e) (depth - 1)
          = Some (Ok (Bwd.parents e)) /\
        (depth - 1 = 0 \/ Bwd.layer e <= 0 \/
           Bwd.candidates layers top_k (bwd_expand layers top_k)
             (Bwd.layer e) (Bwd.neuron e) (depth - 1) = Some (Ok []) ->
         Bwd.parents e = None)) res) /\
   (0 <= top_k ->
    forall res,
      Bwd.trace_circuit_backward layers layer neuron depth top_k
        = Some (Ok res) ->
      Forall (bwd_below (fun l => l <> [])) res)).
Proof.
  split; (split; [|split; [|split]]).
  - intros H. apply fwd_expand_null in H. split; [done|].
    unfold Fwd.trace_circuit_forward. fold (fwd_expand layers top_k layer neuron depth).
    by rewrite H.
  - apply fwd_expand_own_children.
  - intros res H. apply fwd_tracer_cut in H as [->|(cands & Hc & ->)];
      [constructor|].
    apply fwd_expand_own_children in Hc. rewrite Forall_forall in Hc.
    apply Forall_forall. intros e He. apply Hc.
    by apply elem_of_slice_to, elem_of_sort_desc in He.
  - intros Hk res. by apply fwd_trace_no_empty.
  - intros H. apply bwd_expand_null in H. split; [done|].
    unfold Bwd.trace_circuit_backward. fold (bwd_expand layers top_k layer neuron depth).
    by rewrite H.
  - apply bwd_expand_own_parents.
  - intros res H. apply bwd_tracer_cut in H as [->|(cands & Hc & ->)];
      [constructor|].
    apply bwd_expand_own_parents in Hc. rewrite Forall_forall in Hc.
    apply Forall_forall. intros e He. apply Hc.
    by apply elem_of_slice_to, elem_of_sort_desc in He.
  - intros Hk res. by apply bwd_trace_no_empty.
Qed.

(** Forward from neuron 0 of layer 0 of [graded4] with [top_k = 1] and
    [depth = 2]: the entry at layer 2 carries the non-empty expansion of its
    own node; the entry at layer 1, whose neuron writes to no channel,
    carries null although its node is not terminal; no list is empty. *)
Lemma nested_null_not_empty_witness :
  Fwd.trace_circuit_forward graded4 0 0 2 1 =
    Some (Ok [ Fwd.Entry 2 1 (-3) 0 2 (Some [Fwd.Entry 3 1 1 1 5 None]);
               Fwd.Entry 1 0 2 0 2 None ]) /\
  fwd_expand graded4 1 2 1 (2 - 1) = Some (Ok (Some [Fwd.Entry 3 1 1 1 5 None])) /\
  Fwd.candidates graded4 1 (fwd_expand graded4 1) 1 0 (2 - 1) = Some (Ok []) /\
  fwd_expand graded4 1 1 0 (2 - 1) = Some (Ok None) /\
  Forall (fwd_below (fun l => l <> []))
    [ Fwd.Entry 2 1 (-3) 0 2 (Some [Fwd.Entry 3 1 1 1 5 None]);
      Fwd.Entry 1 0 2 0 2 None ].
Proof.
  assert (Hk : 0 <= 1) by lia.
  assert (Ht : Fwd.trace_circuit_forward graded4 0 0 2 1 =
    Some (Ok [ Fwd.Entry 2 1 (-3) 0 2 (Some [Fwd.Entry 3 1 1 1 5 None]);
               Fwd.Entry 1 0 2 0 2 None ])) by (vm_compute; reflexivity).
  assert (Hc : Fwd.candidates graded4 1 (fwd_expand graded4 1) 1 0 (2 - 1) =
    Some (Ok [])) by (vm_compute; reflexivity).
  destruct (nested_null_not_empty graded4 1 0 0 2) as [(_ & _ & Hown & Hne) _].
  destruct (nested_null_not_empty graded4 1 1 0 (2 - 1)) as [(Hnull & _) _].
  pose proof (Hown _ Ht) as Hall.
  apply Forall_cons in Hall as [[H2 _] _]. simpl in H2.
  split; [exact Ht|]. split; [exact H2|]. split; [exact Hc|].
  split; [exact (proj1 (Hnull (or_intror (or_intror Hc))))|].
  exact (Hne Hk _ Ht).
Defined.

(** ** Well-formed models: the tracers do not raise *)

Lemma wf_model_lookup layers d i b :
  wf_model layers d -> layers !! i = Some b ->
  ncols (weight (c_fc (mlp b))) = d /\
  nrows (weight (c_proj (mlp b))) = d /\
  nrows (weight (c_fc (mlp b))) = ncols (weight (c_proj (mlp b))).
Proof.
  intros Hwf Hb. unfold wf_model in Hwf. rewrite Forall_forall in Hwf.
  apply Hwf. by eapply list_elem_of_lookup_2.
Qed.

Lemma valid_neuron_connections layers d layer neuron :
  wf_model layers d -> valid_neuron layers layer neuron ->
  exists wi wo,
    neuron_get_connected_reschannels layers layer neuron =
      Ok {| conn_in := channel_conns wi; conn_out := channel_conns wo |} /\
    length wi = d /\ length wo = d.
Proof.
  intros Hwf (b & Hl & Hb & Hn).
  destruct (wf_model_lookup _ _ _ _ Hwf Hb) as (H1 & H2 & H3).
  unfold neuron_get_connected_reschannels.
  rewrite (getitem_nonneg _ _ _ Hl Hb). simpl.
  rewrite row_ok by (by apply in_range_in_dim). simpl.
  rewrite column_ok by (rewrite <- H3; by apply in_range_in_dim). simpl.
  eexists _, _. split; [done|]. by rewrite !length_map, !length_seq.
Qed.

Lemma in_range_lookup {A} (l : list A) i :
  in_range (length l) i -> exists a, l !! Z.to_nat i = Some a.
Proof.
  intros [H1 H2]. apply lookup_lt_is_Some_2. lia.
Qed.

Lemma readers_valid layers d next ch top_k :
  wf_model layers d -> in_range (length layers) next -> in_range d ch ->
  exists rs,
    find_neurons_reading_channel layers next ch top_k = Ok rs /\
    Forall (fun r => valid_neuron layers next (neuron_id r)) rs.
Proof.
  intros Hwf Hnext Hch. destruct (in_range_lookup _ _ Hnext) as [b Hb].
  destruct (wf_model_lookup _ _ _ _ Hwf Hb) as (H1 & H2 & H3).
  destruct (find_neurons_reading_channel_eq layers next ch top_k b)
    as (ws & _ & Hlen & ->).
  { apply getitem_nonneg; [apply Hnext|done]. }
  { rewrite H1. by apply in_range_in_dim. }
  eexists. split; [done|]. rewrite Forall_forall. intros r Hr.
  apply elem_of_slice_to, elem_of_sort_desc, elem_of_neuron_conns in Hr
    as (Hr0 & Hr1 & _).
  apply lookup_lt_Some in Hr1.
  exists b. split; [apply Hnext|]. split; [done|]. unfold in_range. lia.
Qed.

Lemma writers_valid layers d prev ch top_k :
  wf_model layers d -> in_range (length layers) prev -> in_range d ch ->
  exists ws,
    find_neurons_writing_channel layers prev ch top_k = Ok ws /\
    Forall (fun w => valid_neuron layers prev (neuron_id w)) ws.
Proof.
  intros Hwf Hprev Hch. destruct (in_range_lookup _ _ Hprev) as [b Hb].
  destruct (wf_model_lookup _ _ _ _ Hwf Hb) as (H1 & H2 & H3).
  destruct (find_neurons_writing_channel_eq layers prev ch top_k b)
    as (ws & _ & Hlen & ->).
  { apply getitem_nonneg; [apply Hprev|done]. }
  { rewrite H2. by apply in_range_in_dim. }
  eexists. split; [done|]. rewrite Forall_forall. intros r Hr.
  apply elem_of_slice_to, elem_of_sort_desc, elem_of_neuron_conns in Hr
    as (Hr0 & Hr1 & _).
  apply lookup_lt_Some in Hr1.
  exists b. split; [apply Hprev|]. split; [done|]. unfold in_range. lia.
Qed.

Lemma kept_channels_in_range top_k ws ch :
  ch ∈ slice_to top_k (sort_desc abs_channel_weight (channel_conns ws)) ->
  in_range (length ws) (channel_id ch).
Proof.
  intros H.
  apply elem_of_slice_to, elem_of_sort_desc, elem_of_channel_conns in H
    as (H0 & H1 & _).
  apply lookup_lt_Some in H1. unfold in_range. lia.
Qed.

Lemma bindM_no_raise {A B} (m : M A) (k : A -> M B) :
  no_raise m -> (forall a, m = Some (Ok a) -> no_raise (k a)) ->
  no_raise (bindM m k).
Proof.
  unfold no_raise. intros Hm Hk e.
  destruct m as [[a|e']|]; simpl; [by apply Hk|by destruct (Hm e')|done].
Qed.

Lemma for_each_no_raise {A S} (l : list A) (s : S) body :
  (forall s x, x ∈ l -> no_raise (body s x)) -> no_raise (for_each l s body).
Proof.
  revert s. induction l as [|x l IH]; intros s H; simpl; [by intros e|].
  apply bindM_no_raise; [apply H, list_elem_of_here|].
  intros s' _. apply IH. intros s0 y Hy. apply H. by apply list_elem_of_further.
Qed.

Lemma no_raise_ret {A} (a : A) : no_raise (ret a).
Proof. by intros e. Qed.

Lemma no_raise_is_Some_Ok {A} (m : M A) :
  no_raise m -> is_Some m -> exists a, m = Some (Ok a).
Proof. intros Hn [[a|e] ->]; [eauto|by destruct (Hn e)]. Qed.

Lemma fwd_trace_no_raise layers d top_k :
  wf_model layers d ->
  forall fuel layer neuron depth,
    valid_neuron layers layer neuron ->
    no_raise (Fwd.trace_from_neuron layers top_k fuel layer neuron depth).
Proof.
  intros Hwf. induction fuel as [|fuel IH]; intros layer neuron depth Hv;
    rewrite fwd_trace_unfold;
    destruct ((depth =? 0) || (layer >=? len layers - 1));
    try apply no_raise_ret; [by intros e|].
  apply bindM_no_raise; [|intros; apply no_raise_ret].
  unfold Fwd.candidates.
  destruct (valid_neuron_connections _ _ _ _ Hwf Hv) as (wi & wo & -> & Hwi & Hwo).
  destruct Hv as (b & Hl & _). simpl.
  apply for_each_no_raise. intros s ch Hch.
  apply kept_channels_in_range in Hch. rewrite Hwo in Hch.
  apply for_each_no_raise. intros s' next Hnext.
  apply elem_of_range in Hnext.
  destruct (readers_valid layers d next (channel_id ch) top_k Hwf)
    as (rs & -> & Hrs); [unfold in_range, len in *; lia|done|].
  simpl. apply for_each_no_raise. intros s'' r Hr.
  rewrite Forall_forall in Hrs.
  apply bindM_no_raise; [by apply IH, Hrs|]. intros; apply no_raise_ret.
Qed.

Lemma bwd_trace_no_raise layers d top_k :
  wf_model layers d ->
  forall fuel layer neuron depth,
    valid_neuron layers layer neuron ->
    no_raise (Bwd.trace_from_neuron layers top_k fuel layer neuron depth).
Proof.
  intros Hwf. induction fuel as [|fuel IH]; intros layer neuron depth Hv;
    rewrite bwd_trace_unfold;
    destruct ((depth =? 0) || (layer <=? 0));
    try apply no_raise_ret; [by intros e|].
  apply bindM_no_raise; [|intros; apply no_raise_ret].
  unfold Bwd.candidates.
  destruct (valid_neuron_connections _ _ _ _ Hwf Hv) as (wi & wo & -> & Hwi & Hwo).
  destruct Hv as (b & Hl & Hb & _). apply lookup_lt_Some in Hb. simpl.
  apply for_each_no_raise. intros s ch Hch.
  apply kept_channels_in_range in Hch. rewrite Hwi in Hch.
  apply for_each_no_raise. intros s' prev Hprev.
  apply elem_of_range_down in Hprev.
  destruct (writers_valid layers d prev (channel_id ch) top_k Hwf)
    as (ws & -> & Hws); [unfold in_range; lia|done|].
  simpl. apply for_each_no_raise. intros s'' w Hw.
  rewrite Forall_forall in Hws.
  apply bindM_no_raise; [by apply IH, Hws|]. intros; apply no_raise_ret.
Qed.

Lemma fwd_trace_returns layers d layer neuron depth top_k :
  wf_model layers d -> valid_neuron layers layer neuron ->
  exists res,
    Fwd.trace_circuit_forward layers layer neuron depth top_k = Some (Ok res).
Proof.
  intros Hwf Hv. apply no_raise_is_Some_Ok.
  - unfold Fwd.trace_circuit_forward.
    apply bindM_no_raise; [by eapply fwd_trace_no_raise|].
    intros; apply no_raise_ret.
  - unfold Fwd.trace_circuit_forward. apply bindM_is_Some; [|intros; by eexists].
    by apply (fwd_budget_enough layers top_k (Fwd.budget layers layer)
                (Fwd.budget layers layer) layer neuron depth).
Qed.

Lemma bwd_trace_returns layers d layer neuron depth top_k :
  wf_model layers d -> valid_neuron layers layer neuron ->
  exists res,
    Bwd.trace_circuit_backward layers layer neuron depth top_k = Some (Ok res).
Proof.
  intros Hwf Hv. apply no_raise_is_Some_Ok.
  - unfold Bwd.trace_circuit_backward.
    apply bindM_no_raise; [by eapply bwd_trace_no_raise|].
    intros; apply no_raise_ret.
  - unfold Bwd.trace_circuit_backward. apply bindM_is_Some; [|intros; by eexists].
    by apply (bwd_budget_enough layers top_k (Bwd.budget layer)
                (Bwd.budget layer) layer neuron depth).
Qed.

(** ** Query service *)

Lemma in_range_dec n i : {in_range n i} + {~ in_range n i}.
Proof.
  unfold in_range.
  destruct (Z_le_dec 0 i); [|right; lia].
  destruct (Z_lt_dec i (Z.of_nat n)); [left; lia|right; lia].
Qed.

Lemma neuron_handler_bad_layer fwd bwd layers layer neuron depth top_k :
  ~ in_range (length layers) layer ->
  neuron_handler fwd bwd layers layer neuron depth top_k =
    Some (Raise (HTTPException 400 (layer_range_detail (len layers)))).
Proof.
  intros H. unfold neuron_handler, in_range, len in *.
  destruct (Z.ltb_spec layer 0); [done|].
  destruct (Z.geb_spec layer (Z.of_nat (length layers))); [done|lia].
Qed.

Lemma neuron_handler_layer_ok fwd bwd layers layer neuron depth top_k b :
  0 <= layer -> layers !! Z.to_nat layer = Some b ->
  neuron_handler fwd bwd layers layer neuron depth top_k =
    let mlp_size := Z.of_nat (nrows (weight (c_fc (mlp b)))) in
    if (neuron <? 0) || (neuron >=? mlp_size) then
      lift (Raise (HTTPException 400 (neuron_range_detail mlp_size)))
    else
      let+ tf := fwd layers layer neuron depth top_k in
      let+ tb := bwd layers layer neuron depth top_k in
      ret {| resp_layer := layer; resp_neuron := neuron;
             trace_forward := tf; trace_backward := tb |}.
Proof.
  intros Hl Hb. unfold neuron_handler.
  pose proof (lookup_lt_Some _ _ _ Hb) as Hlt. unfold len.
  destruct (Z.ltb_spec layer 0); [lia|].
  destruct (Z.geb_spec layer (Z.of_nat (length layers))); [lia|].
  simpl. by rewrite (getitem_nonneg _ _ _ Hl Hb).
Qed.

Lemma neuron_handler_bad_neuron fwd bwd layers layer neuron depth top_k b :
  0 <= layer -> layers !! Z.to_nat layer = Some b ->
  ~ in_range (nrows (weight (c_fc (mlp b)))) neuron ->
  neuron_handler fwd bwd layers layer neuron depth top_k =
    Some (Raise (HTTPException 400
      (neuron_range_detail (Z.of_nat (nrows (weight (c_fc (mlp b)))))))).
Proof.
  intros Hl Hb Hn. rewrite (neuron_handler_layer_ok _ _ _ _ _ _ _ b) by done.
  unfold in_range in Hn. cbv zeta.
  destruct (Z.ltb_spec neuron 0); [done|].
  destruct (Z.geb_spec neuron (Z.of_nat (nrows (weight (c_fc (mlp b))))));
    [done|lia].
Qed.

Lemma neuron_handler_valid fwd bwd layers layer neuron depth top_k :
  valid_neuron layers layer neuron ->
  neuron_handler fwd bwd layers layer neuron depth top_k =
    let+ tf := fwd layers layer neuron depth top_k in
    let+ tb := bwd layers layer neuron depth top_k in
    ret {| resp_layer := layer; resp_neuron := neuron;
           trace_forward := tf; trace_backward := tb |}.
Proof.
  intros (b & Hl & Hb & Hn).
  rewrite (neuron_handler_layer_ok _ _ _ _ _ _ _ b) by done.
  unfold in_range in Hn. cbv zeta.
  destruct (Z.ltb_spec neuron 0); [lia|].
  destruct (Z.geb_spec neuron (Z.of_nat (nrows (weight (c_fc (mlp b))))));
    [lia|done].
Qed.

Lemma neuron_handler_invalid fwd bwd layers layer neuron depth top_k :
  ~ valid_neuron layers layer neuron ->
  exists detail,
    neuron_handler fwd bwd layers layer neuron depth top_k =
      Some (Raise (HTTPException 400 detail)).
Proof.
  intros Hv. destruct (in_range_dec (length layers) layer) as [Hl|Hl].
  - destruct (in_range_lookup _ _ Hl) as [b Hb].
    eexists. apply (neuron_handler_bad_neuron _ _ _ _ _ _ _ b);
      [apply Hl|done|].
    intros Hn. apply Hv. exists b. split; [apply Hl|done].
  - eexists. by apply neuron_handler_bad_layer.
Qed.

(** C7. [get_neuron_connections] raises the client error 400, with the
    valid range in its message, exactly when the layer is outside
    [0, numLayers) or the neuron is outside [0, mlpSize(layer)); the error
    does not depend on the tracers, which are not called.  Otherwise, on a
    model of well-formed shapes, both tracers return and the response holds
    the layer, the neuron and their two results. *)
Theorem get_neuron_connections_checked
    (layers : layers_t) (d_model : nat) (layer neuron depth top_k : Z) :
  wf_model layers d_model ->
  (~ in_range (length layers) layer ->
   forall fwd bwd,
     neuron_handler fwd bwd layers layer neuron depth top_k =
       Some (Raise (HTTPException 400
         ("Layer must be between 0 and " +:+ pretty (len layers - 1))))) /\
  (forall b, 0 <= layer -> layers !! Z.to_nat layer = Some b ->
     ~ in_range (nrows (weight (c_fc (mlp b)))) neuron ->
     forall fwd bwd,
       neuron_handler fwd bwd layers layer neuron depth top_k =
         Some (Raise (HTTPException 400
           ("Neuron index must be between 0 and " +:+
            pretty (Z.of_nat (nrows (weight (c_fc (mlp b)))) - 1))))) /\
  (valid_neuron layers layer neuron ->
   exists tf tb,
     Fwd.trace_circuit_forward layers layer neuron depth top_k = Some (Ok tf) /\
     Bwd.trace_circuit_backward layers layer neuron depth top_k = Some (Ok tb) /\
     get_neuron_connections layers layer neuron depth top_k =
       Some (Ok {| resp_layer := layer; resp_neuron := neuron;
                   trace_forward := tf; trace_backward := tb |})) /\
  ((exists detail,
      get_neuron_connections layers layer neuron depth top_k =
        Some (Raise (HTTPException 400 detail)))
   <-> ~ valid_neuron layers layer neuron).
Proof.
  intros Hwf.
  assert (Hok : valid_neuron layers layer neuron ->
    exists tf tb,
     Fwd.trace_circuit_forward layers layer neuron depth top_k = Some (Ok tf) /\
     Bwd.trace_circuit_backward layers layer neuron depth top_k = Some (Ok tb) /\
     get_neuron_connections layers layer neuron depth top_k =
       Some (Ok {| resp_layer := layer; resp_neuron := neuron;
                   trace_forward := tf; trace_backward := tb |})).
  { intros Hv.
    destruct (fwd_trace_returns layers d_model layer neuron depth top_k Hwf Hv)
      as [tf Htf].
    destruct (bwd_trace_returns layers d_model layer neuron depth top_k Hwf Hv)
      as [tb Htb].
    exists tf, tb. split; [done|]. split; [done|].
    unfold get_neuron_connections. rewrite neuron_handler_valid by done.
    by rewrite Htf, Htb. }
  split; [intros; by apply neuron_handler_bad_layer|].
  split; [intros; by apply neuron_handler_bad_neuron|].
  split; [done|]. split.
  - intros [detail Hd] Hv. destruct (Hok Hv) as (tf & tb & _ & _ & H).
    congruence.
  - apply neuron_handler_invalid.
Qed.

Lemma get_neuron_connections_checked_witness :
  exists tf tb,
    Fwd.trace_circuit_forward model3 1 0 2 1 = Some (Ok tf) /\
    Bwd.trace_circuit_backward model3 1 0 2 1 = Some (Ok tb) /\
    get_neuron_connections model3 1 0 2 1 =
      Some (Ok {| resp_layer := 1; resp_neuron := 0;
                  trace_forward := tf; trace_backward := tb |}).
Proof.
  apply (get_neuron_connections_checked model3 2 1 0 2 1).
  - repeat constructor.
  - exists dense2. split; [lia|]. split; [reflexivity|].
    unfold in_range. simpl. lia.
Defined.

Lemma for_each_r_app {A S} (l1 l2 : list A) (s : S) body :
  for_each_r (l1 ++ l2) s body =
    let* s' := for_each_r l1 s body in for_each_r l2 s' body.
Proof.
  revert s. induction l1 as [|x l1 IH]; intros s; simpl; [done|].
  destruct (body s x) as [s'|e]; simpl; [apply IH|done].
Qed.

Lemma range_0_S n :
  range 0 (Z.of_nat (S n)) = range 0 (Z.of_nat n) ++ [Z.of_nat n].
Proof. unfold range. rewrite !Z.sub_0_r. by rewrite seqZ_S. Qed.

(** One iteration of the loop over layers, for either mapping. *)
Lemma by_layer_step (f : Z -> result (list neuron_conn))
    (m : gmap Z (list neuron_conn)) (n : nat) (xs : list neuron_conn) :
  (forall i rs, m !! i = Some rs <-> in_range n i /\ f i = Ok rs /\ rs <> []) ->
  f (Z.of_nat n) = Ok xs ->
  forall i rs,
    match xs with
    | [] => m
    | _ :: _ => <[Z.of_nat n := xs]> m
    end !! i = Some rs
    <-> in_range (S n) i /\ f i = Ok rs /\ rs <> [].
Proof.
  intros Hm Hxs i rs. unfold in_range in *.
  destruct (decide (i = Z.of_nat n)) as [->|Hne].
  - assert (Hnone : m !! Z.of_nat n = None).
    { destruct (m !! Z.of_nat n) as [rs'|] eqn:E; [|done].
      apply Hm in E. lia. }
    destruct xs as [|x xs].
    + rewrite Hnone. split; [done|]. intros (_ & H & Hrs). congruence.
    + rewrite lookup_insert_eq. split.
      * intros [= <-]. split; [lia|]. done.
      * intros (_ & H & _). congruence.
  - assert (Hsame : match xs with
                    | [] => m
                    | _ :: _ => <[Z.of_nat n := xs]> m
                    end !! i = m !! i).
    { destruct xs; [done|]. by apply lookup_insert_ne. }
    rewrite Hsame, Hm. split; intros (H1 & H2); (split; [lia|done]).
Qed.

Lemma by_layer_loop layers d ch top_k n :
  wf_model layers d -> in_range d ch -> (n <= length layers)%nat ->
  exists st : gmap Z (list neuron_conn) * gmap Z (list neuron_conn),
    for_each_r (range 0 (Z.of_nat n)) (∅, ∅) (fun st layer_idx =>
      let* readers := find_neurons_reading_channel layers layer_idx ch top_k in
      let* writers := find_neurons_writing_channel layers layer_idx ch top_k in
      let readers_by_layer :=
        match readers with
        | [] => fst st
        | _ :: _ => <[layer_idx := readers]> (fst st)
        end in
      let writers_by_layer :=
        match writers with
        | [] => snd st
        | _ :: _ => <[layer_idx := writers]> (snd st)
        end in
      Ok (readers_by_layer, writers_by_layer)) = Ok st /\
    (forall i rs, fst st !! i = Some rs <->
       in_range n i /\
       find_neurons_reading_channel layers i ch top_k = Ok rs /\ rs <> []) /\
    (forall i ws, snd st !! i = Some ws <->
       in_range n i /\
       find_neurons_writing_channel layers i ch top_k = Ok ws /\ ws <> []).
Proof.
  intros Hwf Hch. induction n as [|n IH]; intros Hn.
  - exists (∅, ∅). split; [done|]. unfold in_range.
    split; intros i rs; simpl; rewrite lookup_empty; split; try done; lia.
  - destruct IH as (st & Hst & Hr & Hw); [lia|].
    rewrite range_0_S, for_each_r_app, Hst. simpl.
    destruct (readers_valid layers d (Z.of_nat n) ch top_k Hwf)
      as (rs & Hrs & _); [unfold in_range; lia|done|].
    destruct (writers_valid layers d (Z.of_nat n) ch top_k Hwf)
      as (ws & Hws & _); [unfold in_range; lia|done|].
    rewrite Hrs, Hws. simpl. eexists. split; [done|]. simpl. split.
    + by apply (by_layer_step
        (fun i => find_neurons_reading_channel layers i ch top_k)).
    + by apply (by_layer_step
        (fun i => find_neurons_writing_channel layers i ch top_k)).
Qed.

Lemma nonzero_entries_zero ws :
  Forall (fun w => (w == 0)%Q) ws -> nonzero_entries ws = [].
Proof.
  intros H. unfold nonzero_entries, enumerate.
  assert (Hz : forall start,
    List.filter (fun iw : Z * Q => nonzero (snd iw)) (enumerate_from start ws)
      = []); [|apply Hz].
  induction H as [|w ws Hw Hws IH]; intros start; simpl; [done|].
  unfold nonzero at 1. apply Qeq_bool_iff in Hw. rewrite Hw. simpl. apply IH.
Qed.

Lemma silent_channel_searches layers d ch top_k i :
  wf_model layers d -> in_range d ch -> in_range (length layers) i ->
  channel_silent layers ch ->
  find_neurons_reading_channel layers i ch top_k = Ok [] /\
  find_neurons_writing_channel layers i ch top_k = Ok [].
Proof.
  intros Hwf Hch Hi Hsilent. destruct (in_range_lookup _ _ Hi) as [b Hb].
  destruct (wf_model_lookup _ _ _ _ Hwf Hb) as (H1 & H2 & H3).
  destruct (Hsilent b) as [Hfc Hproj]; [by eapply list_elem_of_lookup_2|].
  pose proof (getitem_nonneg _ _ _ (proj1 Hi) Hb) as Hg.
  unfold find_neurons_reading_channel, find_neurons_writing_channel.
  rewrite Hg. simpl.
  apply in_range_in_dim in Hch as Hch'.
  rewrite (column_ok (weight (c_fc (mlp b))) ch) by (by rewrite H1).
  rewrite (row_ok (weight (c_proj (mlp b))) ch) by (by rewrite H2). simpl.
  rewrite !position_nonneg by apply Hch.
  unfold neuron_conns. rewrite !nonzero_entries_zero.
  - split; f_equal; unfold slice_to; simpl;
      destruct (0 <=? top_k); first [done | apply firstn_nil].
  - apply Forall_fmap, Forall_forall. intros j _. apply Hproj.
  - apply Forall_fmap, Forall_forall. intros j _. apply Hfc.
Qed.

(** C8. For an in-range channel, [get_channel_connections] returns the
    channel together with two mappings in which a layer is a key exactly
    when its readers (writers) list is non-empty; both mappings are empty
    when no layer has a non-zero entry for the channel.  An out-of-range
    channel raises the client error 400 with the valid range in its
    message. *)
Theorem get_channel_connections_by_layer
    (layers : layers_t) (d_model : nat) (channel top_k : Z) :
  wf_model layers d_model ->
  layers <> [] ->
  (~ in_range d_model channel ->
   get_channel_connections layers channel top_k =
     Raise (HTTPException 400
       ("Channel must be between 0 and " +:+ pretty (Z.of_nat d_model - 1)))) /\
  (in_range d_model channel ->
   exists resp,
     get_channel_connections layers channel top_k = Ok resp /\
     resp_channel_id resp = channel /\
     (forall i rs,
        readers_by_layer resp !! i = Some rs <->
        in_range (length layers) i /\
        find_neurons_reading_channel layers i channel top_k = Ok rs /\
        rs <> []) /\
     (forall i ws,
        writers_by_layer resp !! i = Some ws <->
        in_range (length layers) i /\
        find_neurons_writing_channel layers i channel top_k = Ok ws /\
        ws <> []) /\
     (channel_silent layers channel ->
      readers_by_layer resp = ∅ /\ writers_by_layer resp = ∅)).
Proof.
  intros Hwf Hne. destruct layers as [|l0 layers'] eqn:El; [done|].
  rewrite <- El in *. clear Hne.
  assert (H0 : layers !! Z.to_nat 0 = Some l0) by (by rewrite El).
  destruct (wf_model_lookup _ _ _ _ Hwf H0) as (_ & Hd & _).
  unfold get_channel_connections.
  rewrite (getitem_nonneg layers 0 l0) by done. simpl. rewrite Hd.
  unfold in_range. split.
  - intros Hch. destruct (Z.ltb_spec channel 0); [done|].
    destruct (Z.geb_spec channel (Z.of_nat d_model)); [done|lia].
  - intros Hch. destruct (Z.ltb_spec channel 0); [lia|].
    destruct (Z.geb_spec channel (Z.of_nat d_model)); [lia|]. simpl.
    destruct (by_layer_loop layers d_model channel top_k (length layers) Hwf Hch)
      as (st & Hst & Hr & Hw); [done|].
    unfold len. simpl in Hst. rewrite Hst. simpl. eexists. split; [done|]. simpl.
    split; [done|]. split; [done|]. split; [done|].
    intros Hsilent. split; apply map_empty; intros i.
    + destruct (fst st !! i) as [rs|] eqn:E; [|done].
      apply Hr in E as (Hi & Hf & Hrs).
      destruct (silent_channel_searches layers d_model channel top_k i)
        as [Hr0 _]; try done. congruence.
    + destruct (snd st !! i) as [ws|] eqn:E; [|done].
      apply Hw in E as (Hi & Hf & Hws).
      destruct (silent_channel_searches layers d_model channel top_k i)
        as [_ Hw0]; try done. congruence.
Qed.

Lemma get_channel_connections_by_layer_witness :
  exists resp,
    get_channel_connections model3 0 5 = Ok resp /\
    resp_channel_id resp = 0 /\
    (forall i rs,
       readers_by_layer resp !! i = Some rs <->
       in_range (length model3) i /\
       find_neurons_reading_channel model3 i 0 5 = Ok rs /\
       rs <> []).
Proof.
  assert (Hwf : wf_model model3 2) by repeat constructor.
  assert (Hne : model3 <> []) by discriminate.
  assert (Hch : in_range 2 0) by (unfold in_range; simpl; lia).
  destruct (proj2 (get_channel_connections_by_layer model3 2 0 5 Hwf Hne) Hch)
    as (resp & H1 & H2 & H3 & _).
  exists resp. split; [exact H1|]. split; [exact H2|exact H3].
Defined.

(** ** The scenarios of the specification *)

Example scenario_connections :
  neuron_get_connected_reschannels scenario 0 2 =
    Ok {| conn_in := [ {| channel_id := 1; channel_weight := 1 # 2 |} ];
          conn_out := [ {| channel_id := 3; channel_weight := 4 # 5 |} ] |}.
Proof. reflexivity. Qed.

Example scenario_no_connections :
  neuron_get_connected_reschannels scenario 1 0 =
    Ok {| conn_in := []; conn_out := [] |}.
Proof. reflexivity. Qed.

Example scenario_trace_forward :
  Fwd.trace_circuit_forward scenario 0 2 1 1 = Some (Ok []).
Proof. reflexivity. Qed.

Example scenario_silent_channel :
  get_channel_connections scenario 0 10 =
    Ok {| resp_channel_id := 0;
          readers_by_layer := ∅;
          writers_by_layer := ∅ |}.
Proof. reflexivity. Qed.

Example scenario_bad_layer :
  get_neuron_connections scenario 2 0 2 3 =
    Some (Raise (HTTPException 400 "Layer must be between 0 and 1")).
Proof. reflexivity. Qed.

(** * Further properties of the code *)

(** ** Contents of the connection lists *)

Lemma lookup_row_at t i j w :
  row_at t i !! j = Some w <-> (j < ncols t)%nat /\ w = entry t i j.
Proof.
  unfold row_at. rewrite list_lookup_fmap.
  destruct (seq 0 (ncols t) !! j) as [j'|] eqn:E; simpl.
  - apply lookup_seq in E as [-> Hj]. simpl. split.
    + intros [= <-]. done.
    + intros [_ ->]. done.
  - split; [done|]. intros [Hj _].
    destruct (lookup_lt_is_Some_2 (seq 0 (ncols t)) j) as [x Hx];
      [by rewrite length_seq|congruence].
Qed.

Lemma lookup_column_at t j i w :
  column_at t j !! i = Some w <-> (i < nrows t)%nat /\ w = entry t i j.
Proof.
  unfold column_at. rewrite list_lookup_fmap.
  destruct (seq 0 (nrows t) !! i) as [i'|] eqn:E; simpl.
  - apply lookup_seq in E as [-> Hi]. simpl. split.
    + intros [= <-]. done.
    + intros [_ ->]. done.
  - split; [done|]. intros [Hi _].
    destruct (lookup_lt_is_Some_2 (seq 0 (nrows t)) i) as [x Hx];
      [by rewrite length_seq|congruence].
Qed.

Lemma row_in_range t i :
  in_range (nrows t) i -> row t i = Ok (row_at t (Z.to_nat i)).
Proof.
  intros H. rewrite row_ok by (by apply in_range_in_dim).
  rewrite position_nonneg by apply H. done.
Qed.

Lemma column_in_range t j :
  in_range (ncols t) j -> column t j = Ok (column_at t (Z.to_nat j)).
Proof.
  intros H. rewrite column_ok by (by apply in_range_in_dim).
  rewrite position_nonneg by apply H. done.
Qed.

Lemma channel_conns_sorted ws :
  StronglySorted (fun x y => channel_id x < channel_id y) (channel_conns ws).
Proof. apply StronglySorted_map. simpl. apply nonzero_entries_sorted. Qed.

Lemma connections_in_range layers layer neuron b :
  0 <= layer -> layers !! Z.to_nat layer = Some b ->
  in_range (nrows (weight (c_fc (mlp b)))) neuron ->
  in_range (ncols (weight (c_proj (mlp b)))) neuron ->
  neuron_get_connected_reschannels layers layer neuron =
    Ok {| conn_in :=
            channel_conns (row_at (weight (c_fc (mlp b))) (Z.to_nat neuron));
          conn_out :=
            channel_conns
              (column_at (weight (c_proj (mlp b))) (Z.to_nat neuron)) |}.
Proof.
  intros Hl Hb H1 H2. unfold neuron_get_connected_reschannels.
  rewrite (getitem_nonneg _ _ _ Hl Hb). simpl.
  rewrite (row_in_range _ _ H1). simpl.
  by rewrite (column_in_range _ _ H2).
Qed.

(** X1. For an in-range layer and neuron, the [in] list holds exactly the
    non-zero entries of the neuron's row of [c_fc] and the [out] list
    exactly the non-zero entries of its column of [c_proj], each with its
    channel index and in increasing channel order. *)
Theorem connections_exact (layers : layers_t) (layer neuron : Z) (b : block) :
  0 <= layer ->
  layers !! Z.to_nat layer = Some b ->
  in_range (nrows (weight (c_fc (mlp b)))) neuron ->
  in_range (ncols (weight (c_proj (mlp b)))) neuron ->
  exists c,
    neuron_get_connected_reschannels layers layer neuron = Ok c /\
    StronglySorted (fun x y => channel_id x < channel_id y) (conn_in c) /\
    StronglySorted (fun x y => channel_id x < channel_id y) (conn_out c) /\
    (forall x, x ∈ conn_in c <->
       in_range (ncols (weight (c_fc (mlp b)))) (channel_id x) /\
       channel_weight x =
         entry (weight (c_fc (mlp b)))
           (Z.to_nat neuron) (Z.to_nat (channel_id x)) /\
       ~ (channel_weight x == 0)%Q) /\
    (forall x, x ∈ conn_out c <->
       in_range (nrows (weight (c_proj (mlp b)))) (channel_id x) /\
       channel_weight x =
         entry (weight (c_proj (mlp b)))
           (Z.to_nat (channel_id x)) (Z.to_nat neuron) /\
       ~ (channel_weight x == 0)%Q).
Proof.
  intros Hl Hb H1 H2. eexists. split; [by apply connections_in_range|].
  simpl. split; [apply channel_conns_sorted|].
  split; [apply channel_conns_sorted|].
  split; intros x; rewrite elem_of_channel_conns; unfold in_range.
  - rewrite lookup_row_at. split.
    + intros (H0 & [Hlt ->] & Hnz). repeat split; [done|lia|done].
    + intros ([H0 Hlt] & Hw & Hnz). repeat split; [done|lia|done|done].
  - rewrite lookup_column_at. split.
    + intros (H0 & [Hlt ->] & Hnz). repeat split; [done|lia|done].
    + intros ([H0 Hlt] & Hw & Hnz). repeat split; [done|lia|done|done].
Qed.

Lemma connections_exact_witness :
  exists c,
    neuron_get_connected_reschannels scenario 0 2 = Ok c /\
    (forall x, x ∈ conn_in c <->
       in_range 4 (channel_id x) /\
       channel_weight x =
         entry (weight (c_fc (mlp (mk_block 4 4
           [[0; 0; 0; 0]; [0; 0; 0; 0]; [0; 1 # 2; 0; 0]; [0; 0; 0; 0]]%Q
           [[0; 0; 0; 0]; [0; 0; 0; 0]; [0; 0; 0; 0]; [0; 0; 4 # 5; 0]]%Q))))
           (Z.to_nat 2) (Z.to_nat (channel_id x)) /\
       ~ (channel_weight x == 0)%Q).
Proof.
  assert (H0 : 0 <= 0) by lia.
  assert (H1 : in_range 4 2) by (unfold in_range; simpl; lia).
  destruct (connections_exact scenario 0 2 _ H0 eq_refl H1 H1)
    as (c & Hc & _ & _ & Hin & _).
  exists c. split; [exact Hc|exact Hin].
Defined.

(** X2. A neuron whose [c_fc] row and [c_proj] column are all zero has no
    connections: both lists are empty. *)
Theorem connections_of_silent_neuron
    (layers : layers_t) (layer neuron : Z) (b : block) :
  0 <= layer ->
  layers !! Z.to_nat layer = Some b ->
  in_range (nrows (weight (c_fc (mlp b)))) neuron ->
  in_range (ncols (weight (c_proj (mlp b)))) neuron ->
  (forall j, (entry (weight (c_fc (mlp b))) (Z.to_nat neuron) j == 0)%Q) ->
  (forall i, (entry (weight (c_proj (mlp b))) i (Z.to_nat neuron) == 0)%Q) ->
  neuron_get_connected_reschannels layers layer neuron =
    Ok {| conn_in := []; conn_out := [] |}.
Proof.
  intros Hl Hb H1 H2 Hrow Hcol.
  rewrite (connections_in_range _ _ _ b) by done.
  unfold channel_conns. rewrite !nonzero_entries_zero; [done| |].
  - unfold column_at. apply Forall_fmap, Forall_forall. intros i _. apply Hcol.
  - unfold row_at. apply Forall_fmap, Forall_forall. intros j _. apply Hrow.
Qed.

Lemma connections_of_silent_neuron_witness :
  neuron_get_connected_reschannels scenario 1 3 =
    Ok {| conn_in := []; conn_out := [] |}.
Proof.
  apply (connections_of_silent_neuron scenario 1 3 (mk_block 4 4 [] []));
    [lia | reflexivity | unfold in_range; simpl; lia
     | unfold in_range; simpl; lia | | ].
  - intros j. simpl. by destruct j.
  - intros i. simpl. destruct i as [|i]; [done|]. by destruct i.
Defined.

(** ** Contents of the channel searches *)

Lemma elem_of_ranking ws x : x ∈ ranking ws <-> neuron_entry_of ws x.
Proof. unfold ranking. by rewrite elem_of_sort_desc, elem_of_neuron_conns. Qed.

Lemma StronglySorted_lt_NoDup {A} (f : A -> Z) (l : list A) :
  StronglySorted (fun x y => f x < f y) l -> NoDup (f <$> l).
Proof.
  induction 1 as [|x l Hs IH Hf]; simpl; [constructor|].
  apply NoDup_cons. split; [|done].
  intros Hx. apply list_elem_of_fmap in Hx as (y & Hxy & Hy).
  rewrite Forall_forall in Hf. specialize (Hf y Hy). lia.
Qed.

Lemma ranking_NoDup ws : NoDup (neuron_id <$> ranking ws).
Proof.
  unfold ranking. rewrite sort_desc_perm.
  apply StronglySorted_lt_NoDup, neuron_conns_sorted.
Qed.

Lemma ranking_length ws : (length (ranking ws) <= length ws)%nat.
Proof.
  unfold ranking. rewrite sort_desc_length. apply neuron_conns_length.
Qed.

Lemma slice_to_NoDup {A B} (f : A -> B) k (l : list A) :
  NoDup (f <$> l) -> NoDup (f <$> slice_to k l).
Proof.
  destruct (slice_to_prefix k l) as [rest H]. intros Hn.
  rewrite H, fmap_app in Hn. by apply NoDup_app in Hn as [Hn _].
Qed.

Lemma slice_to_nonneg {A} k (l : list A) :
  0 <= k -> slice_to k l = take (Z.to_nat k) l.
Proof. intros Hk. unfold slice_to. destruct (Z.leb_spec 0 k); [done|lia]. Qed.

Lemma readers_in_range layers layer ch top_k b :
  0 <= layer -> layers !! Z.to_nat layer = Some b ->
  in_range (ncols (weight (c_fc (mlp b)))) ch ->
  find_neurons_reading_channel layers layer ch top_k =
    Ok (slice_to top_k
          (ranking (column_at (weight (c_fc (mlp b))) (Z.to_nat ch)))).
Proof.
  intros Hl Hb Hc. unfold find_neurons_reading_channel.
  rewrite (getitem_nonneg _ _ _ Hl Hb). simpl.
  by rewrite (column_in_range _ _ Hc).
Qed.

Lemma writers_in_range layers layer ch top_k b :
  0 <= layer -> layers !! Z.to_nat layer = Some b ->
  in_range (nrows (weight (c_proj (mlp b)))) ch ->
  find_neurons_writing_channel layers layer ch top_k =
    Ok (slice_to top_k
          (ranking (row_at (weight (c_proj (mlp b))) (Z.to_nat ch)))).
Proof.
  intros Hl Hb Hc. unfold find_neurons_writing_channel.
  rewrite (getitem_nonneg _ _ _ Hl Hb). simpl.
  by rewrite (row_in_range _ _ Hc).
Qed.

Lemma column_entry_of t j x :
  neuron_entry_of (column_at t j) x <->
  in_range (nrows t) (neuron_id x) /\
  neuron_weight x = entry t (Z.to_nat (neuron_id x)) j /\
  ~ (neuron_weight x == 0)%Q.
Proof.
  unfold neuron_entry_of, in_range. rewrite lookup_column_at. split.
  - intros (H0 & [Hlt ->] & Hnz). repeat split; [done|lia|done].
  - intros ([H0 Hlt] & Hw & Hnz). repeat split; [done|lia|done|done].
Qed.

Lemma row_entry_of t i x :
  neuron_entry_of (row_at t i) x <->
  in_range (ncols t) (neuron_id x) /\
  neuron_weight x = entry t i (Z.to_nat (neuron_id x)) /\
  ~ (neuron_weight x == 0)%Q.
Proof.
  unfold neuron_entry_of, in_range. rewrite lookup_row_at. split.
  - intros (H0 & [Hlt ->] & Hnz). repeat split; [done|lia|done].
  - intros ([H0 Hlt] & Hw & Hnz). repeat split; [done|lia|done|done].
Qed.

(** X3. Whatever [top_k] is, every reader (writer) returned for an
    in-range layer and channel is a non-zero entry of the channel's column
    of [c_fc] (row of [c_proj]) with its own neuron index, and no neuron is
    returned twice. *)
Theorem channel_search_sound
    (layers : layers_t) (layer ch top_k : Z) (b : block) :
  0 <= layer ->
  layers !! Z.to_nat layer = Some b ->
  in_range (ncols (weight (c_fc (mlp b)))) ch ->
  in_range (nrows (weight (c_proj (mlp b)))) ch ->
  (exists rs,
     find_neurons_reading_channel layers layer ch top_k = Ok rs /\
     NoDup (neuron_id <$> rs) /\
     forall r, r ∈ rs ->
       in_range (nrows (weight (c_fc (mlp b)))) (neuron_id r) /\
       neuron_weight r =
         entry (weight (c_fc (mlp b))) (Z.to_nat (neuron_id r)) (Z.to_nat ch) /\
       ~ (neuron_weight r == 0)%Q) /\
  (exists ws,
     find_neurons_writing_channel layers layer ch top_k = Ok ws /\
     NoDup (neuron_id <$> ws) /\
     forall w, w ∈ ws ->
       in_range (ncols (weight (c_proj (mlp b)))) (neuron_id w) /\
       neuron_weight w =
         entry (weight (c_proj (mlp b))) (Z.to_nat ch) (Z.to_nat (neuron_id w)) /\
       ~ (neuron_weight w == 0)%Q).
Proof.
  intros Hl Hb Hr Hw. split.
  - eexists. split; [by apply (readers_in_range _ _ _ _ b)|].
    split; [apply slice_to_NoDup, ranking_NoDup|].
    intros r Hin. by apply elem_of_slice_to, elem_of_ranking, column_entry_of in Hin.
  - eexists. split; [by apply (writers_in_range _ _ _ _ b)|].
    split; [apply slice_to_NoDup, ranking_NoDup|].
    intros w Hin. by apply elem_of_slice_to, elem_of_ranking, row_entry_of in Hin.
Qed.

Lemma channel_search_sound_witness :
  exists rs,
    find_neurons_reading_channel model3 1 0 (-1) = Ok rs /\
    NoDup (neuron_id <$> rs) /\
    forall r, r ∈ rs ->
      in_range 2 (neuron_id r) /\
      neuron_weight r =
        entry (weight (c_fc (mlp dense2))) (Z.to_nat (neuron_id r)) (Z.to_nat 0) /\
      ~ (neuron_weight r == 0)%Q.
Proof.
  assert (H0 : 0 <= 1) by lia.
  assert (H1 : in_range 2 0) by (unfold in_range; simpl; lia).
  exact (proj1 (channel_search_sound model3 1 0 (-1) dense2 H0 eq_refl H1 H1)).
Defined.

(** X4. With [top_k] at least the size of the searched dimension nothing is
    cut: the readers (writers) are exactly the non-zero entries of the
    channel's column of [c_fc] (row of [c_proj]). *)
Theorem channel_search_complete
    (layers : layers_t) (layer ch top_k : Z) (b : block) :
  0 <= layer ->
  layers !! Z.to_nat layer = Some b ->
  in_range (ncols (weight (c_fc (mlp b)))) ch ->
  in_range (nrows (weight (c_proj (mlp b)))) ch ->
  Z.of_nat (nrows (weight (c_fc (mlp b)))) <= top_k ->
  Z.of_nat (ncols (weight (c_proj (mlp b)))) <= top_k ->
  (exists rs,
     find_neurons_reading_channel layers layer ch top_k = Ok rs /\
     forall r, r ∈ rs <->
       in_range (nrows (weight (c_fc (mlp b)))) (neuron_id r) /\
       neuron_weight r =
         entry (weight (c_fc (mlp b))) (Z.to_nat (neuron_id r)) (Z.to_nat ch) /\
       ~ (neuron_weight r == 0)%Q) /\
  (exists ws,
     find_neurons_writing_channel layers layer ch top_k = Ok ws /\
     forall w, w ∈ ws <->
       in_range (ncols (weight (c_proj (mlp b)))) (neuron_id w) /\
       neuron_weight w =
         entry (weight (c_proj (mlp b))) (Z.to_nat ch) (Z.to_nat (neuron_id w)) /\
       ~ (neuron_weight w == 0)%Q).
Proof.
  intros Hl Hb Hr Hw Hk1 Hk2. split.
  - eexists. split; [by apply (readers_in_range _ _ _ _ b)|].
    intros r. rewrite slice_to_all, elem_of_ranking, column_entry_of; [done|].
    pose proof (ranking_length (column_at (weight (c_fc (mlp b))) (Z.to_nat ch))) as H.
    unfold column_at in H at 2. rewrite length_map, length_seq in H. lia.
  - eexists. split; [by apply (writers_in_range _ _ _ _ b)|].
    intros w. rewrite slice_to_all, elem_of_ranking, row_entry_of; [done|].
    pose proof (ranking_length (row_at (weight (c_proj (mlp b))) (Z.to_nat ch))) as H.
    unfold row_at in H at 2. rewrite length_map, length_seq in H. lia.
Qed.

Lemma channel_search_complete_witness :
  exists rs,
    find_neurons_reading_channel model3 1 0 2 = Ok rs /\
    forall r, r ∈ rs <->
      in_range 2 (neuron_id r) /\
      neuron_weight r =
        entry (weight (c_fc (mlp dense2))) (Z.to_nat (neuron_id r)) (Z.to_nat 0) /\
      ~ (neuron_weight r == 0)%Q.
Proof.
  assert (H0 : 0 <= 1) by lia.
  assert (H1 : in_range 2 0) by (unfold in_range; simpl; lia).
  assert (H2 : Z.of_nat 2 <= 2) by (simpl; lia).
  exact (proj1 (channel_search_complete model3 1 0 2 dense2
                  H0 eq_refl H1 H1 H2 H2)).
Defined.

Lemma take_prefix_optimal {A} (R : A -> A -> Prop) (a c : nat) (l : list A) :
  (a <= c)%nat -> StronglySorted R l ->
  take a l `prefix_of` take c l /\
  forall x r, x ∈ take c l -> x ∉ take a l -> r ∈ take a l -> R r x.
Proof.
  intros Hac Hs. split.
  - replace a with (a `min` c)%nat by lia. rewrite <- take_take. apply prefix_take.
  - intros x r Hx Hnx Hr.
    assert (Hxl : x ∈ l).
    { apply elem_of_take in Hx as (i & Hi & _). by eapply list_elem_of_lookup_2. }
    rewrite <- (take_drop a l) in Hxl, Hs.
    apply elem_of_app in Hxl as [Hxl|Hxl]; [done|].
    by apply (StronglySorted_app_1_elem_of _ _ _ _ _ Hs).
Qed.

(** X5. For [0 <= k <= k'] the result for [k] is a prefix of the result for
    [k']: a larger [top_k] only appends entries, and each appended entry
    has an absolute weight no larger than any entry already returned. *)
Theorem channel_search_monotone
    (layers : layers_t) (layer ch k k' : Z) (b : block) :
  0 <= layer ->
  layers !! Z.to_nat layer = Some b ->
  in_range (ncols (weight (c_fc (mlp b)))) ch ->
  in_range (nrows (weight (c_proj (mlp b)))) ch ->
  0 <= k <= k' ->
  (exists rs rs',
     find_neurons_reading_channel layers layer ch k = Ok rs /\
     find_neurons_reading_channel layers layer ch k' = Ok rs' /\
     rs `prefix_of` rs' /\
     forall x r, x ∈ rs' -> x ∉ rs -> r ∈ rs ->
       (Qabs (neuron_weight x) <= Qabs (neuron_weight r))%Q) /\
  (exists ws ws',
     find_neurons_writing_channel layers layer ch k = Ok ws /\
     find_neurons_writing_channel layers layer ch k' = Ok ws' /\
     ws `prefix_of` ws' /\
     forall x w, x ∈ ws' -> x ∉ ws -> w ∈ ws ->
       (Qabs (neuron_weight x) <= Qabs (neuron_weight w))%Q).
Proof.
  intros Hl Hb Hr Hw Hk. split.
  - eexists _, _. split; [by apply (readers_in_range _ _ _ _ b)|].
    split; [by apply (readers_in_range _ _ _ _ b)|].
    rewrite !slice_to_nonneg by lia.
    apply (take_prefix_optimal (key_ge abs_neuron_weight)); [lia|].
    apply sort_desc_sorted.
  - eexists _, _. split; [by apply (writers_in_range _ _ _ _ b)|].
    split; [by apply (writers_in_range _ _ _ _ b)|].
    rewrite !slice_to_nonneg by lia.
    apply (take_prefix_optimal (key_ge abs_neuron_weight)); [lia|].
    apply sort_desc_sorted.
Qed.

Lemma channel_search_monotone_witness :
  exists rs rs',
    find_neurons_reading_channel model3 1 0 1 = Ok rs /\
    find_neurons_reading_channel model3 1 0 2 = Ok rs' /\
    rs `prefix_of` rs' /\
    forall x r, x ∈ rs' -> x ∉ rs -> r ∈ rs ->
      (Qabs (neuron_weight x) <= Qabs (neuron_weight r))%Q.
Proof.
  assert (H0 : 0 <= 1) by lia.
  assert (H1 : in_range 2 0) by (unfold in_range; simpl; lia).
  assert (H2 : 0 <= 1 <= 2) by lia.
  exact (proj1 (channel_search_monotone model3 1 0 1 2 dense2
                  H0 eq_refl H1 H1 H2)).
Defined.

(** X6. The neuron view and the channel view of a layer agree: a neuron
    returned as reader (writer) of a channel has that channel, with the same
    weight, among its [in] ([out]) connections; when [top_k] is at least
    the layer's MLP width the converse holds too. *)
Theorem neuron_and_channel_views_agree
    (layers : layers_t) (layer neuron ch top_k : Z) (b : block) :
  0 <= layer ->
  layers !! Z.to_nat layer = Some b ->
  nrows (weight (c_fc (mlp b))) = ncols (weight (c_proj (mlp b))) ->
  in_range (nrows (weight (c_fc (mlp b)))) neuron ->
  in_range (ncols (weight (c_fc (mlp b)))) ch ->
  in_range (nrows (weight (c_proj (mlp b)))) ch ->
  exists c rs ws,
    neuron_get_connected_reschannels layers layer neuron = Ok c /\
    find_neurons_reading_channel layers layer ch top_k = Ok rs /\
    find_neurons_writing_channel layers layer ch top_k = Ok ws /\
    (forall w, {| neuron_id := neuron; neuron_weight := w |} ∈ rs ->
               {| channel_id := ch; channel_weight := w |} ∈ conn_in c) /\
    (forall w, {| neuron_id := neuron; neuron_weight := w |} ∈ ws ->
               {| channel_id := ch; channel_weight := w |} ∈ conn_out c) /\
    (Z.of_nat (nrows (weight (c_fc (mlp b)))) <= top_k ->
     (forall w, {| channel_id := ch; channel_weight := w |} ∈ conn_in c ->
                {| neuron_id := neuron; neuron_weight := w |} ∈ rs) /\
     (forall w, {| channel_id := ch; channel_weight := w |} ∈ conn_out c ->
                {| neuron_id := neuron; neuron_weight := w |} ∈ ws)).
Proof.
  intros Hl Hb Hshape Hn Hc1 Hc2.
  assert (Hn' : in_range (ncols (weight (c_proj (mlp b)))) neuron)
    by (by rewrite <- Hshape).
  eexists _, _, _.
  split; [by apply (connections_in_range _ _ _ b)|].
  split; [by apply (readers_in_range _ _ _ _ b)|].
  split; [by apply (writers_in_range _ _ _ _ b)|]. simpl.
  assert (Hin : forall w,
    {| channel_id := ch; channel_weight := w |}
      ∈ channel_conns (row_at (weight (c_fc (mlp b))) (Z.to_nat neuron)) <->
    {| neuron_id := neuron; neuron_weight := w |}
      ∈ ranking (column_at (weight (c_fc (mlp b))) (Z.to_nat ch))).
  { intros w. rewrite elem_of_channel_conns, elem_of_ranking, column_entry_of.
    simpl. rewrite lookup_row_at. unfold in_range in *.
    split; [intros (H0 & [H1 ->] & H2)|intros (H0 & -> & H2)];
      repeat split; try done; lia. }
  assert (Hout : forall w,
    {| channel_id := ch; channel_weight := w |}
      ∈ channel_conns (column_at (weight (c_proj (mlp b))) (Z.to_nat neuron)) <->
    {| neuron_id := neuron; neuron_weight := w |}
      ∈ ranking (row_at (weight (c_proj (mlp b))) (Z.to_nat ch))).
  { intros w. rewrite elem_of_channel_conns, elem_of_ranking, row_entry_of.
    simpl. rewrite lookup_column_at. unfold in_range in *.
    split; [intros (H0 & [H1 ->] & H2)|intros (H0 & -> & H2)];
      repeat split; try done; lia. }
  split; [intros w Hw; by apply Hin, elem_of_slice_to with top_k|].
  split; [intros w Hw; by apply Hout, elem_of_slice_to with top_k|].
  intros Hk. rewrite !slice_to_all; [split; intros w; [apply Hin|apply Hout]| |].
  - pose proof (ranking_length (row_at (weight (c_proj (mlp b))) (Z.to_nat ch))) as H.
    unfold row_at in H at 2. rewrite length_map, length_seq in H. lia.
  - pose proof (ranking_length (column_at (weight (c_fc (mlp b))) (Z.to_nat ch))) as H.
    unfold column_at in H at 2. rewrite length_map, length_seq in H. lia.
Qed.

Lemma neuron_and_channel_views_agree_witness :
  exists c rs ws,
    neuron_get_connected_reschannels model3 1 1 = Ok c /\
    find_neurons_reading_channel model3 1 0 1 = Ok rs /\
    find_neurons_writing_channel model3 1 0 1 = Ok ws /\
    (forall w, {| neuron_id := 1; neuron_weight := w |} ∈ rs ->
               {| channel_id := 0; channel_weight := w |} ∈ conn_in c) /\
    (forall w, {| neuron_id := 1; neuron_weight := w |} ∈ ws ->
               {| channel_id := 0; channel_weight := w |} ∈ conn_out c).
Proof.
  assert (H0 : 0 <= 1) by lia.
  assert (H1 : in_range 2 1) by (unfold in_range; simpl; lia).
  assert (H2 : in_range 2 0) by (unfold in_range; simpl; lia).
  destruct (neuron_and_channel_views_agree model3 1 1 0 1 dense2
              H0 eq_refl eq_refl H1 H2 H2)
    as (c & rs & ws & Hc & Hrs & Hws & Hi & Ho & _).
  exists c, rs, ws. repeat split; assumption.
Defined.

(** ** Failures of the tracers and of the query service *)

Lemma bind_Ok_inv {A B} (m : result A) (k : A -> result B) b :
  bind m k = Ok b -> exists a, m = Ok a /\ k a = Ok b.
Proof. destruct m as [a|e]; simpl; [eauto|done]. Qed.

Lemma extractor_failure_fits layers layer idx :
  fits_int64 idx = true -> extractor_failure layers layer idx = IndexError.
Proof.
  unfold extractor_failure, tensor_failure. intros ->.
  by destruct (addressed_layer layers layer).
Qed.

Lemma connections_raise_only_IndexError layers layer neuron :
  fits_int64 neuron = true ->
  raises_only_IndexError (neuron_get_connected_reschannels layers layer neuron).
Proof.
  intros Hf e He.
  destruct (neuron_get_connected_reschannels_cases layers layer neuron)
    as [[_ [c Hc]]|[_ Hr]]; [congruence|].
  rewrite Hr in He. injection He as <-. by apply extractor_failure_fits.
Qed.

Lemma readers_raise_only_IndexError layers layer ch top_k :
  fits_int64 ch = true ->
  raises_only_IndexError (find_neurons_reading_channel layers layer ch top_k).
Proof.
  intros Hf e He.
  destruct (find_neurons_reading_channel_cases layers layer ch top_k)
    as [[_ [c Hc]]|[_ Hr]]; [congruence|].
  rewrite Hr in He. injection He as <-. by apply extractor_failure_fits.
Qed.

Lemma writers_raise_only_IndexError layers layer ch top_k :
  fits_int64 ch = true ->
  raises_only_IndexError (find_neurons_writing_channel layers layer ch top_k).
Proof.
  intros Hf e He.
  destruct (find_neurons_writing_channel_cases layers layer ch top_k)
    as [[_ [c Hc]]|[_ Hr]]; [congruence|].
  rewrite Hr in He. injection He as <-. by apply extractor_failure_fits.
Qed.

(** Indices read off a tensor fit a signed 64-bit integer. *)
Lemma row_Ok_length t i ws :
  row t i = Ok ws -> Z.of_nat (length ws) < int64_bound.
Proof.
  unfold row. intros H. apply bind_Ok_inv in H as (p & _ & [= <-]).
  rewrite length_map, length_seq. apply shape_fits_spec.
Qed.

Lemma column_Ok_length t j ws :
  column t j = Ok ws -> Z.of_nat (length ws) < int64_bound.
Proof.
  unfold column. intros H. apply bind_Ok_inv in H as (p & _ & [= <-]).
  rewrite length_map, length_seq. apply shape_fits_spec.
Qed.

Lemma channel_conns_fit ws x :
  Z.of_nat (length ws) < int64_bound -> x ∈ channel_conns ws ->
  fits_int64 (channel_id x) = true.
Proof.
  intros Hlen Hx. apply elem_of_channel_conns in Hx as (H0 & H1 & _).
  apply lookup_lt_Some in H1. apply fits_int64_spec.
  unfold int64_bound in *. lia.
Qed.

Lemma neuron_conns_fit ws x :
  Z.of_nat (length ws) < int64_bound -> x ∈ neuron_conns ws ->
  fits_int64 (neuron_id x) = true.
Proof.
  intros Hlen Hx. apply elem_of_neuron_conns in Hx as (H0 & H1 & _).
  apply lookup_lt_Some in H1. apply fits_int64_spec.
  unfold int64_bound in *. lia.
Qed.

Lemma connections_ids_fit layers layer neuron c :
  neuron_get_connected_reschannels layers layer neuron = Ok c ->
  (forall x, x ∈ conn_in c -> fits_int64 (channel_id x) = true) /\
  (forall x, x ∈ conn_out c -> fits_int64 (channel_id x) = true).
Proof.
  unfold neuron_get_connected_reschannels. intros H.
  apply bind_Ok_inv in H as (l & _ & H).
  apply bind_Ok_inv in H as (wi & Hwi & H).
  apply bind_Ok_inv in H as (l' & _ & H).
  apply bind_Ok_inv in H as (wo & Hwo & [= <-]). simpl.
  apply row_Ok_length in Hwi. apply column_Ok_length in Hwo.
  split; intros x; by apply channel_conns_fit.
Qed.

Lemma readers_ids_fit layers layer ch top_k rs :
  find_neurons_reading_channel layers layer ch top_k = Ok rs ->
  forall r, r ∈ rs -> fits_int64 (neuron_id r) = true.
Proof.
  unfold find_neurons_reading_channel. intros H.
  apply bind_Ok_inv in H as (l & _ & H).
  apply bind_Ok_inv in H as (ws & Hws & [= <-]).
  apply column_Ok_length in Hws. intros r Hr.
  apply elem_of_slice_to, elem_of_sort_desc in Hr. by eapply neuron_conns_fit.
Qed.

Lemma writers_ids_fit layers layer ch top_k ws :
  find_neurons_writing_channel layers layer ch top_k = Ok ws ->
  forall w, w ∈ ws -> fits_int64 (neuron_id w) = true.
Proof.
  unfold find_neurons_writing_channel. intros H.
  apply bind_Ok_inv in H as (l & _ & H).
  apply bind_Ok_inv in H as (xs & Hxs & [= <-]).
  apply row_Ok_length in Hxs. intros w Hw.
  apply elem_of_slice_to, elem_of_sort_desc in Hw. by eapply neuron_conns_fit.
Qed.

Lemma only_IndexError_ret {A} (a : A) : only_IndexError (ret a).
Proof. by intros e. Qed.

Lemma only_IndexError_bindM {A B} (m : M A) (k : A -> M B) :
  only_IndexError m -> (forall a, m = Some (Ok a) -> only_IndexError (k a)) ->
  only_IndexError (bindM m k).
Proof.
  unfold only_IndexError. intros Hm Hk e.
  destruct m as [[a|e']|]; simpl; [by apply Hk| |done].
  intros [= <-]. by apply Hm.
Qed.

Lemma only_IndexError_lift {A} (r : result A) :
  raises_only_IndexError r -> only_IndexError (lift r).
Proof. intros Hr e [= He]. by apply Hr. Qed.

Lemma only_IndexError_for_each {A S} (l : list A) (s : S) body :
  (forall s x, x ∈ l -> only_IndexError (body s x)) ->
  only_IndexError (for_each l s body).
Proof.
  revert s. induction l as [|x l IH]; intros s H; simpl.
  - apply only_IndexError_ret.
  - apply only_IndexError_bindM; [apply H, list_elem_of_here|].
    intros s' _. apply IH. intros s0 y Hy. apply H.
    by apply list_elem_of_further.
Qed.

Lemma lift_Ok_inv {A} (r : result A) a : lift r = Some (Ok a) -> r = Ok a.
Proof. by intros [= ->]. Qed.

(** The loops of an expansion raise nothing but [IndexError] when the
    recursive calls on indices that fit do. *)
Lemma fwd_loops_only_IndexError layers top_k self layer neuron depth :
  (forall l n d, fits_int64 n = true -> only_IndexError (self l n d)) ->
  forall c,
    neuron_get_connected_reschannels layers layer neuron = Ok c ->
    only_IndexError
      (for_each
         (slice_to top_k (sort_desc abs_channel_weight (conn_out c))) []
         (fun result ch =>
            for_each (range (layer + 1) (len layers)) result
              (fun result next_layer =>
                 let+ readers :=
                   lift (find_neurons_reading_channel layers next_layer
                           (channel_id ch) top_k) in
                 for_each readers result (fun result reader =>
                   let+ sub :=
                     self next_layer (neuron_id reader) (depth - 1) in
                   ret (result ++ [ Fwd.Entry next_layer (neuron_id reader)
                                      (neuron_weight reader) (channel_id ch)
                                      (channel_weight ch) sub ]))))).
Proof.
  intros Hself c Hc. apply connections_ids_fit in Hc as [_ Hout].
  apply only_IndexError_for_each. intros s ch Hch.
  apply elem_of_slice_to, elem_of_sort_desc, Hout in Hch.
  apply only_IndexError_for_each. intros s' next _.
  apply only_IndexError_bindM.
  { by apply only_IndexError_lift, readers_raise_only_IndexError. }
  intros rs Hrs. apply lift_Ok_inv in Hrs.
  apply only_IndexError_for_each. intros s'' r Hr.
  apply only_IndexError_bindM;
    [eapply Hself, readers_ids_fit; eauto|]. intros; apply only_IndexError_ret.
Qed.

Lemma bwd_loops_only_IndexError layers top_k self layer neuron depth :
  (forall l n d, fits_int64 n = true -> only_IndexError (self l n d)) ->
  forall c,
    neuron_get_connected_reschannels layers layer neuron = Ok c ->
    only_IndexError
      (for_each
         (slice_to top_k (sort_desc abs_channel_weight (conn_in c))) []
         (fun result ch =>
            for_each (range_down (layer - 1)) result
              (fun result prev_layer =>
                 let+ writers :=
                   lift (find_neurons_writing_channel layers prev_layer
                           (channel_id ch) top_k) in
                 for_each writers result (fun result writer =>
                   let+ sub :=
                     self prev_layer (neuron_id writer) (depth - 1) in
                   ret (result ++ [ Bwd.Entry prev_layer (neuron_id writer)
                                      (neuron_weight writer) (channel_id ch)
                                      (channel_weight ch) sub ]))))).
Proof.
  intros Hself c Hc. apply connections_ids_fit in Hc as [Hin _].
  apply only_IndexError_for_each. intros s ch Hch.
  apply elem_of_slice_to, elem_of_sort_desc, Hin in Hch.
  apply only_IndexError_for_each. intros s' prev _.
  apply only_IndexError_bindM.
  { by apply only_IndexError_lift, writers_raise_only_IndexError. }
  intros ws Hws. apply lift_Ok_inv in Hws.
  apply only_IndexError_for_each. intros s'' w Hw.
  apply only_IndexError_bindM;
    [eapply Hself, writers_ids_fit; eauto|]. intros; apply only_IndexError_ret.
Qed.

Lemma fwd_trace_only_IndexError layers top_k fuel :
  forall layer neuron depth,
    fits_int64 neuron = true ->
    only_IndexError (Fwd.trace_from_neuron layers top_k fuel layer neuron depth).
Proof.
  induction fuel as [|fuel IH]; intros layer neuron depth Hf;
    rewrite fwd_trace_unfold;
    destruct ((depth =? 0) || (layer >=? len layers - 1));
    try apply only_IndexError_ret; [by intros e|].
  apply only_IndexError_bindM; [|intros; apply only_IndexError_ret].
  unfold Fwd.candidates. apply only_IndexError_bindM.
  { by apply only_IndexError_lift, connections_raise_only_IndexError. }
  intros c Hc. apply lift_Ok_inv in Hc.
  apply (fwd_loops_only_IndexError layers top_k _ layer neuron depth); [|done].
  intros l n d Hn. by apply IH.
Qed.

Lemma bwd_trace_only_IndexError layers top_k fuel :
  forall layer neuron depth,
    fits_int64 neuron = true ->
    only_IndexError (Bwd.trace_from_neuron layers top_k fuel layer neuron depth).
Proof.
  induction fuel as [|fuel IH]; intros layer neuron depth Hf;
    rewrite bwd_trace_unfold;
    destruct ((depth =? 0) || (layer <=? 0));
    try apply only_IndexError_ret; [by intros e|].
  apply only_IndexError_bindM; [|intros; apply only_IndexError_ret].
  unfold Bwd.candidates. apply only_IndexError_bindM.
  { by apply only_IndexError_lift, connections_raise_only_IndexError. }
  intros c Hc. apply lift_Ok_inv in Hc.
  apply (bwd_loops_only_IndexError layers top_k _ layer neuron depth); [|done].
  intros l n d Hn. by apply IH.
Qed.

Lemma fwd_tracer_only_IndexError layers layer neuron depth top_k :
  fits_int64 neuron = true ->
  only_IndexError (Fwd.trace_circuit_forward layers layer neuron depth top_k).
Proof.
  intros Hf. unfold Fwd.trace_circuit_forward. apply only_IndexError_bindM;
    [by apply fwd_trace_only_IndexError|intros; apply only_IndexError_ret].
Qed.

Lemma bwd_tracer_only_IndexError layers layer neuron depth top_k :
  fits_int64 neuron = true ->
  only_IndexError (Bwd.trace_circuit_backward layers layer neuron depth top_k).
Proof.
  intros Hf. unfold Bwd.trace_circuit_backward. apply only_IndexError_bindM;
    [by apply bwd_trace_only_IndexError|intros; apply only_IndexError_ret].
Qed.

Lemma valid_neuron_fits layers layer neuron :
  valid_neuron layers layer neuron -> fits_int64 neuron = true.
Proof.
  intros (b & _ & _ & Hn). eapply in_dim_rows_fits, in_range_in_dim, Hn.
Qed.

(** What an expansion raises is what indexing its own neuron raises, or an
    [IndexError] from further down. *)
Lemma bindM_Raise_inv {A B} (m : M A) (k : A -> M B) e :
  bindM m k = Some (Raise e) ->
  m = Some (Raise e) \/ exists a, m = Some (Ok a) /\ k a = Some (Raise e).
Proof. destruct m as [[a|e']|]; simpl; [eauto|intros [= ->]; auto|done]. Qed.

Lemma fwd_expand_raise layers top_k layer neuron depth e :
  fwd_expand layers top_k layer neuron depth = Some (Raise e) ->
  (depth <> 0 /\ layer < len layers - 1) /\
  (neuron_get_connected_reschannels layers layer neuron = Raise e \/
   e = IndexError).
Proof.
  rewrite fwd_expand_eq.
  destruct ((depth =? 0) || (layer >=? len layers - 1)) eqn:Hterm; [done|].
  apply orb_false_iff in Hterm as [Hd Hl]. intros H. split; [lia|].
  apply bindM_Raise_inv in H as [H|(cands & _ & H)]; [|done].
  unfold Fwd.candidates in H.
  apply bindM_Raise_inv in H as [H|(c & Hc & H)].
  - left. by injection H.
  - right. apply lift_Ok_inv in Hc. revert H.
    apply (fwd_loops_only_IndexError layers top_k _ layer neuron depth); [|done].
    intros l n d Hn. by apply fwd_trace_only_IndexError.
Qed.

Lemma bwd_expand_raise layers top_k layer neuron depth e :
  bwd_expand layers top_k layer neuron depth = Some (Raise e) ->
  (depth <> 0 /\ 0 < layer) /\
  (neuron_get_connected_reschannels layers layer neuron = Raise e \/
   e = IndexError).
Proof.
  rewrite bwd_expand_eq.
  destruct ((depth =? 0) || (layer <=? 0)) eqn:Hterm; [done|].
  apply orb_false_iff in Hterm as [Hd Hl]. intros H. split; [lia|].
  apply bindM_Raise_inv in H as [H|(cands & _ & H)]; [|done].
  unfold Bwd.candidates in H.
  apply bindM_Raise_inv in H as [H|(c & Hc & H)].
  - left. by injection H.
  - right. apply lift_Ok_inv in Hc. revert H.
    apply (bwd_loops_only_IndexError layers top_k _ layer neuron depth); [|done].
    intros l n d Hn. by apply bwd_trace_only_IndexError.
Qed.

Lemma connections_ValueError_iff layers layer neuron :
  neuron_get_connected_reschannels layers layer neuron = Raise ValueError <->
  (exists b, addressed_layer layers layer = Some b) /\
  ~ (- int64_bound <= neuron < int64_bound).
Proof.
  destruct (extractor_failure_cases layers layer neuron) as [Hv _].
  destruct (neuron_get_connected_reschannels_cases layers layer neuron)
    as [[_ [c Hc]]|[Hna Hr]].
  - rewrite Hc. split; [done|]. intros [[b Hb] Hfit]. exfalso.
    apply Hfit. apply fits_int64_spec.
    destruct (neuron_get_connected_reschannels_cases layers layer neuron)
      as [[(b' & _ & Hn & _) _]|[_ Hr]]; [|congruence].
    by eapply in_dim_rows_fits.
  - rewrite Hr, <- Hv. split; [by intros [= ->]|by intros ->].
Qed.

Lemma connections_raise_class layers layer neuron e :
  neuron_get_connected_reschannels layers layer neuron = Raise e ->
  e = IndexError \/ e = ValueError.
Proof.
  intros H.
  destruct (neuron_get_connected_reschannels_cases layers layer neuron)
    as [[_ [c Hc]]|[_ Hr]]; [congruence|].
  rewrite Hr in H. injection H as <-.
  unfold extractor_failure, tensor_failure.
  destruct (addressed_layer layers layer); [|by left].
  destruct (fits_int64 neuron); auto.
Qed.

Lemma fwd_tracer_raise layers layer neuron depth top_k e :
  Fwd.trace_circuit_forward layers layer neuron depth top_k = Some (Raise e) <->
  fwd_expand layers top_k layer neuron depth = Some (Raise e).
Proof.
  unfold Fwd.trace_circuit_forward, fwd_expand.
  destruct (Fwd.trace_from_neuron _ _ _ _ _ _) as [[r|e']|]; cbn;
    split; intros H; by inversion H.
Qed.

Lemma bwd_tracer_raise layers layer neuron depth top_k e :
  Bwd.trace_circuit_backward layers layer neuron depth top_k = Some (Raise e) <->
  bwd_expand layers top_k layer neuron depth = Some (Raise e).
Proof.
  unfold Bwd.trace_circuit_backward, bwd_expand.
  destruct (Bwd.trace_from_neuron _ _ _ _ _ _) as [[r|e']|]; cbn;
    split; intros H; by inversion H.
Qed.

Lemma fwd_expand_ValueError layers top_k layer neuron depth :
  depth <> 0 -> layer < len layers - 1 ->
  neuron_get_connected_reschannels layers layer neuron = Raise ValueError ->
  fwd_expand layers top_k layer neuron depth = Some (Raise ValueError).
Proof.
  intros Hd Hl Hc. rewrite fwd_expand_eq.
  replace ((depth =? 0) || (layer >=? len layers - 1)) with false
    by (symmetry; apply orb_false_iff; lia).
  unfold Fwd.candidates. by rewrite Hc.
Qed.

Lemma bwd_expand_ValueError layers top_k layer neuron depth :
  depth <> 0 -> 0 < layer ->
  neuron_get_connected_reschannels layers layer neuron = Raise ValueError ->
  bwd_expand layers top_k layer neuron depth = Some (Raise ValueError).
Proof.
  intros Hd Hl Hc. rewrite bwd_expand_eq.
  replace ((depth =? 0) || (layer <=? 0)) with false
    by (symmetry; apply orb_false_iff; lia).
  unfold Bwd.candidates. by rewrite Hc.
Qed.

(** X7. On any model and for any arguments, the only exceptions either
    tracer can raise are [IndexError] and [ValueError]; it raises
    [ValueError] exactly when the start node is not terminal, the start
    layer exists and the start neuron does not fit a signed 64-bit
    integer. *)
Theorem tracers_raise_index_or_value_error
    (layers : layers_t) (layer neuron depth top_k : Z) :
  (forall e,
     Fwd.trace_circuit_forward layers layer neuron depth top_k = Some (Raise e) ->
     e = IndexError \/ e = ValueError) /\
  (Fwd.trace_circuit_forward layers layer neuron depth top_k
     = Some (Raise ValueError) <->
   (depth <> 0 /\ layer < len layers - 1) /\
   (exists b, addressed_layer layers layer = Some b) /\
   ~ (- 2 ^ 63 <= neuron < 2 ^ 63)) /\
  (forall e,
     Bwd.trace_circuit_backward layers layer neuron depth top_k = Some (Raise e) ->
     e = IndexError \/ e = ValueError) /\
  (Bwd.trace_circuit_backward layers layer neuron depth top_k
     = Some (Raise ValueError) <->
   (depth <> 0 /\ 0 < layer) /\
   (exists b, addressed_layer layers layer = Some b) /\
   ~ (- 2 ^ 63 <= neuron < 2 ^ 63)).
Proof.
  split; [|split; [|split]].
  - intros e He. apply fwd_tracer_raise, fwd_expand_raise in He as [_ [He| ->]];
      [by eapply connections_raise_class|by left].
  - rewrite fwd_tracer_raise. split.
    + intros H. apply fwd_expand_raise in H as [Hnt [H|H]]; [|done].
      split; [done|]. by apply connections_ValueError_iff.
    + intros ([Hd Hl] & Hb & Hn).
      apply fwd_expand_ValueError; [done|done|].
      by apply connections_ValueError_iff.
  - intros e He. apply bwd_tracer_raise, bwd_expand_raise in He as [_ [He| ->]];
      [by eapply connections_raise_class|by left].
  - rewrite bwd_tracer_raise. split.
    + intros H. apply bwd_expand_raise in H as [Hnt [H|H]]; [|done].
      split; [done|]. by apply connections_ValueError_iff.
    + intros ([Hd Hl] & Hb & Hn).
      apply bwd_expand_ValueError; [done|done|].
      by apply connections_ValueError_iff.
Qed.

Lemma tracers_raise_index_or_value_error_witness :
  Fwd.trace_circuit_forward model3 0 (2 ^ 64) 1 1 = Some (Raise ValueError) /\
  Bwd.trace_circuit_backward model3 2 (- 2 ^ 63 - 1) 1 1
    = Some (Raise ValueError).
Proof.
  split.
  - apply (proj1 (proj2 (tracers_raise_index_or_value_error model3 0 (2 ^ 64) 1 1))).
    split; [split; [lia|vm_compute; reflexivity]|].
    split; [eexists; reflexivity|].
    intros [_ H]. vm_compute in H. discriminate H.
  - apply (proj2 (proj2 (proj2
             (tracers_raise_index_or_value_error model3 2 (- 2 ^ 63 - 1) 1 1)))).
    split; [split; lia|].
    split; [eexists; reflexivity|].
    intros [H _]. vm_compute in H. by apply H.
Defined.

(** X8. On any model, whatever its shapes, [get_neuron_connections] raises
    an [HTTPException] exactly when the layer or the neuron index is out of
    range, and its status is then 400; any other failure is an
    [IndexError]. *)
Theorem get_neuron_connections_http_error
    (layers : layers_t) (layer neuron depth top_k : Z) :
  ((exists status detail,
      get_neuron_connections layers layer neuron depth top_k =
        Some (Raise (HTTPException status detail)))
   <-> ~ valid_neuron layers layer neuron) /\
  (forall status detail,
     get_neuron_connections layers layer neuron depth top_k =
       Some (Raise (HTTPException status detail)) -> status = 400) /\
  (forall e,
     valid_neuron layers layer neuron ->
     get_neuron_connections layers layer neuron depth top_k = Some (Raise e) ->
     e = IndexError).
Proof.
  assert (Hvalid : valid_neuron layers layer neuron ->
    only_IndexError (get_neuron_connections layers layer neuron depth top_k)).
  { intros Hv. unfold get_neuron_connections.
    rewrite neuron_handler_valid by done.
    pose proof (valid_neuron_fits _ _ _ Hv) as Hfit.
    apply only_IndexError_bindM; [by apply fwd_tracer_only_IndexError|].
    intros tf _. apply only_IndexError_bindM;
      [by apply bwd_tracer_only_IndexError|].
    intros; apply only_IndexError_ret. }
  split; [split|split].
  - intros (status & detail & H) Hv. by apply (Hvalid Hv) in H.
  - intros Hv.
    destruct (neuron_handler_invalid Fwd.trace_circuit_forward
                Bwd.trace_circuit_backward layers layer neuron depth top_k Hv)
      as [detail H]. eauto.
  - intros status detail H.
    destruct (in_range_dec (length layers) layer) as [Hl|Hl].
    + destruct (in_range_lookup _ _ Hl) as [b Hb].
      destruct (in_range_dec (nrows (weight (c_fc (mlp b)))) neuron) as [Hn|Hn].
      * assert (Hv : valid_neuron layers layer neuron).
        { exists b. split; [apply Hl|done]. }
        by apply (Hvalid Hv) in H.
      * unfold get_neuron_connections in H.
        rewrite (neuron_handler_bad_neuron _ _ _ _ _ _ _ b) in H;
          [congruence|apply Hl|done|done].
    + unfold get_neuron_connections in H.
      rewrite neuron_handler_bad_layer in H by done. congruence.
  - intros e Hv. apply (Hvalid Hv).
Qed.

(** ** Every entry of a trace is an edge of the model *)

Lemma fwd_edges_unfold layers top_k layer neuron e :
  fwd_edges layers top_k layer neuron e <->
  fwd_edge layers top_k layer neuron e /\
  match Fwd.children e with
  | None => True
  | Some l => Forall (fwd_edges layers top_k (Fwd.layer e) (Fwd.neuron e)) l
  end.
Proof.
  destruct e as [la ne rw ch ww [l|]]; simpl; [|done].
  assert (H : (fix all (l : list Fwd.entry) : Prop :=
       match l with
       | [] => True
       | x :: l' => fwd_edges layers top_k la ne x /\ all l'
       end) l <-> Forall (fwd_edges layers top_k la ne) l).
  { induction l as [|x l IH]; [by split; [constructor|]|].
    rewrite Forall_cons, <- IH. done. }
  by rewrite H.
Qed.

Lemma bwd_edges_unfold layers top_k layer neuron e :
  bwd_edges layers top_k layer neuron e <->
  bwd_edge layers top_k layer neuron e /\
  match Bwd.parents e with
  | None => True
  | Some l => Forall (bwd_edges layers top_k (Bwd.layer e) (Bwd.neuron e)) l
  end.
Proof.
  destruct e as [la ne ww ch rw [l|]]; simpl; [|done].
  assert (H : (fix all (l : list Bwd.entry) : Prop :=
       match l with
       | [] => True
       | x :: l' => bwd_edges layers top_k la ne x /\ all l'
       end) l <-> Forall (bwd_edges layers top_k la ne) l).
  { induction l as [|x l IH]; [by split; [constructor|]|].
    rewrite Forall_cons, <- IH. done. }
  by rewrite H.
Qed.

Lemma fwd_candidates_edges layers top_k self layer neuron depth cands :
  Fwd.candidates layers top_k self layer neuron depth = Some (Ok cands) ->
  Forall (fun e =>
            fwd_edge layers top_k layer neuron e /\
            self (Fwd.layer e) (Fwd.neuron e) (depth - 1)
              = Some (Ok (Fwd.children e))) cands.
Proof.
  unfold Fwd.candidates. intros H.
  apply bindM_Ok_inv in H as (c & Hc & H). apply lift_Ok_inv in Hc.
  revert H. apply for_each_inv; [constructor|]. intros s1 ch s1' Hch Hs1.
  apply elem_of_slice_to, elem_of_sort_desc in Hch.
  apply for_each_inv; [done|]. intros s2 next s2' Hnext Hs H.
  apply elem_of_range in Hnext.
  apply bindM_Ok_inv in H as (rs & Hrs & H). apply lift_Ok_inv in Hrs.
  revert H. apply for_each_inv; [done|]. intros s3 r s3' Hr Hs3 H.
  apply bindM_Ok_inv in H as (sub & Hsub & H).
  injection H as <-. apply Forall_app. split; [done|].
  constructor; [|constructor]. split; [|done].
  unfold fwd_edge. simpl. split; [lia|]. split.
  - exists c. split; [done|]. by destruct ch.
  - exists rs. split; [done|]. by destruct r.
Qed.

Lemma bwd_candidates_edges layers top_k self layer neuron depth cands :
  Bwd.candidates layers top_k self layer neuron depth = Some (Ok cands) ->
  Forall (fun e =>
            bwd_edge layers top_k layer neuron e /\
            self (Bwd.layer e) (Bwd.neuron e) (depth - 1)
              = Some (Ok (Bwd.parents e))) cands.
Proof.
  unfold Bwd.candidates. intros H.
  apply bindM_Ok_inv in H as (c & Hc & H). apply lift_Ok_inv in Hc.
  revert H. apply for_each_inv; [constructor|]. intros s1 ch s1' Hch Hs1.
  apply elem_of_slice_to, elem_of_sort_desc in Hch.
  apply for_each_inv; [done|]. intros s2 prev s2' Hprev Hs H.
  apply elem_of_range_down in Hprev.
  apply bindM_Ok_inv in H as (ws & Hws & H). apply lift_Ok_inv in Hws.
  revert H. apply for_each_inv; [done|]. intros s3 w s3' Hw Hs3 H.
  apply bindM_Ok_inv in H as (sub & Hsub & H).
  injection H as <-. apply Forall_app. split; [done|].
  constructor; [|constructor]. split; [|done].
  unfold bwd_edge. simpl. split; [lia|]. split.
  - exists c. split; [done|]. by destruct ch.
  - exists ws. split; [done|]. by destruct w.
Qed.

Lemma fwd_trace_edges layers top_k fuel :
  forall layer neuron depth res,
    Fwd.trace_from_neuron layers top_k fuel layer neuron depth
      = Some (Ok (Some res)) ->
    Forall (fwd_edges layers top_k layer neuron) res.
Proof.
  induction fuel as [|fuel IH]; intros layer neuron depth res;
    rewrite fwd_trace_unfold;
    destruct ((depth =? 0) || (layer >=? len layers - 1)); try done.
  intros H. apply bindM_Ok_inv in H as (cands & Hc & H).
  injection H as H. apply cut_or_none_Some_inv in H as [_ ->].
  apply fwd_candidates_edges in Hc.
  rewrite Forall_forall in Hc |- *. intros e He.
  apply elem_of_slice_to, elem_of_sort_desc in He.
  destruct (Hc e He) as [Hedge Hsub].
  apply fwd_edges_unfold. split; [done|].
  destruct (Fwd.children e) as [sub|]; [|done]. by eapply IH.
Qed.

Lemma bwd_trace_edges layers top_k fuel :
  forall layer neuron depth res,
    Bwd.trace_from_neuron layers top_k fuel layer neuron depth
      = Some (Ok (Some res)) ->
    Forall (bwd_edges layers top_k layer neuron) res.
Proof.
  induction fuel as [|fuel IH]; intros layer neuron depth res;
    rewrite bwd_trace_unfold;
    destruct ((depth =? 0) || (layer <=? 0)); try done.
  intros H. apply bindM_Ok_inv in H as (cands & Hc & H).
  injection H as H. apply cut_or_none_Some_inv in H as [_ ->].
  apply bwd_candidates_edges in Hc.
  rewrite Forall_forall in Hc |- *. intros e He.
  apply elem_of_slice_to, elem_of_sort_desc in He.
  destruct (Hc e He) as [Hedge Hsub].
  apply bwd_edges_unfold. split; [done|].
  destruct (Bwd.parents e) as [sub|]; [|done]. by eapply IH.
Qed.

(** X9. Every entry of a returned trace, at any depth, is an edge of the
    model leaving the entry above it (the start neuron at the top level):
    forward, it lies in a strictly later layer, its [via_channel] is an
    out-connection of the neuron above with weight [write_weight], and its
    neuron is a returned reader of that channel with weight [read_weight];
    backward is the mirror over strictly earlier layers, in-connections and
    writers. *)
Theorem trace_entries_are_edges
    (layers : layers_t) (layer neuron depth top_k : Z) :
  (forall res,
     Fwd.trace_circuit_forward layers layer neuron depth top_k = Some (Ok res) ->
     Forall (fwd_edges layers top_k layer neuron) res) /\
  (forall res,
     Bwd.trace_circuit_backward layers layer neuron depth top_k = Some (Ok res) ->
     Forall (bwd_edges layers top_k layer neuron) res).
Proof.
  split; intros res H.
  - unfold Fwd.trace_circuit_forward in H.
    apply bindM_Ok_inv in H as ([l|] & Hl & H); injection H as <-; simpl;
      [by eapply fwd_trace_edges|constructor].
  - unfold Bwd.trace_circuit_backward in H.
    apply bindM_Ok_inv in H as ([l|] & Hl & H); injection H as <-; simpl;
      [by eapply bwd_trace_edges|constructor].
Qed.

(** ** The number of levels of a trace *)

Lemma fwd_height_unfold e :
  fwd_height e =
    S (match Fwd.children e with
       | None => 0
       | Some l => fwd_levels l
       end).
Proof.
  by destruct e as [la ne rw ch ww [l|]].
Qed.

Lemma bwd_height_unfold e :
  bwd_height e =
    S (match Bwd.parents e with
       | None => 0
       | Some l => bwd_levels l
       end).
Proof.
  by destruct e as [la ne ww ch rw [l|]].
Qed.

Lemma max_list_with_le {A} (f : A -> nat) (l : list A) n :
  (forall x, x ∈ l -> (f x <= n)%nat) -> (max_list_with f l <= n)%nat.
Proof.
  induction l as [|x l IH]; intros H; simpl; [lia|].
  pose proof (H x (list_elem_of_here _ _)).
  assert (max_list_with f l <= n)%nat.
  { apply IH. intros y Hy. apply H. by apply list_elem_of_further. }
  lia.
Qed.

Lemma fwd_trace_levels layers top_k fuel :
  forall layer neuron depth r,
    Fwd.trace_from_neuron layers top_k fuel layer neuron depth = Some (Ok r) ->
    (0 <= depth -> (fwd_levels (or_empty r) <= Z.to_nat depth)%nat) /\
    (fwd_levels (or_empty r) <= Fwd.budget layers layer)%nat.
Proof.
  induction fuel as [|fuel IH]; intros layer neuron depth r;
    rewrite fwd_trace_unfold;
    destruct ((depth =? 0) || (layer >=? len layers - 1)) eqn:Hterm;
    try done;
    try (intros [= <-]; simpl; split; intros; lia).
  apply orb_false_iff in Hterm as [Hd Hlay].
  intros H. apply bindM_Ok_inv in H as (cands & Hc & H).
  injection H as <-. apply fwd_candidates_children in Hc.
  rewrite Forall_forall in Hc.
  destruct (cut_or_none (top_k * 2) (sort_desc Fwd.score cands)) as [res|] eqn:E;
    [|simpl; split; intros; lia].
  apply cut_or_none_Some_inv in E as [_ ->]. simpl.
  assert (Hall : forall e,
    e ∈ slice_to (top_k * 2) (sort_desc Fwd.score cands) ->
    (0 <= depth -> (fwd_height e <= Z.to_nat depth)%nat) /\
    (fwd_height e <= Fwd.budget layers layer)%nat).
  { intros e He. apply elem_of_slice_to, elem_of_sort_desc in He.
    destruct (Hc e He) as (l & n & Hl & Hsub).
    apply IH in Hsub as [H1 H2]. rewrite fwd_height_unfold.
    unfold Fwd.budget in *. fold (len layers) in *.
    destruct (Fwd.children e) as [sub|]; simpl in *; split; intros; lia. }
  split; [intros H0|]; apply max_list_with_le; intros e He;
    by apply Hall in He as [H1 H2]; auto.
Qed.

Lemma bwd_trace_levels layers top_k fuel :
  forall layer neuron depth r,
    Bwd.trace_from_neuron layers top_k fuel layer neuron depth = Some (Ok r) ->
    (0 <= depth -> (bwd_levels (or_empty r) <= Z.to_nat depth)%nat) /\
    (bwd_levels (or_empty r) <= Bwd.budget layer)%nat.
Proof.
  induction fuel as [|fuel IH]; intros layer neuron depth r;
    rewrite bwd_trace_unfold;
    destruct ((depth =? 0) || (layer <=? 0)) eqn:Hterm;
    try done;
    try (intros [= <-]; simpl; split; intros; lia).
  apply orb_false_iff in Hterm as [Hd Hlay].
  intros H. apply bindM_Ok_inv in H as (cands & Hc & H).
  injection H as <-. apply bwd_candidates_parents in Hc.
  rewrite Forall_forall in Hc.
  destruct (cut_or_none (top_k * 2) (sort_desc Bwd.score cands)) as [res|] eqn:E;
    [|simpl; split; intros; lia].
  apply cut_or_none_Some_inv in E as [_ ->]. simpl.
  assert (Hall : forall e,
    e ∈ slice_to (top_k * 2) (sort_desc Bwd.score cands) ->
    (0 <= depth -> (bwd_height e <= Z.to_nat depth)%nat) /\
    (bwd_height e <= Bwd.budget layer)%nat).
  { intros e He. apply elem_of_slice_to, elem_of_sort_desc in He.
    destruct (Hc e He) as (l & n & Hl & Hsub).
    apply IH in Hsub as [H1 H2]. rewrite bwd_height_unfold.
    unfold Bwd.budget in *.
    destruct (Bwd.parents e) as [sub|]; simpl in *; split; intros; lia. }
  split; [intros H0|]; apply max_list_with_le; intros e He;
    by apply Hall in He as [H1 H2]; auto.
Qed.

(** X10. A returned trace has at most [depth] nested levels when
    [depth >= 0], and, whatever the depth, at most as many levels as there
    are layers after the start layer (forward) or before it (backward). *)
Theorem trace_levels_bounded
    (layers : layers_t) (layer neuron depth top_k : Z) :
  (forall res,
     Fwd.trace_circuit_forward layers layer neuron depth top_k = Some (Ok res) ->
     (0 <= depth -> Z.of_nat (fwd_levels res) <= depth) /\
     Z.of_nat (fwd_levels res) <= Z.max 0 (len layers - 1 - layer)) /\
  (forall res,
     Bwd.trace_circuit_backward layers layer neuron depth top_k = Some (Ok res) ->
     (0 <= depth -> Z.of_nat (bwd_levels res) <= depth) /\
     Z.of_nat (bwd_levels res) <= Z.max 0 layer).
Proof.
  split; intros res H.
  - unfold Fwd.trace_circuit_forward in H.
    apply bindM_Ok_inv in H as (r & Hr & H). injection H as <-.
    apply fwd_trace_levels in Hr as [H1 H2].
    unfold Fwd.budget in H2. fold (len layers) in H2. split; intros; lia.
  - unfold Bwd.trace_circuit_backward in H.
    apply bindM_Ok_inv in H as (r & Hr & H). injection H as <-.
    apply bwd_trace_levels in Hr as [H1 H2].
    unfold Bwd.budget in H2. split; intros; lia.
Qed.

(** ** [top_k = 0] *)

Lemma candidates_top_k_0_cases layers layer neuron :
  (exists c, neuron_get_connected_reschannels layers layer neuron = Ok c) \/
  neuron_get_connected_reschannels layers layer neuron =
    Raise (extractor_failure layers layer neuron).
Proof.
  destruct (neuron_get_connected_reschannels_cases layers layer neuron)
    as [[_ H]|[_ H]]; auto.
Qed.

(** X11. With [top_k = 0] no channel is kept: each tracer returns the
    empty list whenever the start neuron can be indexed or a terminal
    condition holds.  Otherwise it raises what indexing the start neuron
    raises: [ValueError] when the start layer exists and the start neuron
    does not fit a signed 64-bit integer, [IndexError] in every other
    case. *)
Theorem trace_top_k_zero (layers : layers_t) (layer neuron depth : Z) :
  (Fwd.trace_circuit_forward layers layer neuron depth 0 =
     if (depth =? 0) || (layer >=? len layers - 1) then Some (Ok [])
     else match neuron_get_connected_reschannels layers layer neuron with
          | Ok _ => Some (Ok [])
          | Raise _ => Some (Raise (extractor_failure layers layer neuron))
          end) /\
  (Bwd.trace_circuit_backward layers layer neuron depth 0 =
     if (depth =? 0) || (layer <=? 0) then Some (Ok [])
     else match neuron_get_connected_reschannels layers layer neuron with
          | Ok _ => Some (Ok [])
          | Raise _ => Some (Raise (extractor_failure layers layer neuron))
          end) /\
  (extractor_failure layers layer neuron = ValueError <->
   (exists b, addressed_layer layers layer = Some b) /\
   ~ (- 2 ^ 63 <= neuron < 2 ^ 63)) /\
  (extractor_failure layers layer neuron = IndexError <->
   addressed_layer layers layer = None \/ - 2 ^ 63 <= neuron < 2 ^ 63).
Proof.
  split; [|split; [|apply extractor_failure_cases]].
  - unfold Fwd.trace_circuit_forward.
    fold (fwd_expand layers 0 layer neuron depth). rewrite fwd_expand_eq.
    destruct ((depth =? 0) || (layer >=? len layers - 1)); [done|].
    unfold Fwd.candidates.
    destruct (candidates_top_k_0_cases layers layer neuron) as [[c ->]| ->];
      reflexivity.
  - unfold Bwd.trace_circuit_backward.
    fold (bwd_expand layers 0 layer neuron depth). rewrite bwd_expand_eq.
    destruct ((depth =? 0) || (layer <=? 0)); [done|].
    unfold Bwd.candidates.
    destruct (candidates_top_k_0_cases layers layer neuron) as [[c ->]| ->];
      reflexivity.
Qed.

Lemma trace_top_k_zero_witness :
  Fwd.trace_circuit_forward model3 0 1 1 0 = Some (Ok []) /\
  Fwd.trace_circuit_forward model3 0 2 1 0 = Some (Raise IndexError) /\
  Fwd.trace_circuit_forward model3 0 (2 ^ 64) 1 0 = Some (Raise ValueError) /\
  Bwd.trace_circuit_backward model3 2 (2 ^ 64) 1 0 = Some (Raise ValueError).
Proof.
  split; [|split; [|split]].
  - rewrite (proj1 (trace_top_k_zero model3 0 1 1)). vm_compute. reflexivity.
  - rewrite (proj1 (trace_top_k_zero model3 0 2 1)). vm_compute. reflexivity.
  - rewrite (proj1 (trace_top_k_zero model3 0 (2 ^ 64) 1)).
    vm_compute. reflexivity.
  - rewrite (proj1 (proj2 (trace_top_k_zero model3 2 (2 ^ 64) 1))).
    vm_compute. reflexivity.
Defined.

(** ** Depths that never bind *)

Lemma fwd_candidates_ext_depth layers top_k self1 self2 layer neuron d1 d2 :
  (forall l n, layer < l < len layers ->
     self1 l n (d1 - 1) = self2 l n (d2 - 1)) ->
  Fwd.candidates layers top_k self1 layer neuron d1 =
  Fwd.candidates layers top_k self2 layer neuron d2.
Proof.
  intros H. unfold Fwd.candidates.
  destruct (neuron_get_connected_reschannels layers layer neuron) as [c|e];
    simpl; [|done].
  apply for_each_ext. intros s ch _.
  apply for_each_ext. intros s' next Hnext. apply elem_of_range in Hnext.
  destruct (find_neurons_reading_channel layers next (channel_id ch) top_k)
    as [rs|e]; simpl; [|done].
  apply for_each_ext. intros s'' r _. rewrite H by lia. done.
Qed.

Lemma bwd_candidates_ext_depth layers top_k self1 self2 layer neuron d1 d2 :
  (forall l n, 0 <= l < layer ->
     self1 l n (d1 - 1) = self2 l n (d2 - 1)) ->
  Bwd.candidates layers top_k self1 layer neuron d1 =
  Bwd.candidates layers top_k self2 layer neuron d2.
Proof.
  intros H. unfold Bwd.candidates.
  destruct (neuron_get_connected_reschannels layers layer neuron) as [c|e];
    simpl; [|done].
  apply for_each_ext. intros s ch _.
  apply for_each_ext. intros s' prev Hprev. apply elem_of_range_down in Hprev.
  destruct (find_neurons_writing_channel layers prev (channel_id ch) top_k)
    as [ws|e]; simpl; [|done].
  apply for_each_ext. intros s'' w _. rewrite H by lia. done.
Qed.

Lemma fwd_trace_unbound layers top_k fuel :
  forall layer neuron d1 d2,
    d1 < 0 \/ len layers - 1 - layer < d1 ->
    d2 < 0 \/ len layers - 1 - layer < d2 ->
    Fwd.trace_from_neuron layers top_k fuel layer neuron d1 =
    Fwd.trace_from_neuron layers top_k fuel layer neuron d2.
Proof.
  induction fuel as [|fuel IH]; intros layer neuron d1 d2 H1 H2;
    rewrite !(fwd_trace_unfold layers top_k _ layer);
    destruct (Z.geb_spec layer (len layers - 1)) as [Hl|Hl];
    rewrite ?orb_true_r, ?orb_false_r; try done;
    (destruct (Z.eqb_spec d1 0) as [->|Hd1]; [lia|]);
    (destruct (Z.eqb_spec d2 0) as [->|Hd2]; [lia|]); [done|].
  f_equal. apply fwd_candidates_ext_depth. intros l n Hln. apply IH; lia.
Qed.

Lemma bwd_trace_unbound layers top_k fuel :
  forall layer neuron d1 d2,
    d1 < 0 \/ layer < d1 ->
    d2 < 0 \/ layer < d2 ->
    Bwd.trace_from_neuron layers top_k fuel layer neuron d1 =
    Bwd.trace_from_neuron layers top_k fuel layer neuron d2.
Proof.
  induction fuel as [|fuel IH]; intros layer neuron d1 d2 H1 H2;
    rewrite !(bwd_trace_unfold layers top_k _ layer);
    destruct (Z.leb_spec layer 0) as [Hl|Hl];
    rewrite ?orb_true_r, ?orb_false_r; try done;
    (destruct (Z.eqb_spec d1 0) as [->|Hd1]; [lia|]);
    (destruct (Z.eqb_spec d2 0) as [->|Hd2]; [lia|]); [done|].
  f_equal. apply bwd_candidates_ext_depth. intros l n Hln. apply IH; lia.
Qed.

(** X12. The depth budget never binds when it is negative or larger than
    the number of layers left to visit: all such depths give the same
    trace, so a negative depth asks for the complete trace. *)
Theorem trace_depth_unbound
    (layers : layers_t) (layer neuron d1 d2 top_k : Z) :
  d1 < 0 \/ Z.max (len layers - 1 - layer) layer < d1 ->
  d2 < 0 \/ Z.max (len layers - 1 - layer) layer < d2 ->
  Fwd.trace_circuit_forward layers layer neuron d1 top_k =
    Fwd.trace_circuit_forward layers layer neuron d2 top_k /\
  Bwd.trace_circuit_backward layers layer neuron d1 top_k =
    Bwd.trace_circuit_backward layers layer neuron d2 top_k.
Proof.
  intros H1 H2. split.
  - unfold Fwd.trace_circuit_forward.
    rewrite (fwd_trace_unbound layers top_k _ layer neuron d1 d2); [done| |]; lia.
  - unfold Bwd.trace_circuit_backward.
    rewrite (bwd_trace_unbound layers top_k _ layer neuron d1 d2); [done| |]; lia.
Qed.

Lemma trace_depth_unbound_witness :
  Fwd.trace_circuit_forward model3 1 0 (-1) 1 =
    Fwd.trace_circuit_forward model3 1 0 2 1 /\
  Bwd.trace_circuit_backward model3 1 0 (-1) 1 =
    Bwd.trace_circuit_backward model3 1 0 2 1.
Proof.
  apply (trace_depth_unbound model3 1 0 (-1) 2 1); [left; lia|].
  right. vm_compute. reflexivity.
Defined.

(** ** Failures and results of [get_channel_connections] on any model *)

Lemma for_each_r_raises_only_IndexError {A S} (l : list A) (s : S) body :
  (forall s x, raises_only_IndexError (body s x)) ->
  raises_only_IndexError (for_each_r l s body).
Proof.
  intros H. revert s. induction l as [|x l IH]; intros s e; simpl; [done|].
  destruct (body s x) as [s'|e'] eqn:E; simpl; [apply IH|].
  intros [= <-]. by apply (H s x).
Qed.

Lemma get_channel_connections_checked layers l0 rest channel top_k :
  layers = l0 :: rest ->
  get_channel_connections layers channel top_k =
    if (channel <? 0) || (channel >=? Z.of_nat (nrows (weight (c_proj (mlp l0)))))
    then Raise (HTTPException 400
           (channel_range_detail (Z.of_nat (nrows (weight (c_proj (mlp l0)))))))
    else
      let* by_layer :=
        for_each_r (range 0 (len layers)) (∅, ∅) (fun st layer_idx =>
          let* readers :=
            find_neurons_reading_channel layers layer_idx channel top_k in
          let* writers :=
            find_neurons_writing_channel layers layer_idx channel top_k in
          let readers_by_layer :=
            match readers with
            | [] => fst st
            | _ :: _ => <[layer_idx := readers]> (fst st)
            end in
          let writers_by_layer :=
            match writers with
            | [] => snd st
            | _ :: _ => <[layer_idx := writers]> (snd st)
            end in
          Ok (readers_by_layer, writers_by_layer)) in
      Ok {| resp_channel_id := channel;
            readers_by_layer := fst by_layer;
            writers_by_layer := snd by_layer |}.
Proof.
  intros ->. unfold get_channel_connections.
  rewrite (getitem_nonneg (l0 :: rest) 0 l0) by done. done.
Qed.

(** X13. On any model, [get_channel_connections] raises [IndexError] when
    the model has no layer; otherwise it raises the [HTTPException] with
    status 400 and the range message exactly when the channel is outside
    [0, d_model), [d_model] being read from layer 0, and any other failure
    is an [IndexError]. *)
Theorem get_channel_connections_errors
    (layers : layers_t) (channel top_k : Z) :
  (layers = [] ->
   get_channel_connections layers channel top_k = Raise IndexError) /\
  (forall l0 rest, layers = l0 :: rest ->
     (~ in_range (nrows (weight (c_proj (mlp l0)))) channel ->
      get_channel_connections layers channel top_k =
        Raise (HTTPException 400
          ("Channel must be between 0 and " +:+
           pretty (Z.of_nat (nrows (weight (c_proj (mlp l0)))) - 1)))) /\
     (in_range (nrows (weight (c_proj (mlp l0)))) channel ->
      raises_only_IndexError (get_channel_connections layers channel top_k))).
Proof.
  split; [by intros ->|]. intros l0 rest El.
  rewrite (get_channel_connections_checked _ _ _ _ _ El).
  unfold in_range. split; intros Hch.
  - destruct (Z.ltb_spec channel 0); [done|].
    destruct (Z.geb_spec channel (Z.of_nat (nrows (weight (c_proj (mlp l0))))));
      [done|lia].
  - destruct (Z.ltb_spec channel 0); [lia|].
    destruct (Z.geb_spec channel (Z.of_nat (nrows (weight (c_proj (mlp l0))))));
      [lia|]. cbn [orb].
    assert (Hfit : fits_int64 channel = true).
    { apply (in_dim_rows_fits (weight (c_proj (mlp l0)))).
      unfold in_dim. lia. }
    intros e He.
    match type of He with
    | bind ?m _ = _ => destruct m as [st|e'] eqn:E
    end; simpl in He; [done|]. injection He as <-.
    revert E. apply for_each_r_raises_only_IndexError. clear -Hfit.
    intros st i e He.
    destruct (find_neurons_reading_channel layers i channel top_k) as [rs|e1] eqn:E1;
      simpl in He.
    + destruct (find_neurons_writing_channel layers i channel top_k) as [ws|e2] eqn:E2;
        simpl in He; [done|]. injection He as <-.
      by apply (writers_raise_only_IndexError layers i channel top_k).
    + injection He as <-.
      by apply (readers_raise_only_IndexError layers i channel top_k).
Qed.

Lemma by_layer_loop_inv layers ch top_k n :
  forall st : gmap Z (list neuron_conn) * gmap Z (list neuron_conn),
    for_each_r (range 0 (Z.of_nat n)) (∅, ∅) (fun st layer_idx =>
      let* readers := find_neurons_reading_channel layers layer_idx ch top_k in
      let* writers := find_neurons_writing_channel layers layer_idx ch top_k in
      let readers_by_layer :=
        match readers with
        | [] => fst st
        | _ :: _ => <[layer_idx := readers]> (fst st)
        end in
      let writers_by_layer :=
        match writers with
        | [] => snd st
        | _ :: _ => <[layer_idx := writers]> (snd st)
        end in
      Ok (readers_by_layer, writers_by_layer)) = Ok st ->
    (forall i rs, fst st !! i = Some rs <->
       in_range n i /\
       find_neurons_reading_channel layers i ch top_k = Ok rs /\ rs <> []) /\
    (forall i ws, snd st !! i = Some ws <->
       in_range n i /\
       find_neurons_writing_channel layers i ch top_k = Ok ws /\ ws <> []).
Proof.
  induction n as [|n IH]; intros st.
  - intros [= <-]. unfold in_range.
    split; intros i rs; simpl; rewrite lookup_empty; split; try done; lia.
  - rewrite range_0_S, for_each_r_app. intros H.
    apply bind_Ok_inv in H as (st0 & Hst0 & H).
    destruct (IH st0 Hst0) as [Hr Hw]. simpl in H.
    apply bind_Ok_inv in H as (st1 & H & [= <-]).
    apply bind_Ok_inv in H as (rs & Hrs & H).
    apply bind_Ok_inv in H as (ws & Hws & [= <-]). simpl. split.
    + by apply (by_layer_step
        (fun i => find_neurons_reading_channel layers i ch top_k)).
    + by apply (by_layer_step
        (fun i => find_neurons_writing_channel layers i ch top_k)).
Qed.

(** X14. On any model, a response of [get_channel_connections] echoes the
    channel, has keys only in [0, numLayers), and stores under a key
    exactly the non-empty readers (writers) list of that layer: no empty
    list is ever stored. *)
Theorem get_channel_connections_response
    (layers : layers_t) (channel top_k : Z) (resp : channel_response) :
  get_channel_connections layers channel top_k = Ok resp ->
  resp_channel_id resp = channel /\
  (forall i rs,
     readers_by_layer resp !! i = Some rs <->
     in_range (length layers) i /\
     find_neurons_reading_channel layers i channel top_k = Ok rs /\
     rs <> []) /\
  (forall i ws,
     writers_by_layer resp !! i = Some ws <->
     in_range (length layers) i /\
     find_neurons_writing_channel layers i channel top_k = Ok ws /\
     ws <> []).
Proof.
  intros H. destruct layers as [|l0 rest] eqn:El; [done|].
  rewrite <- El in H |- *.
  rewrite (get_channel_connections_checked _ _ _ _ _ El) in H.
  destruct ((channel <? 0) ||
            (channel >=? Z.of_nat (nrows (weight (c_proj (mlp l0)))))); [done|].
  apply bind_Ok_inv in H as (st & Hst & [= <-]). simpl.
  split; [done|]. by apply (by_layer_loop_inv layers channel top_k (length layers)).
Qed.

Lemma get_channel_connections_response_witness :
  exists resp,
    get_channel_connections model3 0 (-1) = Ok resp /\
    resp_channel_id resp = 0 /\
    (forall i rs,
       readers_by_layer resp !! i = Some rs <->
       in_range (length model3) i /\
       find_neurons_reading_channel model3 i 0 (-1) = Ok rs /\
       rs <> []).
Proof.
  eexists. split; [reflexivity|].
  destruct (get_channel_connections_response model3 0 (-1) _ eq_refl)
    as (H1 & H2 & _).
  split; [exact H1|exact H2].
Defined.

(** ** The metadata route and the secret check *)

(** X15. [root] raises [IndexError] on a model without layers; otherwise it
    reports the number of layers and the sizes of layer 0, and these are
    the bounds the other two routes enforce: a layer outside
    [0, num_layers), a neuron of layer 0 outside [0, mlp_size) and a
    channel outside [0, d_model) are each rejected with status 400 and a
    message that names the reported bound. *)
Theorem root_reports_enforced_bounds (layers : layers_t) :
  (layers = [] -> root layers = Raise IndexError) /\
  (forall l0 rest, layers = l0 :: rest ->
     root layers =
       Ok {| status := "ok";
             model := "openai/circuit-sparsity";
             num_layers := len layers;
             mlp_size := Z.of_nat (nrows (weight (c_fc (mlp l0))));
             d_model := Z.of_nat (nrows (weight (c_proj (mlp l0)))) |}) /\
  (forall info, root layers = Ok info ->
     (forall layer neuron depth top_k,
        ~ (0 <= layer < num_layers info) ->
        get_neuron_connections layers layer neuron depth top_k =
          Some (Raise (HTTPException 400
            ("Layer must be between 0 and " +:+
             pretty (num_layers info - 1))))) /\
     (forall neuron depth top_k,
        ~ (0 <= neuron < mlp_size info) ->
        get_neuron_connections layers 0 neuron depth top_k =
          Some (Raise (HTTPException 400
            ("Neuron index must be between 0 and " +:+
             pretty (mlp_size info - 1))))) /\
     (forall channel top_k,
        ~ (0 <= channel < d_model info) ->
        get_channel_connections layers channel top_k =
          Raise (HTTPException 400
            ("Channel must be between 0 and " +:+
             pretty (d_model info - 1))))).
Proof.
  split; [by intros ->|].
  assert (Hroot : forall l0 rest, layers = l0 :: rest ->
     root layers =
       Ok {| status := "ok";
             model := "openai/circuit-sparsity";
             num_layers := len layers;
             mlp_size := Z.of_nat (nrows (weight (c_fc (mlp l0))));
             d_model := Z.of_nat (nrows (weight (c_proj (mlp l0)))) |}).
  { by intros l0 rest ->. }
  split; [exact Hroot|]. intros info Hinfo.
  destruct layers as [|l0 rest] eqn:El; [done|].
  rewrite (Hroot l0 rest eq_refl) in Hinfo. rewrite <- El in Hinfo |- *.
  injection Hinfo as <-. simpl.
  split; [|split].
  - intros layer neuron depth top_k Hl.
    by apply neuron_handler_bad_layer.
  - intros neuron depth top_k Hn.
    apply (neuron_handler_bad_neuron _ _ _ _ _ _ _ l0);
      [done|by rewrite El|done].
  - intros channel top_k Hch.
    rewrite (get_channel_connections_checked _ _ _ _ _ El).
    destruct (Z.ltb_spec channel 0); [done|].
    destruct (Z.geb_spec channel (Z.of_nat (nrows (weight (c_proj (mlp l0))))));
      [done|lia].
Qed.

(** X16. [verify_secret] lets a request through exactly when no secret is
    configured or the header equals the secret; with a secret configured, a
    missing header gives status 401 and a different one status 403. *)
Theorem verify_secret_cases (SECRET x_secret_key : option string) :
  (verify_secret SECRET x_secret_key = Ok tt <->
     SECRET = None \/ x_secret_key = SECRET) /\
  (verify_secret SECRET x_secret_key =
     Raise (HTTPException 401 "X-SECRET-KEY header required") <->
     SECRET <> None /\ x_secret_key = None) /\
  (verify_secret SECRET x_secret_key =
     Raise (HTTPException 403 "Invalid secret key") <->
     exists secret key,
       SECRET = Some secret /\ x_secret_key = Some key /\ key <> secret).
Proof.
  unfold verify_secret.
  destruct SECRET as [secret|], x_secret_key as [key|]; simpl;
    try destruct (String.eqb_spec key secret) as [->|Hne]; simpl.
  all: repeat split; try done; try (intros [?|?]; congruence);
    try (intros [? ?]; congruence);
    try (intros (? & ? & ? & ? & ?); congruence); eauto.
Qed.

(** ** Live edges *)

Lemma Qabs_pos w : ~ (w == 0)%Q -> (0 < Qabs w)%Q.
Proof.
  intros Hw. destruct (Qlt_le_dec 0 (Qabs w)) as [H|H]; [done|].
  exfalso. apply Hw.
  assert (H0 : (Qabs w == 0)%Q).
  { apply Qle_antisym; [done|apply Qabs_nonneg]. }
  revert H0. apply Qabs_case; intros _ H0; [done|].
  rewrite <- (Qopp_involutive w), H0. reflexivity.
Qed.

Lemma connections_nonzero layers layer neuron c :
  neuron_get_connected_reschannels layers layer neuron = Ok c ->
  (forall x, x ∈ conn_in c -> ~ (channel_weight x == 0)%Q) /\
  (forall x, x ∈ conn_out c -> ~ (channel_weight x == 0)%Q).
Proof.
  unfold neuron_get_connected_reschannels. intros H.
  apply bind_Ok_inv in H as (l & _ & H).
  apply bind_Ok_inv in H as (wi & _ & H).
  apply bind_Ok_inv in H as (l' & _ & H).
  apply bind_Ok_inv in H as (wo & _ & [= <-]). simpl.
  split; intros x Hx; by apply elem_of_channel_conns in Hx as (_ & _ & Hx).
Qed.

Lemma readers_nonzero layers layer ch top_k rs :
  find_neurons_reading_channel layers layer ch top_k = Ok rs ->
  forall r, r ∈ rs -> ~ (neuron_weight r == 0)%Q.
Proof.
  unfold find_neurons_reading_channel. intros H.
  apply bind_Ok_inv in H as (l & _ & H).
  apply bind_Ok_inv in H as (ws & _ & [= <-]).
  intros r Hr.
  by apply elem_of_slice_to, elem_of_sort_desc, elem_of_neuron_conns in Hr
    as (_ & _ & Hr).
Qed.

Lemma writers_nonzero layers layer ch top_k ws :
  find_neurons_writing_channel layers layer ch top_k = Ok ws ->
  forall w, w ∈ ws -> ~ (neuron_weight w == 0)%Q.
Proof.
  unfold find_neurons_writing_channel. intros H.
  apply bind_Ok_inv in H as (l & _ & H).
  apply bind_Ok_inv in H as (xs & _ & [= <-]).
  intros w Hw.
  by apply elem_of_slice_to, elem_of_sort_desc, elem_of_neuron_conns in Hw
    as (_ & _ & Hw).
Qed.

Lemma fwd_edge_live layers top_k layer neuron e :
  fwd_edge layers top_k layer neuron e -> fwd_live e.
Proof.
  intros (_ & (c & Hc & Hw) & (rs & Hrs & Hr)).
  apply connections_nonzero in Hc as [_ Hc]. apply Hc in Hw.
  eapply readers_nonzero in Hr; [|done]. simpl in *.
  split; [done|]. split; [done|].
  unfold Fwd.score. apply Qmult_lt_0_compat; by apply Qabs_pos.
Qed.

Lemma bwd_edge_live layers top_k layer neuron e :
  bwd_edge layers top_k layer neuron e -> bwd_live e.
Proof.
  intros (_ & (c & Hc & Hr) & (ws & Hws & Hw)).
  apply connections_nonzero in Hc as [Hc _]. apply Hc in Hr.
  eapply writers_nonzero in Hw; [|done]. simpl in *.
  split; [done|]. split; [done|].
  unfold Bwd.score. apply Qmult_lt_0_compat; by apply Qabs_pos.
Qed.

(** X17. No zero weight enters a trace: in every list of a returned trace,
    at any depth, each entry has a non-zero write weight and a non-zero
    read weight, hence a strictly positive score. *)
Theorem trace_entries_live
    (layers : layers_t) (layer neuron depth top_k : Z) :
  (forall res,
     Fwd.trace_circuit_forward layers layer neuron depth top_k = Some (Ok res) ->
     fwd_everywhere (Forall fwd_live) res) /\
  (forall res,
     Bwd.trace_circuit_backward layers layer neuron depth top_k = Some (Ok res) ->
     bwd_everywhere (Forall bwd_live) res).
Proof.
  split; intros res H.
  - unfold Fwd.trace_circuit_forward in H.
    apply bindM_Ok_inv in H as ([l|] & Hl & H); injection H as <-; simpl;
      [|by split; constructor].
    revert Hl. apply fwd_trace_everywhere. intros fuel la ne de cands Hc _.
    apply fwd_candidates_edges in Hc. rewrite Forall_forall in Hc |- *.
    intros e He. apply elem_of_slice_to, elem_of_sort_desc in He.
    destruct (Hc e He) as [Hedge _]. by eapply fwd_edge_live.
  - unfold Bwd.trace_circuit_backward in H.
    apply bindM_Ok_inv in H as ([l|] & Hl & H); injection H as <-; simpl;
      [|by split; constructor].
    revert Hl. apply bwd_trace_everywhere. intros fuel la ne de cands Hc _.
    apply bwd_candidates_edges in Hc. rewrite Forall_forall in Hc |- *.
    intros e He. apply elem_of_slice_to, elem_of_sort_desc in He.
    destruct (Hc e He) as [Hedge _]. by eapply bwd_edge_live.
Qed.

(** ** Traces stay inside the model *)

Lemma fwd_edge_closed layers d top_k layer neuron e :
  wf_model layers d -> valid_neuron layers layer neuron ->
  fwd_edge layers top_k layer neuron e -> fwd_closed layers d e.
Proof.
  intros Hwf Hv (Hl & (c & Hc & Hch) & (rs & Hrs & Hr)).
  destruct (valid_neuron_connections _ _ _ _ Hwf Hv) as (wi & wo & Hc' & Hwi & Hwo).
  rewrite Hc' in Hc. injection Hc as <-. simpl in Hch.
  apply elem_of_channel_conns in Hch as (H0 & H1 & _). simpl in H0, H1.
  apply lookup_lt_Some in H1.
  assert (Hin : in_range d (Fwd.via_channel e)) by (unfold in_range; lia).
  split; [|done]. destruct Hv as (b & Hlay & _).
  destruct (readers_valid layers d (Fwd.layer e) (Fwd.via_channel e) top_k Hwf)
    as (rs' & Hrs' & Hvalid); [unfold in_range, len in *; lia|done|].
  rewrite Hrs' in Hrs. injection Hrs as <-.
  rewrite Forall_forall in Hvalid. by apply (Hvalid _ Hr).
Qed.

Lemma bwd_edge_closed layers d top_k layer neuron e :
  wf_model layers d -> valid_neuron layers layer neuron ->
  bwd_edge layers top_k layer neuron e -> bwd_closed layers d e.
Proof.
  intros Hwf Hv (Hl & (c & Hc & Hch) & (ws & Hws & Hw)).
  destruct (valid_neuron_connections _ _ _ _ Hwf Hv) as (wi & wo & Hc' & Hwi & Hwo).
  rewrite Hc' in Hc. injection Hc as <-. simpl in Hch.
  apply elem_of_channel_conns in Hch as (H0 & H1 & _). simpl in H0, H1.
  apply lookup_lt_Some in H1.
  assert (Hin : in_range d (Bwd.via_channel e)) by (unfold in_range; lia).
  split; [|done]. destruct Hv as (b & Hlay & Hb & _).
  apply lookup_lt_Some in Hb.
  destruct (writers_valid layers d (Bwd.layer e) (Bwd.via_channel e) top_k Hwf)
    as (ws' & Hws' & Hvalid); [unfold in_range; lia|done|].
  rewrite Hws' in Hws. injection Hws as <-.
  rewrite Forall_forall in Hvalid. by apply (Hvalid _ Hw).
Qed.

Lemma fwd_trace_closed layers d top_k :
  wf_model layers d ->
  forall fuel layer neuron depth res,
    valid_neuron layers layer neuron ->
    Fwd.trace_from_neuron layers top_k fuel layer neuron depth
      = Some (Ok (Some res)) ->
    fwd_everywhere (Forall (fwd_closed layers d)) res.
Proof.
  intros Hwf. induction fuel as [|fuel IH]; intros layer neuron depth res Hv;
    rewrite fwd_trace_unfold;
    destruct ((depth =? 0) || (layer >=? len layers - 1)); try done.
  intros H. apply bindM_Ok_inv in H as (cands & Hc & H).
  injection H as H. apply cut_or_none_Some_inv in H as [_ ->].
  apply fwd_candidates_edges in Hc. rewrite Forall_forall in Hc.
  assert (Hall : forall e,
    e ∈ slice_to (top_k * 2) (sort_desc Fwd.score cands) ->
    fwd_closed layers d e /\ fwd_below (Forall (fwd_closed layers d)) e).
  { intros e He. apply elem_of_slice_to, elem_of_sort_desc in He.
    destruct (Hc e He) as [Hedge Hsub].
    pose proof (fwd_edge_closed _ _ _ _ _ _ Hwf Hv Hedge) as Hcl.
    split; [done|]. destruct e as [la ne rw ch ww [sub|]]; [|done].
    apply fwd_below_Some. simpl in *. eapply IH; [|done]. apply Hcl. }
  split; apply Forall_forall; intros e He; by apply Hall in He as [? ?].
Qed.

Lemma bwd_trace_closed layers d top_k :
  wf_model layers d ->
  forall fuel layer neuron depth res,
    valid_neuron layers layer neuron ->
    Bwd.trace_from_neuron layers top_k fuel layer neuron depth
      = Some (Ok (Some res)) ->
    bwd_everywhere (Forall (bwd_closed layers d)) res.
Proof.
  intros Hwf. induction fuel as [|fuel IH]; intros layer neuron depth res Hv;
    rewrite bwd_trace_unfold;
    destruct ((depth =? 0) || (layer <=? 0)); try done.
  intros H. apply bindM_Ok_inv in H as (cands & Hc & H).
  injection H as H. apply cut_or_none_Some_inv in H as [_ ->].
  apply bwd_candidates_edges in Hc. rewrite Forall_forall in Hc.
  assert (Hall : forall e,
    e ∈ slice_to (top_k * 2) (sort_desc Bwd.score cands) ->
    bwd_closed layers d e /\ bwd_below (Forall (bwd_closed layers d)) e).
  { intros e He. apply elem_of_slice_to, elem_of_sort_desc in He.
    destruct (Hc e He) as [Hedge Hsub].
    pose proof (bwd_edge_closed _ _ _ _ _ _ Hwf Hv Hedge) as Hcl.
    split; [done|]. destruct e as [la ne ww ch rw [sub|]]; [|done].
    apply bwd_below_Some. simpl in *. eapply IH; [|done]. apply Hcl. }
  split; apply Forall_forall; intros e He; by apply Hall in He as [? ?].
Qed.

(** X18. On a model of well-formed shapes, a trace started at an in-range
    neuron stays inside the model: every entry, at any depth, names an
    in-range layer, an in-range neuron of that layer and an in-range
    channel, so each reported neuron can be queried in turn. *)
Theorem trace_entries_in_range
    (layers : layers_t) (d_model : nat) (layer neuron depth top_k : Z) :
  wf_model layers d_model ->
  valid_neuron layers layer neuron ->
  (exists res,
     Fwd.trace_circuit_forward layers layer neuron depth top_k = Some (Ok res) /\
     fwd_everywhere (Forall (fwd_closed layers d_model)) res) /\
  (exists res,
     Bwd.trace_circuit_backward layers layer neuron depth top_k = Some (Ok res) /\
     bwd_everywhere (Forall (bwd_closed layers d_model)) res).
Proof.
  intros Hwf Hv. split.
  - destruct (fwd_trace_returns layers d_model layer neuron depth top_k Hwf Hv)
      as [res Hres].
    exists res. split; [done|]. unfold Fwd.trace_circuit_forward in Hres.
    apply bindM_Ok_inv in Hres as ([l|] & Hl & H); injection H as <-; simpl;
      [by eapply fwd_trace_closed|by split; constructor].
  - destruct (bwd_trace_returns layers d_model layer neuron depth top_k Hwf Hv)
      as [res Hres].
    exists res. split; [done|]. unfold Bwd.trace_circuit_backward in Hres.
    apply bindM_Ok_inv in Hres as ([l|] & Hl & H); injection H as <-; simpl;
      [by eapply bwd_trace_closed|by split; constructor].
Qed.

Lemma trace_entries_in_range_witness :
  exists res,
    Fwd.trace_circuit_forward model3 0 0 2 1 = Some (Ok res) /\
    fwd_everywhere (Forall (fwd_closed model3 2)) res.
Proof.
  apply (trace_entries_in_range model3 2 0 0 2 1).
  - repeat constructor.
  - exists dense2. split; [lia|]. split; [reflexivity|].
    unfold in_range. simpl. lia.
Defined.

(** ** Forward and backward candidates mirror each other *)

Lemma mapM_Ok_elem {A B} (f : A -> M B) (l : list A) (ys : list B) :
  mapM f l = Some (Ok ys) ->
  forall x, x ∈ l -> exists y, f x = Some (Ok y) /\ y ∈ ys.
Proof.
  revert ys. induction l as [|a l IH]; intros ys H x Hx.
  - by apply elem_of_nil in Hx.
  - simpl in H. apply bindM_Ok_inv in H as (y & Hy & H).
    apply bindM_Ok_inv in H as (ys' & Hys' & [= <-]).
    apply elem_of_cons in Hx as [->|Hx].
    + exists y. split; [done|]. apply list_elem_of_here.
    + destruct (IH ys' Hys' x Hx) as (y' & Hy' & Hin).
      exists y'. split; [done|]. by apply list_elem_of_further.
Qed.

Lemma flat_mapM_Ok_elem {A B} (f : A -> M (list B)) (l : list A) (ys : list B) :
  flat_mapM f l = Some (Ok ys) ->
  forall x, x ∈ l -> exists zs, f x = Some (Ok zs) /\ forall z, z ∈ zs -> z ∈ ys.
Proof.
  unfold flat_mapM. intros H x Hx.
  apply bindM_Ok_inv in H as (yss & Hyss & [= <-]).
  destruct (mapM_Ok_elem f l yss Hyss x Hx) as (zs & Hzs & Hin).
  exists zs. split; [done|]. intros z Hz.
  apply list_elem_of_In, in_concat. exists zs.
  split; by apply list_elem_of_In.
Qed.

Lemma fwd_candidates_complete layers top_k self layer neuron depth cands c :
  Fwd.candidates layers top_k self layer neuron depth = Some (Ok cands) ->
  neuron_get_connected_reschannels layers layer neuron = Ok c ->
  forall ch next rs r,
    ch ∈ slice_to top_k (sort_desc abs_channel_weight (conn_out c)) ->
    layer < next < len layers ->
    find_neurons_reading_channel layers next (channel_id ch) top_k = Ok rs ->
    r ∈ rs ->
    exists sub,
      Fwd.Entry next (neuron_id r) (neuron_weight r)
        (channel_id ch) (channel_weight ch) sub ∈ cands.
Proof.
  rewrite fwd_candidates_refines. unfold fwd_candidates_spec.
  intros H Hc ch next rs r Hch Hnext Hrs Hr. rewrite Hc in H. simpl in H.
  destruct (flat_mapM_Ok_elem _ _ _ H ch Hch) as (zs & Hzs & Hin).
  assert (Hnext' : next ∈ range (layer + 1) (len layers))
    by (apply elem_of_range; lia).
  destruct (flat_mapM_Ok_elem _ _ _ Hzs next Hnext') as (zs' & Hzs' & Hin').
  rewrite Hrs in Hzs'. simpl in Hzs'.
  destruct (mapM_Ok_elem _ _ _ Hzs' r Hr) as (e & He & Hin'').
  apply bindM_Ok_inv in He as (sub & _ & [= <-]).
  exists sub. by apply Hin, Hin'.
Qed.

Lemma bwd_candidates_complete layers top_k self layer neuron depth cands c :
  Bwd.candidates layers top_k self layer neuron depth = Some (Ok cands) ->
  neuron_get_connected_reschannels layers layer neuron = Ok c ->
  forall ch prev ws w,
    ch ∈ slice_to top_k (sort_desc abs_channel_weight (conn_in c)) ->
    0 <= prev < layer ->
    find_neurons_writing_channel layers prev (channel_id ch) top_k = Ok ws ->
    w ∈ ws ->
    exists sub,
      Bwd.Entry prev (neuron_id w) (neuron_weight w)
        (channel_id ch) (channel_weight ch) sub ∈ cands.
Proof.
  rewrite bwd_candidates_refines. unfold bwd_candidates_spec.
  intros H Hc ch prev ws w Hch Hprev Hws Hw. rewrite Hc in H. simpl in H.
  destruct (flat_mapM_Ok_elem _ _ _ H ch Hch) as (zs & Hzs & Hin).
  assert (Hprev' : prev ∈ range_down (layer - 1))
    by (apply elem_of_range_down; lia).
  destruct (flat_mapM_Ok_elem _ _ _ Hzs prev Hprev') as (zs' & Hzs' & Hin').
  rewrite Hws in Hzs'. simpl in Hzs'.
  destruct (mapM_Ok_elem _ _ _ Hzs' w Hw) as (e & He & Hin'').
  apply bindM_Ok_inv in He as (sub & _ & [= <-]).
  exists sub. by apply Hin, Hin'.
Qed.

Lemma out_conn_iff t n ch w :
  {| channel_id := ch; channel_weight := w |} ∈ channel_conns (column_at t n) <->
  in_range (nrows t) ch /\ w = entry t (Z.to_nat ch) n /\ ~ (w == 0)%Q.
Proof.
  rewrite elem_of_channel_conns. simpl. rewrite lookup_column_at.
  unfold in_range. split;
    [intros (H0 & [H1 ->] & H2)|intros ([H0 H1] & -> & H2)];
    repeat split; try done; lia.
Qed.

Lemma in_conn_iff t n ch w :
  {| channel_id := ch; channel_weight := w |} ∈ channel_conns (row_at t n) <->
  in_range (ncols t) ch /\ w = entry t n (Z.to_nat ch) /\ ~ (w == 0)%Q.
Proof.
  rewrite elem_of_channel_conns. simpl. rewrite lookup_row_at.
  unfold in_range. split;
    [intros (H0 & [H1 ->] & H2)|intros ([H0 H1] & -> & H2)];
    repeat split; try done; lia.
Qed.

Lemma channel_conns_length ws : (length (channel_conns ws) <= length ws)%nat.
Proof.
  unfold channel_conns, nonzero_entries, enumerate.
  rewrite length_map. etransitivity; [apply filter_length_le|].
  generalize 0. induction ws as [|w ws IH]; intros z; simpl; [lia|].
  specialize (IH (z + 1)). lia.
Qed.

Lemma kept_all top_k ws x :
  Z.of_nat (length ws) <= top_k ->
  x ∈ slice_to top_k (sort_desc abs_channel_weight (channel_conns ws)) <->
  x ∈ channel_conns ws.
Proof.
  intros Hk. rewrite slice_to_all, elem_of_sort_desc; [done|].
  rewrite sort_desc_length. pose proof (channel_conns_length ws). lia.
Qed.

Lemma ranking_all top_k ws x :
  Z.of_nat (length ws) <= top_k ->
  x ∈ slice_to top_k (ranking ws) <-> x ∈ ranking ws.
Proof.
  intros Hk. rewrite slice_to_all; [done|].
  pose proof (ranking_length ws). lia.
Qed.

Lemma length_row_at t i : length (row_at t i) = ncols t.
Proof. unfold row_at. by rewrite length_map, length_seq. Qed.

Lemma length_column_at t j : length (column_at t j) = nrows t.
Proof. unfold column_at. by rewrite length_map, length_seq. Qed.

Lemma fwd_candidates_return layers d top_k layer neuron depth :
  wf_model layers d -> valid_neuron layers layer neuron ->
  depth <> 0 -> layer < len layers - 1 ->
  exists cands,
    Fwd.candidates layers top_k (fwd_expand layers top_k) layer neuron depth
      = Some (Ok cands).
Proof.
  intros Hwf Hv Hd Hl.
  destruct (no_raise_is_Some_Ok (fwd_expand layers top_k layer neuron depth))
    as [r Hr].
  { by eapply fwd_trace_no_raise. }
  { by apply (fwd_budget_enough layers top_k (Fwd.budget layers layer)
                (Fwd.budget layers layer) layer neuron depth). }
  rewrite fwd_expand_eq in Hr.
  replace ((depth =? 0) || (layer >=? len layers - 1)) with false in Hr
    by (symmetry; apply orb_false_iff; lia).
  apply bindM_Ok_inv in Hr as (cands & Hc & _). eauto.
Qed.

Lemma bwd_candidates_return layers d top_k layer neuron depth :
  wf_model layers d -> valid_neuron layers layer neuron ->
  depth <> 0 -> 0 < layer ->
  exists cands,
    Bwd.candidates layers top_k (bwd_expand layers top_k) layer neuron depth
      = Some (Ok cands).
Proof.
  intros Hwf Hv Hd Hl.
  destruct (no_raise_is_Some_Ok (bwd_expand layers top_k layer neuron depth))
    as [r Hr].
  { by eapply bwd_trace_no_raise. }
  { by apply (bwd_budget_enough layers top_k (Bwd.budget layer)
                (Bwd.budget layer) layer neuron depth). }
  rewrite bwd_expand_eq in Hr.
  replace ((depth =? 0) || (layer <=? 0)) with false in Hr
    by (symmetry; apply orb_false_iff; lia).
  apply bindM_Ok_inv in Hr as (cands & Hc & _). eauto.
Qed.

Lemma fwd_candidates_matrix layers d top_k self L n L' n' depth b b' cf :
  wf_model layers d ->
  0 <= L < L' ->
  layers !! Z.to_nat L = Some b ->
  layers !! Z.to_nat L' = Some b' ->
  in_range (nrows (weight (c_fc (mlp b)))) n ->
  in_range (nrows (weight (c_fc (mlp b')))) n' ->
  Z.of_nat d <= top_k ->
  Z.of_nat (nrows (weight (c_fc (mlp b')))) <= top_k ->
  Fwd.candidates layers top_k self L n depth = Some (Ok cf) ->
  forall ch w r,
    (exists sub, Fwd.Entry L' n' r ch w sub ∈ cf) <->
    in_range d ch /\
    w = entry (weight (c_proj (mlp b))) (Z.to_nat ch) (Z.to_nat n) /\
    ~ (w == 0)%Q /\
    r = entry (weight (c_fc (mlp b'))) (Z.to_nat n') (Z.to_nat ch) /\
    ~ (r == 0)%Q.
Proof.
  intros Hwf HL Hb Hb' Hn Hn' Hk1 Hk2 Hf ch w r.
  destruct (wf_model_lookup _ _ _ _ Hwf Hb) as (H1 & H2 & H3).
  destruct (wf_model_lookup _ _ _ _ Hwf Hb') as (H1' & H2' & H3').
  assert (Hc : neuron_get_connected_reschannels layers L n =
    Ok {| conn_in :=
            channel_conns (row_at (weight (c_fc (mlp b))) (Z.to_nat n));
          conn_out :=
            channel_conns (column_at (weight (c_proj (mlp b))) (Z.to_nat n)) |}).
  { apply connections_in_range; [lia|done|done|by rewrite <- H3]. }
  assert (Hrs : in_range d ch ->
    find_neurons_reading_channel layers L' ch top_k =
      Ok (slice_to top_k
            (ranking (column_at (weight (c_fc (mlp b'))) (Z.to_nat ch))))).
  { intros Hch. apply readers_in_range; [lia|done|by rewrite H1']. }
  split.
  - intros [sub He]. pose proof (fwd_candidates_edges _ _ _ _ _ _ _ Hf) as Hall.
    rewrite Forall_forall in Hall.
    destruct (Hall _ He) as [(_ & (c & Hc' & Hch) & (rs & Hrs' & Hr)) _].
    simpl in *. rewrite Hc in Hc'. injection Hc' as <-. simpl in Hch.
    apply out_conn_iff in Hch as (Hch & Hw & Hnz). rewrite H2 in Hch.
    rewrite (Hrs Hch) in Hrs'. injection Hrs' as <-.
    apply elem_of_slice_to, elem_of_ranking, column_entry_of in Hr
      as (_ & Hr & Hrnz). simpl in *. done.
  - intros (Hch & Hw & Hnz & Hr & Hrnz).
    destruct (fwd_candidates_complete _ _ _ _ _ _ _ _ Hf Hc
      {| channel_id := ch; channel_weight := w |} L'
      (slice_to top_k
         (ranking (column_at (weight (c_fc (mlp b'))) (Z.to_nat ch))))
      {| neuron_id := n'; neuron_weight := r |}) as [sub Hsub].
    + simpl. apply kept_all; [rewrite length_column_at; lia|].
      apply out_conn_iff. by rewrite H2.
    + apply lookup_lt_Some in Hb'. unfold len. lia.
    + simpl. by apply Hrs.
    + apply ranking_all; [rewrite length_column_at; lia|].
      by apply elem_of_ranking, column_entry_of.
    + eauto.
Qed.

Lemma bwd_candidates_matrix layers d top_k self L n L' n' depth b b' cb :
  wf_model layers d ->
  0 <= L < L' ->
  layers !! Z.to_nat L = Some b ->
  layers !! Z.to_nat L' = Some b' ->
  in_range (nrows (weight (c_fc (mlp b)))) n ->
  in_range (nrows (weight (c_fc (mlp b')))) n' ->
  Z.of_nat d <= top_k ->
  Z.of_nat (nrows (weight (c_fc (mlp b)))) <= top_k ->
  Bwd.candidates layers top_k self L' n' depth = Some (Ok cb) ->
  forall ch w r,
    (exists sub, Bwd.Entry L n w ch r sub ∈ cb) <->
    in_range d ch /\
    w = entry (weight (c_proj (mlp b))) (Z.to_nat ch) (Z.to_nat n) /\
    ~ (w == 0)%Q /\
    r = entry (weight (c_fc (mlp b'))) (Z.to_nat n') (Z.to_nat ch) /\
    ~ (r == 0)%Q.
Proof.
  intros Hwf HL Hb Hb' Hn Hn' Hk1 Hk2 Hf ch w r.
  destruct (wf_model_lookup _ _ _ _ Hwf Hb) as (H1 & H2 & H3).
  destruct (wf_model_lookup _ _ _ _ Hwf Hb') as (H1' & H2' & H3').
  assert (Hc : neuron_get_connected_reschannels layers L' n' =
    Ok {| conn_in :=
            channel_conns (row_at (weight (c_fc (mlp b'))) (Z.to_nat n'));
          conn_out :=
            channel_conns (column_at (weight (c_proj (mlp b'))) (Z.to_nat n')) |}).
  { apply connections_in_range; [lia|done|done|by rewrite <- H3']. }
  assert (Hws : in_range d ch ->
    find_neurons_writing_channel layers L ch top_k =
      Ok (slice_to top_k
            (ranking (row_at (weight (c_proj (mlp b))) (Z.to_nat ch))))).
  { intros Hch. apply writers_in_range; [lia|done|by rewrite H2]. }
  split.
  - intros [sub He]. pose proof (bwd_candidates_edges _ _ _ _ _ _ _ Hf) as Hall.
    rewrite Forall_forall in Hall.
    destruct (Hall _ He) as [(_ & (c & Hc' & Hch) & (ws & Hws' & Hw)) _].
    simpl in *. rewrite Hc in Hc'. injection Hc' as <-. simpl in Hch.
    apply in_conn_iff in Hch as (Hch & Hr & Hrnz). rewrite H1' in Hch.
    rewrite (Hws Hch) in Hws'. injection Hws' as <-.
    apply elem_of_slice_to, elem_of_ranking, row_entry_of in Hw
      as (_ & Hw & Hnz). simpl in *. done.
  - intros (Hch & Hw & Hnz & Hr & Hrnz).
    destruct (bwd_candidates_complete _ _ _ _ _ _ _ _ Hf Hc
      {| channel_id := ch; channel_weight := r |} L
      (slice_to top_k
         (ranking (row_at (weight (c_proj (mlp b))) (Z.to_nat ch))))
      {| neuron_id := n; neuron_weight := w |}) as [sub Hsub].
    + simpl. apply kept_all; [rewrite length_row_at; lia|].
      apply in_conn_iff. by rewrite H1'.
    + lia.
    + simpl. by apply Hws.
    + apply ranking_all; [rewrite length_row_at; lia|].
      apply elem_of_ranking, row_entry_of. by rewrite <- H3.
    + eauto.
Qed.

(** X19. Forward and backward expansion are mirror images when nothing is
    cut.  On a model of well-formed shapes, with [top_k] at least the
    residual width and the two MLP widths, a neuron [n'] of a later layer
    is a forward candidate of [n] through a channel exactly when [n] is a
    backward candidate of [n'] through the same channel with the same two
    weights; this is the case exactly when the write weight of [n] into
    the channel and the read weight of [n'] from it are both non-zero. *)
Theorem candidates_mirror
    (layers : layers_t) (d : nat) (top_k L n L' n' depth : Z) (b b' : block) :
  wf_model layers d ->
  0 <= L < L' ->
  layers !! Z.to_nat L = Some b ->
  layers !! Z.to_nat L' = Some b' ->
  in_range (nrows (weight (c_fc (mlp b)))) n ->
  in_range (nrows (weight (c_fc (mlp b')))) n' ->
  depth <> 0 ->
  Z.of_nat d <= top_k ->
  Z.of_nat (nrows (weight (c_fc (mlp b)))) <= top_k ->
  Z.of_nat (nrows (weight (c_fc (mlp b')))) <= top_k ->
  exists cf cb,
    Fwd.candidates layers top_k (fwd_expand layers top_k) L n depth
      = Some (Ok cf) /\
    Bwd.candidates layers top_k (bwd_expand layers top_k) L' n' depth
      = Some (Ok cb) /\
    forall ch w r,
      ((exists sub, Fwd.Entry L' n' r ch w sub ∈ cf) <->
       (exists sub, Bwd.Entry L n w ch r sub ∈ cb)) /\
      ((exists sub, Fwd.Entry L' n' r ch w sub ∈ cf) <->
       in_range d ch /\
       w = entry (weight (c_proj (mlp b))) (Z.to_nat ch) (Z.to_nat n) /\
       ~ (w == 0)%Q /\
       r = entry (weight (c_fc (mlp b'))) (Z.to_nat n') (Z.to_nat ch) /\
       ~ (r == 0)%Q).
Proof.
  intros Hwf HL Hb Hb' Hn Hn' Hd Hk Hk1 Hk2.
  pose proof (lookup_lt_Some _ _ _ Hb') as Hlen.
  destruct (fwd_candidates_return layers d top_k L n depth Hwf) as [cf Hcf];
    [exists b; split; [lia|done] | done | unfold len; lia |].
  destruct (bwd_candidates_return layers d top_k L' n' depth Hwf) as [cb Hcb];
    [exists b'; split; [lia|done] | done | lia |].
  exists cf, cb. split; [done|]. split; [done|]. intros ch w r.
  pose proof (fwd_candidates_matrix layers d top_k _ L n L' n' depth b b' cf
                Hwf HL Hb Hb' Hn Hn' Hk Hk2 Hcf ch w r) as Hf.
  pose proof (bwd_candidates_matrix layers d top_k _ L n L' n' depth b b' cb
                Hwf HL Hb Hb' Hn Hn' Hk Hk1 Hcb ch w r) as Hb2.
  split; [|exact Hf]. rewrite Hf, Hb2. done.
Qed.

Lemma candidates_mirror_witness :
  exists cf cb,
    Fwd.candidates model3 2 (fwd_expand model3 2) 0 1 1 = Some (Ok cf) /\
    Bwd.candidates model3 2 (bwd_expand model3 2) 1 0 1 = Some (Ok cb) /\
    forall ch w r,
      (exists sub, Fwd.Entry 1 0 r ch w sub ∈ cf) <->
      (exists sub, Bwd.Entry 0 1 w ch r sub ∈ cb).
Proof.
  assert (Hwf : wf_model model3 2) by repeat constructor.
  assert (HL : 0 <= 0 < 1) by lia.
  assert (H1 : in_range 2 1) by (unfold in_range; simpl; lia).
  assert (H0 : in_range 2 0) by (unfold in_range; simpl; lia).
  assert (Hd : (1 : Z) <> 0) by lia.
  assert (Hk : Z.of_nat 2 <= 2) by (simpl; lia).
  destruct (candidates_mirror model3 2 2 0 1 1 0 1 dense2 dense2
              Hwf HL eq_refl eq_refl H1 H0 Hd Hk Hk Hk)
    as (cf & cb & Hcf & Hcb & H).
  exists cf, cb. split; [exact Hcf|]. split; [exact Hcb|].
  intros ch w r. exact (proj1 (H ch w r)).
Defined.

(** ** A backward trace depends only on the layers up to its start *)

Lemma getitem_app_l {A} (l l' : list A) i :
  in_range (length l) i -> getitem (l ++ l') i = getitem l i.
Proof.
  intros Hi. destruct (in_range_lookup _ _ Hi) as [a Ha].
  rewrite (getitem_nonneg l i a) by (done || apply Hi).
  apply getitem_nonneg; [apply Hi|]. by apply lookup_app_l_Some.
Qed.

Lemma connections_app_l layers extra layer neuron :
  in_range (length layers) layer ->
  neuron_get_connected_reschannels (layers ++ extra) layer neuron =
  neuron_get_connected_reschannels layers layer neuron.
Proof.
  intros H. unfold neuron_get_connected_reschannels.
  by rewrite getitem_app_l.
Qed.

Lemma writers_app_l layers extra layer ch top_k :
  in_range (length layers) layer ->
  find_neurons_writing_channel (layers ++ extra) layer ch top_k =
  find_neurons_writing_channel layers layer ch top_k.
Proof.
  intros H. unfold find_neurons_writing_channel. by rewrite getitem_app_l.
Qed.

Lemma bwd_candidates_app_l layers extra top_k self1 self2 layer neuron depth :
  in_range (length layers) layer ->
  (forall l n d, 0 <= l < layer -> self1 l n d = self2 l n d) ->
  Bwd.candidates (layers ++ extra) top_k self1 layer neuron depth =
  Bwd.candidates layers top_k self2 layer neuron depth.
Proof.
  intros Hl H. unfold Bwd.candidates. rewrite connections_app_l by done.
  destruct (neuron_get_connected_reschannels layers layer neuron) as [c|e];
    simpl; [|done].
  apply for_each_ext. intros s ch _.
  apply for_each_ext. intros s' prev Hprev. apply elem_of_range_down in Hprev.
  rewrite writers_app_l by (unfold in_range in *; lia).
  destruct (find_neurons_writing_channel layers prev (channel_id ch) top_k)
    as [ws|e]; simpl; [|done].
  apply for_each_ext. intros s'' w _. rewrite H by lia. done.
Qed.

Lemma bwd_trace_app_l layers extra top_k fuel :
  forall layer neuron depth,
    layer < len layers ->
    Bwd.trace_from_neuron (layers ++ extra) top_k fuel layer neuron depth =
    Bwd.trace_from_neuron layers top_k fuel layer neuron depth.
Proof.
  induction fuel as [|fuel IH]; intros layer neuron depth Hl;
    rewrite !bwd_trace_unfold;
    destruct ((depth =? 0) || (layer <=? 0)) eqn:Hterm; try done.
  apply orb_false_iff in Hterm as [_ Hpos]. f_equal.
  apply bwd_candidates_app_l; [unfold in_range, len in *; lia|].
  intros l n d Hln. apply IH. lia.
Qed.

(** X20. A backward trace reads only the layers up to its start layer:
    appending further layers to the model does not change the backward
    trace of any neuron of the original layers. *)
Theorem backward_trace_ignores_later_layers
    (layers extra : layers_t) (layer neuron depth top_k : Z) :
  layer < len layers ->
  Bwd.trace_circuit_backward (layers ++ extra) layer neuron depth top_k =
  Bwd.trace_circuit_backward layers layer neuron depth top_k.
Proof.
  intros Hl. unfold Bwd.trace_circuit_backward.
  by rewrite bwd_trace_app_l.
Qed.

Lemma backward_trace_ignores_later_layers_witness :
  Bwd.trace_circuit_backward ([dense2; dense2] ++ [ones2]) 1 0 2 1 =
  Bwd.trace_circuit_backward [dense2; dense2] 1 0 2 1.
Proof.
  apply (backward_trace_ignores_later_layers [dense2; dense2] [ones2] 1 0 2 1).
  vm_compute. reflexivity.
Defined.
